(** * Photo capture and design comparison front end

    A shallow embedding of the TypeScript sources of the capture page, the
    preview page (category selector), the design generation client, the
    compare page and the upload route, together with the properties of the
    specification that were checked against them and further properties
    of the sources.

    Conventions.  A JavaScript string is a [string] (a sequence of code
    units below 256, which covers data URLs and binary strings); a value
    of type [string | null] or [string | undefined] is an [option string]
    and its truthiness is [truthy_opt].  React state is a record and a
    handler is a function on it; what a handler awaits is an event of its
    page's step function, so that other events can come in between.
    Session storage, the router, the console, the network and the camera
    are explicit: they are part of the state a handler runs in, or an
    argument of the handler when the platform decides the outcome. *)

From Stdlib Require Import ZArith Lia Ascii String Reals Lra.
From Stdlib Require Import Floats.SpecFloat.
From stdpp Require Import gmap strings list pretty.

Local Open Scope string_scope.
Local Open Scope list_scope.

(** ** JavaScript string and Set primitives used by the sources *)

Module JS.

(** Truthiness of a string: only the empty string is falsy. *)
Definition truthy (s : string) : bool := bool_decide (s ≠ "").

(** Truthiness of [string | null | undefined]. *)
Definition truthy_opt (o : option string) : bool :=
  match o with
  | Some s => truthy s
  | None => false
  end.

(** [s.startsWith(p)] *)
Definition startsWith (s p : string) : bool := String.prefix p s.

(** [s.includes(p)] *)
Fixpoint includes (s p : string) : bool :=
  String.prefix p s ||
  match s with
  | EmptyString => false
  | String _ rest => includes rest p
  end.

(** [s.split(sep)] for a one-character separator: never the empty list. *)
Fixpoint split (sep : ascii) (s : string) : list string :=
  match s with
  | EmptyString => [""]
  | String c rest =>
      if bool_decide (c = sep) then "" :: split sep rest
      else match split sep rest with
           | h :: t => String c h :: t
           | [] => [String c ""]
           end
  end.

(** [parts.join(sep)] *)
Fixpoint join (sep : string) (parts : list string) : string :=
  match parts with
  | [] => ""
  | [p] => p
  | p :: rest => p +:+ sep +:+ join sep rest
  end.

(** A [Set<string>] is the list of its members in insertion order, which
    is the order [Array.from] and iteration observe. *)
Definition set_has (x : string) (s : list string) : bool :=
  bool_decide (x ∈ s).

Definition set_add (x : string) (s : list string) : list string :=
  if set_has x s then s else s ++ [x].

Definition set_delete (x : string) (s : list string) : list string :=
  filter (λ y, y ≠ x) s.

Definition set_size (s : list string) : nat := length s.

End JS.

(** ** Browser services the sources call but do not define *)

(** A binary payload: [Blob] and [File] (a [File] with its name). *)
Record blob := Blob {
  blob_type : string;
  blob_bytes : string
}.

Record file := File {
  file_bytes : string;
  file_name : string;
  file_type : string
}.

(** [atob] decodes base64 into a binary string or throws ([None]);
    [FileReader.readAsDataURL] yields a data URL or fires [onerror]
    ([None]).  The pages are verified for every such platform. *)
Record platform := Platform {
  atob : string → option string;
  readAsDataURL : blob → option string
}.

(** A reference platform: forgiving base64 decoding as browsers implement
    [atob], and the base64 data URL that [readAsDataURL] produces. *)
Module Base64.

Definition alphabet : string :=
  "ABCDEFGHIJKLMNOPQRSTUVWXYZabcdefghijklmnopqrstuvwxyz0123456789+/".

Fixpoint index_of (c : ascii) (s : string) (i : N) : option N :=
  match s with
  | EmptyString => None
  | String d rest => if bool_decide (c = d) then Some i
                     else index_of c rest (N.succ i)
  end.

Definition sextet (c : ascii) : option N := index_of c alphabet 0%N.

Definition is_whitespace (c : ascii) : bool :=
  bool_decide (N_of_ascii c ∈ [9; 10; 12; 13; 32]%N).

Definition chars (s : string) : list ascii := list_ascii_of_string s.

Definition strip_padding (l : list ascii) : list ascii :=
  if bool_decide (length l `mod` 4 = 0)%nat then
    match reverse l with
    | "="%char :: "="%char :: r => reverse r
    | "="%char :: r => reverse r
    | _ => l
    end
  else l.

Definition byte (n : N) : ascii := ascii_of_N (n `mod` 256)%N.

Fixpoint decode_groups (l : list N) : list ascii :=
  match l with
  | a :: b :: c :: d :: rest =>
      byte (a * 4 + b / 16) :: byte (b * 16 + c / 4) :: byte (c * 64 + d)
      :: decode_groups rest
  | [a; b; c] => [byte (a * 4 + b / 16); byte (b * 16 + c / 4)]
  | [a; b] => [byte (a * 4 + b / 16)]
  | _ => []
  end%N.

(** Forgiving base64 decoding: white space is skipped, padding is
    optional, a length of 1 modulo 4 and any character outside the
    alphabet are refused. *)
Definition decode (s : string) : option string :=
  let l := strip_padding (filter (λ c, is_whitespace c = false) (chars s)) in
  if bool_decide (length l `mod` 4 = 1)%nat then None
  else
    match mapM sextet l with
    | Some v => Some (string_of_list_ascii (decode_groups v))
    | None => None
    end.

Definition digit (n : N) : ascii :=
  match String.get (N.to_nat n) alphabet with
  | Some c => c
  | None => "="%char
  end.

Fixpoint encode_groups (l : list N) : list ascii :=
  match l with
  | a :: b :: c :: rest =>
      digit (a / 4) :: digit (a `mod` 4 * 16 + b / 16)
      :: digit (b `mod` 16 * 4 + c / 64) :: digit (c `mod` 64)
      :: encode_groups rest
  | [a; b] =>
      [digit (a / 4); digit (a `mod` 4 * 16 + b / 16);
       digit (b `mod` 16 * 4); "="%char]
  | [a] => [digit (a / 4); digit (a `mod` 4 * 16); "="%char; "="%char]
  | [] => []
  end%N.

Definition encode (s : string) : string :=
  string_of_list_ascii (encode_groups (N_of_ascii <$> chars s)).

Definition data_url (b : blob) : string :=
  "data:" +:+ (if JS.truthy (blob_type b) then blob_type b
               else "application/octet-stream")
  +:+ ";base64," +:+ encode (blob_bytes b).

Definition browser : platform := Platform decode (λ b, Some (data_url b)).

End Base64.

(** ** Session storage *)

Module SessionStorage.

(** [available = false]: every access throws (storage disabled);
    [full = true]: the platform refuses the next write (quota). *)
Record t := mk {
  available : bool;
  full : bool;
  items : gmap string string
}.

Inductive outcome (A : Type) :=
| Returns (a : A)
| Throws (name : string).
Arguments Returns {A} a.
Arguments Throws {A} name.

Definition getItem (k : string) (s : t) : outcome (option string) :=
  if available s then Returns (items s !! k) else Throws "SecurityError".

Definition setItem (k v : string) (s : t) : outcome t :=
  if negb (available s) then Throws "SecurityError"
  else if full s then Throws "QuotaExceededError"
  else Returns (mk true (full s) (<[k := v]> (items s))).

Definition removeItem (k : string) (s : t) : outcome t :=
  if available s then Returns (mk true (full s) (delete k (items s)))
  else Throws "SecurityError".

Definition empty : t := mk true false ∅.

End SessionStorage.

Import SessionStorage (Returns, Throws).

(** ** The world around a page: storage, router and console *)

(** A navigation keeps the query parameters as pairs: what
    [encodeURIComponent] writes into the URL is what [searchParams.get]
    reads back on the next page. *)
Inductive navigation :=
| RouterPush (path : string) (query : list (string * string))
| RouterReplace (path : string)
| RouterBack.

Record world := World {
  storage : SessionStorage.t;
  history : list navigation;
  console : list string
}.

Definition set_storage (s : SessionStorage.t) (w : world) : world :=
  World s (history w) (console w).

Definition navigate (n : navigation) (w : world) : world :=
  World (storage w) (history w ++ [n]) (console w).

Definition console_error (msg : string) (w : world) : world :=
  World (storage w) (history w) (console w ++ [msg]).

Definition fresh_world (s : SessionStorage.t) : world := World s [] [].

(** ** Preview page: the category selector (src/app/preview/page.tsx) *)

Module Preview.

Definition designCategories : list string :=
  ["floor"; "walls"; "furniture"; "lighting"; "decor"].

Record state := State {
  imageUrl : option string;
  selectedCategories : list string;
  isMounted : bool
}.

Definition initial : state := State None [] false.

(** First effect. *)
Definition mount (st : state) : state :=
  State (imageUrl st) (selectedCategories st) true.

(** Second effect: read the captured photo and clear it. *)
Definition loadPhoto (st : state) (w : world) : state * world :=
  if isMounted st then
    match SessionStorage.getItem "capturedPhoto" (storage w) with
    | Returns photo =>
        if JS.truthy_opt photo then
          let st' := State photo (selectedCategories st) (isMounted st) in
          match SessionStorage.removeItem "capturedPhoto" (storage w) with
          | Returns s' => (st', set_storage s' w)
          | Throws _ =>
              (st', navigate (RouterReplace "/")
                      (console_error "Error accessing sessionStorage:" w))
          end
        else (st, navigate (RouterReplace "/") w)
    | Throws _ =>
        (st, navigate (RouterReplace "/")
               (console_error "Error accessing sessionStorage:" w))
    end
  else (st, w).

Definition toggleCategory (categoryId : string) (prev : list string)
  : list string :=
  let newSet := prev in
  if JS.set_has categoryId newSet then JS.set_delete categoryId newSet
  else JS.set_add categoryId newSet.

Definition onToggle (categoryId : string) (st : state) : state :=
  State (imageUrl st) (toggleCategory categoryId (selectedCategories st))
    (isMounted st).

(** What the page renders. *)
Definition categoryButtonsShown (st : state) : bool :=
  JS.truthy_opt (imageUrl st).

Definition generateButtonShown (st : state) : bool :=
  JS.truthy_opt (imageUrl st)
  && bool_decide (0 < JS.set_size (selectedCategories st)).

(** The body of the [try] block of [handleGenerateDesign]: the thrown
    message, or the storage after the write and the navigation. *)
Definition prepareDesign (P : platform) (imageUrl : string)
  (selectedCategories : list string) (s : SessionStorage.t)
  : string + (SessionStorage.t * navigation) :=
  if negb (JS.startsWith imageUrl "data:image/") then
    inl "Invalid image format"
  else
    let categoriesParam := JS.join "," selectedCategories in
    let parts := JS.split "," imageUrl in
    let header := default "" (parts !! 0%nat) in
    let base64Data := parts !! 1%nat in
    if negb (JS.includes header ";base64") || negb (JS.truthy_opt base64Data)
    then inl "Invalid image data format"
    else
      match atob P (default "" base64Data) with
      | None => inl "Invalid base64 image data"
      | Some _ =>
          match SessionStorage.setItem "designPhoto" imageUrl s with
          | Throws name => inl name
          | Returns s' =>
              inr (s', RouterPush "/compare"
                         [("categories", categoriesParam)])
          end
      end.

Definition handleGenerateDesign (P : platform) (st : state) (w : world)
  : world :=
  if negb (JS.truthy_opt (imageUrl st)) then
    console_error "No image URL available" w
  else
    match prepareDesign P (default "" (imageUrl st)) (selectedCategories st)
            (storage w) with
    | inl message => console_error ("Error preparing image: " +:+ message) w
    | inr (s', target) => navigate target (set_storage s' w)
    end.

(** User and framework events, and when the rendered page offers them. *)
Inductive event :=
| Mount
| LoadPhoto
| Toggle (categoryId : string)
| Generate
| TakeNewPhoto.

Definition enabled (e : event) (st : state) : bool :=
  match e with
  | Mount => true
  | LoadPhoto => isMounted st
  | Toggle c => categoryButtonsShown st && bool_decide (c ∈ designCategories)
  | Generate => generateButtonShown st
  | TakeNewPhoto => true
  end.

Definition fire (P : platform) (e : event) (c : state * world)
  : state * world :=
  match e with
  | Mount => (mount c.1, c.2)
  | LoadPhoto => loadPhoto c.1 c.2
  | Toggle x => (onToggle x c.1, c.2)
  | Generate => (c.1, handleGenerateDesign P c.1 c.2)
  | TakeNewPhoto => (c.1, navigate (RouterPush "/" []) c.2)
  end.

Definition step (P : platform) (e : event) (c : state * world)
  : option (state * world) :=
  if enabled e c.1 then Some (fire P e c) else None.

Fixpoint run (P : platform) (es : list event) (c : state * world)
  : option (state * world) :=
  match es with
  | [] => Some c
  | e :: es' =>
      match step P e c with
      | Some c' => run P es' c'
      | None => None
      end
  end.

(** States of a page instance that was mounted in world [w0]. *)
Definition reachable (P : platform) (c : state * world) : Prop :=
  ∃ es w0, run P es (initial, w0) = Some c.

End Preview.

(** ** Compare page: initialisation (src/unnamed/part_001) *)

Record GeneratedDesign := Design {
  id : string;
  design_imageUrl : string
}.

Module Compare.

Record state := State {
  originalPhoto : option string;
  isLoading : bool;
  loadingDesignIndex : option nat;
  designs : option (GeneratedDesign * GeneratedDesign);
  selectedCategories : list string;
  error : option string;
  isMounted : bool
}.

Definition initial : state := State None false None None [] None false.

Definition mount (st : state) : state :=
  State (originalPhoto st) (isLoading st) (loadingDesignIndex st) (designs st)
    (selectedCategories st) (error st) true.

Definition setError (e : option string) (st : state) : state :=
  State (originalPhoto st) (isLoading st) (loadingDesignIndex st) (designs st)
    (selectedCategories st) e (isMounted st).

Definition setIsLoading (b : bool) (st : state) : state :=
  State (originalPhoto st) b (loadingDesignIndex st) (designs st)
    (selectedCategories st) (error st) (isMounted st).

Definition setLoadingDesignIndex (i : option nat) (st : state) : state :=
  State (originalPhoto st) (isLoading st) i (designs st)
    (selectedCategories st) (error st) (isMounted st).

Definition setDesigns (d : option (GeneratedDesign * GeneratedDesign))
  (st : state) : state :=
  State (originalPhoto st) (isLoading st) (loadingDesignIndex st) d
    (selectedCategories st) (error st) (isMounted st).

Definition setPhotoAndCategories (photo : string) (cats : list string)
  (st : state) : state :=
  State (Some photo) (isLoading st) (loadingDesignIndex st) (designs st)
    cats (error st) (isMounted st).

(** The [catch] branch of the initialisation effect. *)
Definition initFailed (st : state) (w : world) : state * world :=
  (setError (Some "Failed to process photo data") st,
   navigate (RouterReplace "/")
     (console_error "Error processing photo data:" w)).

(** The effect that reads the [categories] query parameter and the stored
    photo. *)
Definition init (categories : option string) (st : state) (w : world)
  : state * world :=
  if negb (isMounted st) then (st, w)
  else if JS.truthy_opt categories then
    match SessionStorage.getItem "designPhoto" (storage w) with
    | Throws _ => initFailed st w
    | Returns photo =>
        if negb (JS.truthy_opt photo) then initFailed st w
        else if negb (JS.startsWith (default "" photo) "data:image/")
        then initFailed st w
        else
          let st' := setPhotoAndCategories (default "" photo)
                       (JS.split "," (default "" categories)) st in
          match SessionStorage.removeItem "designPhoto" (storage w) with
          | Returns s' => (st', set_storage s' w)
          | Throws _ => initFailed st' w
          end
    end
  else (st, navigate (RouterReplace "/") w).

End Compare.

(** ** Session transfer: the put / read-and-clear pattern of the pages *)

Module SessionTransfer.

(** [handleNext] and [handleGenerateDesign] hand a value over with
    [sessionStorage.setItem]. *)
Definition put (k v : string) (s : SessionStorage.t)
  : SessionStorage.outcome SessionStorage.t :=
  SessionStorage.setItem k v s.

(** The read-and-clear sequence of the preview page, with the key as a
    parameter: [getItem], the truthiness test, then [removeItem].  The
    result is the value handed to the page ([None]: nothing found, or the
    storage threw) and the storage afterwards. *)
Definition takeOnce (k : string) (s : SessionStorage.t)
  : option string * SessionStorage.t :=
  match SessionStorage.getItem k s with
  | Returns photo =>
      if JS.truthy_opt photo then
        match SessionStorage.removeItem k s with
        | Returns s' => (photo, s')
        | Throws _ => (photo, s)
        end
      else (None, s)
  | Throws _ => (None, s)
  end.

(** The same sequence on the compare page, which also requires the image
    data-scheme prefix before it accepts and clears the value. *)
Definition takeOnceImage (k : string) (s : SessionStorage.t)
  : option string * SessionStorage.t :=
  match SessionStorage.getItem k s with
  | Returns photo =>
      if JS.truthy_opt photo
         && JS.startsWith (default "" photo) "data:image/" then
        match SessionStorage.removeItem k s with
        | Returns s' => (photo, s')
        | Throws _ => (photo, s)
        end
      else (None, s)
  | Throws _ => (None, s)
  end.

End SessionTransfer.

(** ** Design generation client (src/unnamed/part_004) *)

(** A thrown or rejected value: an [Error] with its message, or a value
    that is not an [Error] (the [ProgressEvent] of a failed file read). *)
Inductive thrown :=
| ErrorObject (message : string)
| NotAnError.

Record request := Request {
  method : string;
  url : string;
  form : list (string * file)
}.

(** The body of a response as [text()] and [blob()] deliver it, or the
    reason why reading it fails. *)
Inductive body :=
| Body (content_type : string) (payload : string)
| BodyFails (reason : thrown).

Record response := Response {
  status : N;
  response_body : body
}.

Inductive fetched :=
| Resolves (r : response)
| Rejects (reason : thrown).

(** [response.ok] *)
Definition ok (r : response) : bool :=
  bool_decide (200 ≤ status r ≤ 299)%N.

Module DesignService.

Definition API_BASE_URL : string := "http://localhost:8000".

(** [(.*?);] matched at the start of [s]: the text before the first
    semicolon, unless a line terminator comes first. *)
Fixpoint upToSemicolon (s : string) : option string :=
  match s with
  | EmptyString => None
  | String c rest =>
      if bool_decide (c = ";"%char) then Some ""
      else if bool_decide (N_of_ascii c ∈ [10; 13]%N) then None
      else String c <$> upToSemicolon rest
  end.

(** [header.match(/:(.*?);/)?.[1]]: the leftmost match. *)
Fixpoint matchMime (header : string) : option string :=
  match header with
  | EmptyString => None
  | String c rest =>
      if bool_decide (c = ":"%char) then
        match upToSemicolon rest with
        | Some g => Some g
        | None => matchMime rest
        end
      else matchMime rest
  end.

Definition lowercase (c : ascii) : ascii :=
  let n := N_of_ascii c in
  if bool_decide (65 ≤ n ≤ 90)%N then ascii_of_N (n + 32) else c.

(** The [type] a [File] is constructed with: lower-cased, and empty when
    it has a character outside U+0020 .. U+007E. *)
Definition fileType (t : string) : string :=
  let cs := list_ascii_of_string t in
  if forallb (λ c, bool_decide (32 ≤ N_of_ascii c ≤ 126)%N) cs
  then string_of_list_ascii (lowercase <$> cs)
  else "".

Definition dataURLtoFile (P : platform) (dataUrl filename : string)
  : thrown + file :=
  if negb (JS.startsWith dataUrl "data:") then
    inl (ErrorObject "Invalid data URL format")
  else
    let parts := JS.split "," dataUrl in
    let header := default "" (parts !! 0%nat) in
    let base64Data := parts !! 1%nat in
    if negb (JS.truthy header) || negb (JS.truthy_opt base64Data) then
      inl (ErrorObject "Invalid data URL format: missing header or data")
    else
      let mime :=
        match matchMime header with
        | Some g => if JS.truthy g then g else "image/jpeg"
        | None => "image/jpeg"
        end in
      if negb (JS.includes header ";base64") then
        inl (ErrorObject "Data URL is not base64 encoded")
      else
        match atob P (default "" base64Data) with
        | Some bstr => inr (File bstr filename (fileType mime))
        | None => inl (ErrorObject "Failed to decode image data")
        end.

(** [blobToDataURL]: the promise resolves with the reader's result or
    rejects with the reader's error event. *)
Definition blobToDataURL (P : platform) (b : blob) : thrown + string :=
  match readAsDataURL P b with
  | Some dataUrl => inr dataUrl
  | None => inl NotAnError
  end.

(** The multipart form and the endpoint [generateDesigns] builds before
    it calls [fetch]. *)
Definition buildRequest (P : platform) (originalImage : string)
  (tileImage : option string) : thrown + request :=
  match dataURLtoFile P originalImage "original.jpg" with
  | inl e => inl e
  | inr originalFile =>
      let formData := [("files", originalFile)] in
      let withTile :=
        if JS.truthy_opt tileImage then
          match dataURLtoFile P (default "" tileImage) "tile.jpg" with
          | inl e => inl e
          | inr tileFile => inr (formData ++ [("files", tileFile)])
          end
        else inr formData in
      match withTile with
      | inl e => inl e
      | inr formData' =>
          let endpoint := if JS.truthy_opt tileImage then "generate"
                          else "generate-random" in
          inr (Request "POST" (API_BASE_URL +:+ "/tiles/" +:+ endpoint +:+ "/")
                 formData')
      end
  end.

(** What [generateDesigns] does with the outcome of [fetch]. *)
Definition readResponse (f : fetched) : thrown + blob :=
  match f with
  | Rejects reason => inl reason
  | Resolves r =>
      if negb (ok r) then
        match response_body r with
        | Body _ errorText =>
            inl (ErrorObject ("Failed to generate design: "
                              +:+ pretty (status r) +:+ " " +:+ errorText))
        | BodyFails reason => inl reason
        end
      else
        match response_body r with
        | Body content_type payload => inr (Blob content_type payload)
        | BodyFails reason => inl reason
        end
  end.

(** [generateDesigns(originalImage, tileImage)] against a network [net]:
    the requests it sends, and the blob it resolves with or the value it
    rejects with. *)
Definition generateDesigns (P : platform) (net : request → fetched)
  (originalImage : string) (tileImage : option string)
  : list request * (thrown + blob) :=
  match buildRequest P originalImage tileImage with
  | inl e => ([], inl e)
  | inr req => ([req], readResponse (net req))
  end.

(** The request [fetch(`${API_BASE_URL}/tiles`)] sends: a GET without a
    body. *)
Definition tilesRequest : request :=
  Request "GET" (API_BASE_URL +:+ "/tiles") [].

(** [getRandomTile()] against a network [net]: the request it sends, and
    the data URL it resolves with or the value it rejects with. *)
Definition getRandomTile (P : platform) (net : request → fetched)
  : list request * (thrown + string) :=
  ([tilesRequest],
   match net tilesRequest with
   | Rejects reason => inl reason
   | Resolves r =>
       if negb (ok r) then
         match response_body r with
         | Body _ errorText =>
             inl (ErrorObject ("Failed to get random tile: "
                               +:+ pretty (status r) +:+ " " +:+ errorText))
         | BodyFails reason => inl reason
         end
       else
         match response_body r with
         | Body content_type payload =>
             blobToDataURL P (Blob content_type payload)
         | BodyFails reason => inl reason
         end
   end).

End DesignService.

(** ** Compare page: generation and choice (src/unnamed/part_001) *)

Module Controller.

Import Compare.

(** What a handler does, in the order in which it does it. *)
Inductive effect :=
| CallGenerate (call : nat) (originalImage : string)
    (tileImage : option string)
| Send (call : nat) (r : request)
| Settled (call : nat) (fulfilled : bool)
| SetIsLoading (b : bool)
| SetError (e : option string)
| SetDesigns (d : GeneratedDesign * GeneratedDesign)
| ReplaceSlot (otherIndex : nat) (d : GeneratedDesign)
| SetLoadingDesignIndex (i : option nat)
| ConsoleError (message : string).

(** How the environment answers one run of [generateInitialDesigns]:
    the network each of the two calls meets, and which of the two
    promises settles first (the first call's, when it is rejected before
    anything is sent). *)
Record schedule := Schedule {
  net0 : request → fetched;
  net1 : request → fetched;
  firstSettled : nat
}.

(** [await Promise.all([p0, p1])]: both values by position, or the
    rejection that arrives first. *)
Definition promiseAll {A : Type} (first : nat) (r0 r1 : thrown + A)
  : thrown + (A * A) :=
  match r0, r1 with
  | inr a, inr b => inr (a, b)
  | inl e, inr _ => inl e
  | inr _, inl e => inl e
  | inl e0, inl e1 => inl (if bool_decide (first = 0%nat) then e0 else e1)
  end.

Definition fulfilled {A : Type} (r : thrown + A) : bool :=
  match r with
  | inr _ => true
  | inl _ => false
  end.

(** The settlements the handler has seen when [Promise.all] lets it
    continue: both when the first one is fulfilled, only the first when
    that one is a rejection. *)
Definition settlements {A : Type} (first : nat) (r0 r1 : thrown + A)
  : list effect :=
  let other := if bool_decide (first = 0%nat) then 1%nat else 0%nat in
  let result i := if bool_decide (i = 0%nat) then fulfilled r0
                  else fulfilled r1 in
  if result first then [Settled first true; Settled other (result other)]
  else [Settled first false].

(** [error instanceof Error ? error.message : 'Failed to generate designs'] *)
Definition errorMessage (e : thrown) : string :=
  match e with
  | ErrorObject message => message
  | NotAnError => "Failed to generate designs"
  end.

(** [newDesigns[otherIndex] = d] on a copy of the pair. *)
Definition setSlot (otherIndex : nat) (d : GeneratedDesign)
  (prev : GeneratedDesign * GeneratedDesign)
  : GeneratedDesign * GeneratedDesign :=
  match otherIndex with
  | O => (d, prev.2)
  | _ => (prev.1, d)
  end.

(** [designs[i]] for [i] in {0, 1}. *)
Definition slot (i : nat) (prev : GeneratedDesign * GeneratedDesign)
  : GeneratedDesign :=
  match i with
  | O => prev.1
  | _ => prev.2
  end.

Definition otherIndexOf (chosenIndex : nat) : nat :=
  if bool_decide (chosenIndex = 0%nat) then 1%nat else 0%nat.

(** The updater passed to [setDesigns] by [handleDesignChoice]. *)
Definition replaceSlot (otherIndex : nat) (d : GeneratedDesign)
  (prevDesigns : option (GeneratedDesign * GeneratedDesign))
  : option (GeneratedDesign * GeneratedDesign) :=
  match prevDesigns with
  | None => None
  | Some prev => Some (setSlot otherIndex d prev)
  end.

Definition apply (e : effect) (st : state) : state :=
  match e with
  | SetIsLoading b => setIsLoading b st
  | SetError m => setError m st
  | SetDesigns d => setDesigns (Some d) st
  | ReplaceSlot i d => setDesigns (replaceSlot i d (designs st)) st
  | SetLoadingDesignIndex i => setLoadingDesignIndex i st
  | _ => st
  end.

Definition applyAll (es : list effect) (st : state) : state :=
  foldl (λ acc e, apply e acc) st es.

(** The effects of one run of [generateInitialDesigns]. *)
Definition generateInitialDesignsEffects (P : platform) (env : schedule)
  (originalPhoto : option string) : list effect :=
  if negb (JS.truthy_opt originalPhoto) then
    [SetError (Some "No original photo provided")]
  else
    let photo := default "" originalPhoto in
    let g0 := DesignService.generateDesigns P (net0 env) photo None in
    let g1 := DesignService.generateDesigns P (net1 env) photo None in
    let first := match g0.1 with
                 | [] => 0%nat
                 | _ => firstSettled env
                 end in
    [SetIsLoading true; SetError None]
    ++ [CallGenerate 0 photo None] ++ (Send 0 <$> g0.1)
    ++ [CallGenerate 1 photo None] ++ (Send 1 <$> g1.1)
    ++ settlements first g0.2 g1.2
    ++ match promiseAll first g0.2 g1.2 with
       | inl e =>
           [ConsoleError "Failed to generate designs:";
            SetError (Some (errorMessage e))]
       | inr (design1Blob, design2Blob) =>
           match promiseAll 0 (DesignService.blobToDataURL P design1Blob)
                   (DesignService.blobToDataURL P design2Blob) with
           | inl e =>
               [ConsoleError "Failed to generate designs:";
                SetError (Some (errorMessage e))]
           | inr (design1Url, design2Url) =>
               [SetDesigns (Design "1" design1Url, Design "2" design2Url)]
           end
       end
    ++ [SetIsLoading false].

Definition generateInitialDesigns (P : platform) (env : schedule)
  (st : state) : state :=
  applyAll (generateInitialDesignsEffects P env (originalPhoto st)) st.

(** [handleDesignChoice] up to its first [await]: the slot is marked and
    the request is issued.  [photo] is the photo the handler closed over. *)
Definition handleDesignChoiceStart (P : platform) (net : request → fetched)
  (photo : string) (chosenIndex : nat) : list effect :=
  let g := DesignService.generateDesigns P net photo None in
  [SetLoadingDesignIndex (Some (otherIndexOf chosenIndex));
   CallGenerate 0 photo None] ++ (Send 0 <$> g.1).

(** ... and after the request has settled; [now] is the reading of
    [Date.now()] when the new design is stored. *)
Definition handleDesignChoiceFinish (P : platform) (net : request → fetched)
  (now : Z) (photo : string) (chosenIndex : nat) : list effect :=
  let g := DesignService.generateDesigns P net photo None in
  let failed := [ConsoleError "Failed to generate new design:";
                 SetError (Some "Failed to generate new design. Please try again.")] in
  [Settled 0 (fulfilled g.2)]
  ++ match g.2 with
     | inl _ => failed
     | inr newDesignBlob =>
         match DesignService.blobToDataURL P newDesignBlob with
         | inl _ => failed
         | inr newDesignUrl =>
             [ReplaceSlot (otherIndexOf chosenIndex)
                (Design (pretty now) newDesignUrl)]
         end
     end
  ++ [SetLoadingDesignIndex None].

Definition handleDesignChoice (P : platform) (net : request → fetched)
  (now : Z) (chosenIndex : nat) (st : state) : state :=
  if negb (JS.truthy_opt (originalPhoto st)) then st
  else
    let photo := default "" (originalPhoto st) in
    applyAll (handleDesignChoiceStart P net photo chosenIndex
              ++ handleDesignChoiceFinish P net now photo chosenIndex) st.

(** What the page shows. *)
Inductive view :=
| Generating
| Designs (d0 d1 : GeneratedDesign) (regenerating : option nat)
| RetryControl (message : string)
| LoadingText.

Definition render (st : state) : view :=
  if isLoading st then Generating
  else match designs st with
       | Some (d0, d1) => Designs d0 d1 (loadingDesignIndex st)
       | None =>
           if JS.truthy_opt (error st) then RetryControl (default "" (error st))
           else LoadingText
       end.

(** The [onClick] of the retry control. *)
Definition retry (P : platform) (env : schedule) (st : state) : state :=
  generateInitialDesigns P env (setError None st).

(** The button of slot [i] is rendered: the pair is shown and the slot is
    not the one marked as loading. *)
Definition choiceOffered (i : nat) (st : state) : bool :=
  match render st with
  | Designs _ _ regenerating => negb (bool_decide (regenerating = Some i))
  | _ => false
  end.

End Controller.

(** ** Capture page: the size of the captured image
    (src/unnamed/part_002, src/unnamed/part_003) *)

Module Capture.

Local Open Scope Z_scope.

(** A pixel dimension is an integer; the JavaScript number that holds it
    is the binary64 float [number n], exact below 2^53.  Comparisons and
    [Math.max] of such numbers are those of the integers; the division
    and the multiplications round, as [SFdiv] and [SFmul] specify. *)
Definition number (n : Z) : spec_float := binary_normalize 53 1024 n 0 false.

(** [Math.round]: the integer nearest to a number, ties upwards; a value
    that is not finite is stored in the canvas as 0. *)
Definition Math_round (x : spec_float) : Z :=
  match x with
  | S754_finite s m e =>
      let n := if s then Zneg m else Zpos m in
      if 0 <=? e then n * 2 ^ e else (2 * n + 2 ^ (- e)) / 2 ^ (1 - e)
  | _ => 0
  end.

(** [a || b] on numbers: 0 is falsy. *)
Definition orElse (a b : Z) : Z := if a =? 0 then b else a.

(** What [capture] reads: the settings of the video track, when there is
    one, and the intrinsic size of the video element. *)
Record frame := Frame {
  settingsWidth : option Z;
  settingsHeight : option Z;
  videoWidth : Z;
  videoHeight : Z
}.

Definition sourceWidth (f : frame) : Z :=
  orElse (default 0 (settingsWidth f)) (orElse (videoWidth f) 1280).

Definition sourceHeight (f : frame) : Z :=
  orElse (default 0 (settingsHeight f)) (orElse (videoHeight f) 720).

Definition maxDim : Z := 1920.

(** The size [capture] gives the canvas, which is the size of the image
    it encodes. *)
Definition canvasSize (w h : Z) : Z * Z :=
  if maxDim <? Z.max w h then
    let scale := SFdiv 53 1024 (number maxDim) (number (Z.max w h)) in
    (Math_round (SFmul 53 1024 (number w) scale),
     Math_round (SFmul 53 1024 (number h) scale))
  else (w, h).

Definition capturedSize (f : frame) : Z * Z :=
  canvasSize (sourceWidth f) (sourceHeight f).

(** An [unsigned long], the type of the dimensions the browser reports. *)
Definition unsignedLong (n : Z) : Prop := 0 <= n < 2 ^ 32.

Definition wellTyped (f : frame) : Prop :=
  unsignedLong (default 0 (settingsWidth f))
  /\ unsignedLong (default 0 (settingsHeight f))
  /\ unsignedLong (videoWidth f) /\ unsignedLong (videoHeight f).

(** [track.getSettings()]: the two fields [capture] reads. *)
Record trackSettings := TrackSettings {
  width : option Z;
  height : option Z
}.

(** src/unnamed/part_002: [stream?.getVideoTracks()?.[0]] is the first
    video track of the stream the page holds ([stream] lists the settings
    of its video tracks), and [settings] is [{}] without one. *)
Definition readFrame (stream : option (list trackSettings))
  (videoWidth videoHeight : Z) : frame :=
  let track := stream ≫= head in
  Frame (track ≫= width) (track ≫= height) videoWidth videoHeight.

(** src/unnamed/part_003: [stream?.getVideoTracks?.[0]] does not call the
    method, it reads the property [0] of the method itself, which a
    function does not have: [track] is undefined and [settings] is [{}]
    whatever the stream. *)
Definition readFrame_legacy (stream : option (list trackSettings))
  (videoWidth videoHeight : Z) : frame :=
  let track : option trackSettings := stream ≫= λ _, None in
  Frame (track ≫= width) (track ≫= height) videoWidth videoHeight.

End Capture.

(** Vocabulary for the proofs about binary64 arithmetic. *)
Module Binary64.

Local Open Scope Z_scope.

(** The record [x] locates the fraction N/D: its mantissa is the integer
    part, the round bit tells whether the rest reaches one half, the
    sticky bit whether anything is left beyond that. *)
Definition locates (N D : Z) (x : shr_record) : Prop :=
  0 < D /\ 0 <= shr_m x
  /\ shr_m x * D <= N < (shr_m x + 1) * D
  /\ (shr_r x = true <-> (2 * shr_m x + 1) * D <= 2 * N)
  /\ (shr_s x = false <-> (N = shr_m x * D \/ 2 * N = (2 * shr_m x + 1) * D)).

(** The real number a finite float stands for. *)
Definition B2R (x : spec_float) : R :=
  match x with
  | S754_finite s m e =>
      (IZR (if s then Zneg m else Zpos m) * powerRZ 2 e)%R
  | _ => 0%R
  end.

(** The unit roundoff, 2^-53. *)
Definition u : R := (/ 9007199254740992)%R.

End Binary64.

(** ** Capture page: camera life cycle (src/unnamed/part_002) *)

Module Camera.

(** React state of [CameraCapture].  A [MediaStream] is named by a
    number. *)
Record state := State {
  stream : option nat;
  blob : option string;
  busy : bool;
  error : option string;
  frozenFrame : option string;
  showToast : bool
}.

Definition initial : state := State None None false None None false.

(** The browser around the component: the streams whose tracks are live,
    the name of the next stream the camera will hand out, the pending
    [getUserMedia] and [play] promises and file reads, and whether the
    file picker is open. *)
Record device := Device {
  supportsGetUserMedia : bool;
  isSecure : bool;
  live : gset nat;
  nextStream : nat;
  pendingGetUserMedia : nat;
  pendingPlay : nat;
  pendingReads : nat;
  pickerOpen : bool
}.

Definition idle_device : device := Device true true ∅ 0 0 0 0 false.

Definition setStream (s : option nat) (st : state) : state :=
  State s (blob st) (busy st) (error st) (frozenFrame st) (showToast st).

Definition setBlob (b : option string) (st : state) : state :=
  State (stream st) b (busy st) (error st) (frozenFrame st) (showToast st).

Definition setBusy (b : bool) (st : state) : state :=
  State (stream st) (blob st) b (error st) (frozenFrame st) (showToast st).

Definition setError (e : option string) (st : state) : state :=
  State (stream st) (blob st) (busy st) e (frozenFrame st) (showToast st).

Definition setFrozenFrame (f : option string) (st : state) : state :=
  State (stream st) (blob st) (busy st) (error st) f (showToast st).

Definition setShowToast (b : bool) (st : state) : state :=
  State (stream st) (blob st) (busy st) (error st) (frozenFrame st) b.

Definition openPicker (d : device) : device :=
  Device (supportsGetUserMedia d) (isSecure d) (live d) (nextStream d)
    (pendingGetUserMedia d) (pendingPlay d) (pendingReads d) true.

Definition closePicker (d : device) : device :=
  Device (supportsGetUserMedia d) (isSecure d) (live d) (nextStream d)
    (pendingGetUserMedia d) (pendingPlay d) (pendingReads d) false.

Definition setLive (l : gset nat) (d : device) : device :=
  Device (supportsGetUserMedia d) (isSecure d) l (nextStream d)
    (pendingGetUserMedia d) (pendingPlay d) (pendingReads d) (pickerOpen d).

Definition setPending (g p r : nat) (d : device) : device :=
  Device (supportsGetUserMedia d) (isSecure d) (live d) (nextStream d)
    g p r (pickerOpen d).

(** The [<video>] element is rendered, so [videoRef.current] is set,
    while no frame is frozen. *)
Definition videoMounted (st : state) : bool :=
  negb (JS.truthy_opt (frozenFrame st)).

(** [stopCamera]: stop every track of the stream the handler closed
    over, then clear the stream. *)
Definition stopCamera (c : state * device) : state * device :=
  (setStream None c.1,
   match stream c.1 with
   | Some s => setLive (live c.2 ∖ {[s]}) c.2
   | None => c.2
   end).

(** [startCamera] up to [await getUserMedia]. *)
Definition startCamera (c : state * device) : state * device :=
  if negb (supportsGetUserMedia c.2) then
    (setError (Some "Camera API not supported by this browser.") c.1,
     openPicker c.2)
  else if negb (isSecure c.2) then
    (setError
       (Some "Camera requires HTTPS (or localhost). Open this page over HTTPS.")
       c.1, c.2)
  else
    (setError None (setBusy true c.1),
     setPending (S (pendingGetUserMedia c.2)) (pendingPlay c.2)
       (pendingReads c.2) c.2).

(** The end of [startCamera]: clear the old frame, and [finally]. *)
Definition startCameraEnd (st : state) : state :=
  setBusy false (setFrozenFrame None st).

(** [getUserMedia] resolved with a new stream: attach it and await
    [play()] when the video element is mounted, else finish at once. *)
Definition getUserMediaResolved (c : state * device) : state * device :=
  let s := nextStream c.2 in
  let d := Device (supportsGetUserMedia c.2) (isSecure c.2)
             (live c.2 ∪ {[s]}) (S s)
             (pred (pendingGetUserMedia c.2)) (pendingPlay c.2)
             (pendingReads c.2) (pickerOpen c.2) in
  let st := setStream (Some s) c.1 in
  if videoMounted c.1 then
    (st, setPending (pendingGetUserMedia d) (S (pendingPlay d))
           (pendingReads d) d)
  else (startCameraEnd st, d).

Definition playSettled (c : state * device) : state * device :=
  (startCameraEnd c.1,
   setPending (pendingGetUserMedia c.2) (pred (pendingPlay c.2))
     (pendingReads c.2) c.2).

(** [getUserMedia] rejected: the [catch] branch, and [finally]. *)
Definition getUserMediaRejected (c : state * device) : state * device :=
  (setBusy false (setError (Some "Could not access the camera.") c.1),
   openPicker (setPending (pred (pendingGetUserMedia c.2)) (pendingPlay c.2)
                 (pendingReads c.2) c.2)).

(** What [capture] reads from the page and the browser when it runs:
    the frame in the viewfinder, whether the 2d context is available, and
    the data URL the canvas encodes to. *)
Record shot := Shot {
  viewfinder : Capture.frame;
  contextAvailable : bool;
  encoded : string
}.

(** The size of the canvas [capture] draws the frame into. *)
Definition canvasOf (x : shot) : Z * Z := Capture.capturedSize (viewfinder x).

Definition capture (x : shot) (c : state * device) : state * device :=
  if negb (videoMounted c.1) then c
  else if negb (contextAvailable x) then c
  else
    let c' := stopCamera (setFrozenFrame (Some (encoded x)) c.1, c.2) in
    (setShowToast true c'.1, c'.2).

Definition handleRetry (c : state * device) : state * device :=
  startCamera (setFrozenFrame None (setBlob None c.1), c.2).

(** [onFileChange], the handler of the file input: keep the file and start
    reading it ... *)
Definition onFileChange (file : string) (c : state * device)
  : state * device :=
  (setBlob (Some file) c.1,
   closePicker (setPending (pendingGetUserMedia c.2) (pendingPlay c.2)
                  (S (pendingReads c.2)) c.2)).

(** ... and the reader's [onload]. *)
Definition readerLoaded (dataUrl : string) (c : state * device)
  : state * device :=
  (setShowToast true (setFrozenFrame (Some dataUrl) c.1),
   setPending (pendingGetUserMedia c.2) (pendingPlay c.2)
     (pred (pendingReads c.2)) c.2).

(** [stopCamera] as the closure it is: it stops the tracks of the stream
    of the render it was created in, [closedOver]. *)
Definition stopCameraOf (closedOver : option nat) (c : state * device)
  : state * device :=
  (setStream None c.1,
   match closedOver with
   | Some s => setLive (live c.2 ∖ {[s]}) c.2
   | None => c.2
   end).

(** [handleFileUpload], which no element of the page refers to: its
    reader's [onload] also calls [stopCamera], the one of the render in
    which the file was chosen, where the stream was [closedOver]. *)
Definition handleFileUploadLoaded (closedOver : option nat)
  (dataUrl : string) (c : state * device) : state * device :=
  let c' := stopCameraOf closedOver (setFrozenFrame (Some dataUrl) c.1, c.2) in
  (setShowToast true c'.1,
   setPending (pendingGetUserMedia c'.2) (pendingPlay c'.2)
     (pred (pendingReads c'.2)) c'.2).

(** [handleNext]: hand the frozen frame over to the preview page. *)
Definition handleNext (st : state) (w : world) : state * world :=
  if JS.truthy_opt (frozenFrame st) then
    match SessionStorage.setItem "capturedPhoto" (default "" (frozenFrame st))
            (storage w) with
    | Returns s' => (st, navigate (RouterPush "/preview" []) (set_storage s' w))
    | Throws _ =>
        (setError (Some "Failed to save the photo. Please try again.") st,
         console_error "Error storing photo in sessionStorage:" w)
    end
  else (st, w).

Inductive event :=
| ClickTakePhoto
| ClickUpload
| GetUserMediaResolves
| GetUserMediaRejects
| PlaySettles
| FileChosen (file : string)
| PickerDismissed
| ReaderLoads (dataUrl : string)
| ClickCapture (x : shot)
| ClickRetry
| ToastExpires.

(** The controls the page renders and the promises that can settle. *)
Definition enabled (e : event) (c : state * device) : bool :=
  let st := c.1 in
  let overlay := negb (bool_decide (is_Some (stream st)))
                 && negb (JS.truthy_opt (frozenFrame st)) in
  match e with
  | ClickTakePhoto => overlay && negb (busy st)
  | ClickUpload => overlay
  | GetUserMediaResolves | GetUserMediaRejects =>
      bool_decide (0 < pendingGetUserMedia c.2)
  | PlaySettles => bool_decide (0 < pendingPlay c.2)
  | FileChosen _ | PickerDismissed => pickerOpen c.2
  | ReaderLoads _ => bool_decide (0 < pendingReads c.2)
  | ClickCapture _ =>
      negb (JS.truthy_opt (frozenFrame st))
      && bool_decide (is_Some (stream st)) && negb (busy st)
  | ClickRetry => JS.truthy_opt (frozenFrame st)
  | ToastExpires => showToast st
  end.

Definition fire (e : event) (c : state * device) : state * device :=
  match e with
  | ClickTakePhoto => startCamera c
  | ClickUpload => (c.1, openPicker c.2)
  | GetUserMediaResolves => getUserMediaResolved c
  | GetUserMediaRejects => getUserMediaRejected c
  | PlaySettles => playSettled c
  | FileChosen file => onFileChange file c
  | PickerDismissed => (c.1, closePicker c.2)
  | ReaderLoads dataUrl => readerLoaded dataUrl c
  | ClickCapture x => capture x c
  | ClickRetry => handleRetry c
  | ToastExpires => (setShowToast false c.1, c.2)
  end.

Definition step (e : event) (c : state * device) : option (state * device) :=
  if enabled e c then Some (fire e c) else None.

Fixpoint run (es : list event) (c : state * device)
  : option (state * device) :=
  match es with
  | [] => Some c
  | e :: es' =>
      match step e c with
      | Some c' => run es' c'
      | None => None
      end
  end.

Definition reachable (c : state * device) : Prop :=
  ∃ es, run es (initial, idle_device) = Some c.


Definition frozen (c : state * device) : Prop :=
  JS.truthy_opt (frozenFrame c.1) = true.

(** The cleanup of the effect [useEffect(() => { return () => stopCamera(); }, [])].
    With the empty dependency list the effect runs after the first render
    only, so the [stopCamera] it returns closes over the state of that
    render, where [stream] is the initial [null].  The state of the
    unmounted component is gone; what is left is the device. *)
Definition unmountCleanup (c : state * device) : device :=
  (stopCameraOf (stream initial) c).2.

(** An event that delivers the content of a picked file. *)
Definition loadsFile (e : event) : bool :=
  match e with
  | ReaderLoads _ => true
  | _ => false
  end.

(** The streams the page holds: at most one. *)
Definition held (st : state) : gset nat :=
  match stream st with
  | Some s => {[ s ]}
  | None => ∅
  end.

End Camera.

(** ** Upload route and the upload of the older capture page
    (src/unnamed/part_000, src/unnamed/part_003) *)

Module Upload.

(** A JSON value as [res.json()] delivers it and [NextResponse.json]
    serialises it.  The numbers are those written as integer numerals:
    [JNumber n] is the number the numeral [n] is read as, which is the
    double nearest to [n] (and is [n] itself up to 2^53, as for the sizes
    the route reports).  A numeral with a fraction or an exponent is not
    a value of this type. *)
#[warnings="-register-all"]
Inductive json :=
| JNull
| JBool (b : bool)
| JNumber (n : Z)
| JString (s : string)
| JArray (items : list json)
| JObject (fields : list (string * json)).

(** The value of a [FormData] entry: a string or a [File]. *)
Inductive entry :=
| EntryString (s : string)
| EntryFile (f : file).

(** [formData.get(name)]: the first value under the name, or null. *)
Fixpoint formData_get (name : string) (formData : list (string * entry))
  : option entry :=
  match formData with
  | [] => None
  | (k, v) :: rest =>
      if bool_decide (k = name) then Some v else formData_get name rest
  end.

Record jsonResponse := JsonResponse {
  json_status : N;
  json_body : json
}.

(** The route handler [POST], given the form data [req.formData()]
    resolves with. *)
Definition POST (formData : list (string * entry)) : jsonResponse :=
  match formData_get "photo" formData with
  | Some (EntryFile file) =>
      let bytes := file_bytes file in
      JsonResponse 200
        (JObject [("ok", JBool true);
                  ("filename", JString (file_name file));
                  ("size", JNumber (Z.of_nat (String.length bytes)))])
  | _ =>
      JsonResponse 400
        (JObject [("ok", JBool false);
                  ("error", JString "No file received")])
  end.

(** What [fetch] gives [upload]: a response with its status and the value
    [res.json()] parses from its body ([None]: the body is not JSON and
    [json()] rejects), or a rejection. *)
Inductive answered :=
| Answer (status : N) (parsed : option json)
| NoAnswer (reason : thrown).

(** How a call of [upload] ends: it returns, it rejects with what [fetch]
    rejected with, or it rejects with the TypeError of reading a property
    of null. *)
Inductive outcome :=
| Returned
| Rejected (reason : thrown)
| TypeError.

(** The property [name] of a parsed object: the last member of that
    name. *)
Fixpoint member (name : string) (fields : list (string * json))
  : option json :=
  match fields with
  | [] => None
  | (k, v) :: rest =>
      match member name rest with
      | Some later => Some later
      | None => if bool_decide (k = name) then Some v else None
      end
  end.

(** [data.url]: undefined ([Some None]) on a value that has no such
    property, a TypeError ([None]) on null. *)
Definition urlOf (data : json) : option (option json) :=
  match data with
  | JNull => None
  | JObject fields => Some (member "url" fields)
  | _ => Some None
  end.

Definition truthy (v : option json) : bool :=
  match v with
  | None | Some JNull => false
  | Some (JBool b) => b
  | Some (JNumber n) => negb (n =? 0)%Z
  | Some (JString s) => JS.truthy s
  | Some (JArray _) | Some (JObject _) => true
  end.

(** The double the integer numeral [n] is read as: the integer that
    double holds, or [None] when it is an infinity. *)
Definition parsedNumber (n : Z) : option Z :=
  match Capture.number n with
  | S754_zero _ => Some 0%Z
  | S754_finite s m e =>
      let v := if s then Zneg m else Zpos m in
      Some (if 0 <=? e then v * 2 ^ e else v / 2 ^ (- e))%Z
  | _ => None
  end.

(** [Number::toString] looks for integers [n], [k] and [s] with
    [10^(k-1) ≤ s < 10^k] such that [s * 10^(n-k)] is read as the number,
    with [k] as small as possible.  For a positive double [x] that holds
    an integer, the numerals of [k] digits that do are among the two
    multiples of [10^(n-k)] around [x], for [n] the number of digits of
    [x] or one more; [candidates] lists them as the pairs [(s, n)]. *)
Definition candidates (x k : Z) : list (Z * Z) :=
  let d := Z.of_nat (String.length (pretty x)) in
  n ← [d; d + 1]%Z;
  s ← [x / 10 ^ (n - k); x / 10 ^ (n - k) + 1]%Z;
  if bool_decide (0 ≤ n - k ∧ 10 ^ (k - 1) ≤ s < 10 ^ k)%Z
     && bool_decide (parsedNumber (s * 10 ^ (n - k)) = Some x)
  then [(s, n)] else [].

Definition distance (x k : Z) (c : Z * Z) : Z :=
  Z.abs (c.1 * 10 ^ (c.2 - k) - x).

(** Of two candidates the one closer to [x]; of two equally close, the
    even one. *)
Definition closer (x k : Z) (a b : Z * Z) : Z * Z :=
  if (distance x k a <? distance x k b)%Z then a
  else if (distance x k b <? distance x k a)%Z then b
  else if Z.even a.1 then a else b.

Definition closest (x k : Z) (cs : list (Z * Z)) : option (Z * Z) :=
  match cs with
  | [] => None
  | c :: rest => Some (foldl (closer x k) c rest)
  end.

(** The digits [s], their number [k] and the position [n] that
    [Number::toString] chooses for the positive double [x]: the first [k]
    that has a candidate.  Seventeen digits tell any two doubles apart,
    so the search ends before the fuel does. *)
Fixpoint shortest (fuel : nat) (x k : Z) : Z * Z * Z :=
  match fuel with
  | O => (x, Z.of_nat (String.length (pretty x)),
          Z.of_nat (String.length (pretty x)))
  | S fuel' =>
      match closest x k (candidates x k) with
      | Some (s, n) => (s, k, n)
      | None => shortest fuel' x (k + 1)%Z
      end
  end.

Definition zeros (n : Z) : string :=
  string_of_list_ascii (replicate (Z.to_nat n) "0"%char).

(** [String(x)] for the number the integer numeral [n] is read as: the
    digits followed by zeros up to 21 digits, the exponent form beyond. *)
Definition Number_toString (n : Z) : string :=
  match parsedNumber n with
  | None => if (n <? 0)%Z then "-Infinity" else "Infinity"
  | Some Z0 => "0"
  | Some x =>
      let '(s, k, n) := shortest 17 (Z.abs x) 1 in
      (if (x <? 0)%Z then "-" else "")
      +:+ (if (n <=? 21)%Z then pretty s +:+ zeros (n - k)
           else match pretty s with
                | String d rest =>
                    String d (if bool_decide (rest = "") then ""
                              else "." +:+ rest)
                    +:+ "e+" +:+ pretty (n - 1)%Z
                | EmptyString => ""
                end)
  end.

(** The string a template literal puts in for a value. *)
Fixpoint toString (v : json) : string :=
  match v with
  | JNull => "null"
  | JBool b => if b then "true" else "false"
  | JNumber n => Number_toString n
  | JString s => s
  | JArray items =>
      JS.join ","
        ((fix each (l : list json) : list string :=
            match l with
            | [] => []
            | JNull :: rest => "" :: each rest
            | x :: rest => toString x :: each rest
            end) items)
  | JObject _ => "[object Object]"
  end.

Definition newline : string := String "010" "".

(** [upload()] of the older capture page: the requests it sends, the
    alerts it shows and how it ends.  [now] is the reading of
    [Date.now()], [blob] the last photo the page kept. *)
Definition upload (now : Z) (blob : option blob) (net : request → answered)
  : list request * list string * outcome :=
  match blob with
  | None => ([], [], Returned)
  | Some b =>
      let form :=
        [("photo", File (blob_bytes b)
                     ("capture-" +:+ pretty now +:+ ".jpg") (blob_type b))] in
      let req := Request "POST" "/api/upload" form in
      match net req with
      | NoAnswer reason => ([req], [], Rejected reason)
      | Answer status parsed =>
          if negb (bool_decide (200 ≤ status ≤ 299)%N) then
            ([req], ["Upload failed"], Returned)
          else
            let data := default (JObject []) parsed in
            match urlOf data with
            | None => ([req], [], TypeError)
            | Some url =>
                ([req],
                 ["Uploaded ✔"
                  +:+ (if truthy url then
                         newline +:+ "URL: " +:+ toString (default JNull url)
                       else "")],
                 Returned)
            end
      end
  end.

(** A request that reaches the route, and the route's answer as the page
    gets it: the entries of the multipart body are those of the form. *)
Definition answeredByRoute (req : request) : answered :=
  let r := POST ((λ e, (e.1, EntryFile e.2)) <$> form req) in
  Answer (json_status r) (Some (json_body r)).

End Upload.

(** ** The older capture page: what it keeps of a photo
    (src/unnamed/part_003) *)

Module Legacy.

(** A photo is a [Blob]: the encoded canvas, or the picked [File]. *)
Definition photo : Type := blob.

(** React state of the older [CameraCapture]: here [blob] is the photo
    itself, which [upload] sends, and [frozenFrame] an object URL. *)
Record state := State {
  stream : option nat;
  blob : option photo;
  busy : bool;
  error : option string;
  frozenFrame : option string;
  showToast : bool
}.

(** The callback [capture] passes to [canvas.toBlob]: [b] is the encoded
    image or null, [url] what [URL.createObjectURL] returns for it, and
    [closedOver] the stream of the render [capture] ran in, which the
    [stopCamera] of the callback stops.  The second component is the set
    of streams whose tracks are not stopped. *)
Definition toBlobCallback (closedOver : option nat) (b : option photo)
  (url : string) (c : state * gset nat) : state * gset nat :=
  match b with
  | Some image =>
      (State None (Some image) (busy c.1) (error c.1) (Some url) true,
       match closedOver with
       | Some s => c.2 ∖ {[ s ]}
       | None => c.2
       end)
  | None => c
  end.

(** [onFileChange]: [file] is [e.target.files?.[0]]. *)
Definition onFileChange (file : option photo) (url : string)
  (c : state * gset nat) : state * gset nat :=
  match file with
  | Some image =>
      (State (stream c.1) (Some image) (busy c.1) (error c.1) (Some url) true,
       c.2)
  | None => c
  end.

(** The Upload button: [disabled={!blob}]. *)
Definition uploadEnabled (st : state) : bool :=
  bool_decide (is_Some (blob st)).

End Legacy.

(** ** Vocabulary of the specification *)

Module Spec.

(** A data URL is a header, a comma and a data part: the header is the
    text before the first comma, the data part all the text after it. *)
Fixpoint header (url : string) : string :=
  match url with
  | EmptyString => ""
  | String c rest =>
      if bool_decide (c = ","%char) then "" else String c (header rest)
  end.

Fixpoint dataPart (url : string) : option string :=
  match url with
  | EmptyString => None
  | String c rest =>
      if bool_decide (c = ","%char) then Some rest else dataPart rest
  end.

(** The three checks the specification names for the image payload of the
    category selector: an image data-scheme prefix, a base64 marker in the
    header, and a payload that decodes as base64, which is to say that its
    data part does. *)
Definition hasImagePrefix (url : string) : bool :=
  JS.startsWith url "data:image/".

Definition hasBase64Marker (url : string) : bool :=
  JS.includes (header url) ";base64".

Definition decodesAsBase64 (P : platform) (url : string) : bool :=
  match dataPart url with
  | Some data => bool_decide (is_Some (atob P data))
  | None => false
  end.

Definition payloadValid (P : platform) (payload : option string) : bool :=
  match payload with
  | Some url => hasImagePrefix url && hasBase64Marker url && decodesAsBase64 P url
  | None => false
  end.

(** The part of the data the category selector examines: the text between
    the first comma and the next one, or the end of the payload when
    there is no other comma.  It has to be non-empty and to decode. *)
Definition examinedData (url : string) : option string :=
  header <$> dataPart url.

Definition examinedDataDecodes (P : platform) (url : string) : bool :=
  match examinedData url with
  | Some data => JS.truthy data && bool_decide (is_Some (atob P data))
  | None => false
  end.

(** A generate action that was aborted: no navigation, nothing written,
    and the one line [line] logged. *)
Definition aborted (line : string) (w w' : world) : Prop :=
  history w' = history w ∧ storage w' = storage w
  ∧ console w' = console w ++ [line].

(** A string without the separator of the serialised selection. *)
Fixpoint commaFree (s : string) : bool :=
  match s with
  | EmptyString => true
  | String c rest => negb (bool_decide (c = ","%char)) && commaFree rest
  end.

(** The generation calls a handler issues, in order. *)
Definition calls (es : list Controller.effect)
  : list (nat * string * option string) :=
  omap (λ e, match e with
             | Controller.CallGenerate i image tile => Some (i, image, tile)
             | _ => None
             end) es.

(** The requests a handler's calls send, in order. *)
Definition sends (es : list Controller.effect) : list (nat * request) :=
  omap (λ e, match e with
             | Controller.Send i r => Some (i, r)
             | _ => None
             end) es.

(** The designs a handler commits, in order. *)
Definition commits (es : list Controller.effect)
  : list (GeneratedDesign * GeneratedDesign) :=
  omap (λ e, match e with
             | Controller.SetDesigns d => Some d
             | _ => None
             end) es.

(** Every commit of the pair comes after both calls were seen to be
    fulfilled. *)
Fixpoint commitsAfterBoth (seen0 seen1 : bool) (es : list Controller.effect)
  : bool :=
  match es with
  | [] => true
  | Controller.Settled O true :: rest => commitsAfterBoth true seen1 rest
  | Controller.Settled (S _) true :: rest => commitsAfterBoth seen0 true rest
  | Controller.SetDesigns _ :: rest =>
      seen0 && seen1 && commitsAfterBoth seen0 seen1 rest
  | _ :: rest => commitsAfterBoth seen0 seen1 rest
  end.

(** The platform names its errors: no [Error] it rejects with has an
    empty message. *)
Definition named (e : thrown) : Prop :=
  match e with
  | ErrorObject message => message ≠ ""
  | NotAnError => True
  end.

Definition namesItsErrors (net : request → fetched) : Prop :=
  ∀ req, match net req with
         | Rejects reason => named reason
         | Resolves r =>
             match response_body r with
             | BodyFails reason => named reason
             | Body _ _ => True
             end
         end.

End Spec.

(** ** Invariants and sample data used below *)

(** What every reachable state of the preview page satisfies: categories
    can only be selected once the photo is shown, and only from the list. *)
Definition preview_inv (st : Preview.state) : Prop :=
  (JS.truthy_opt (Preview.imageUrl st) = false →
   Preview.selectedCategories st = [])
  ∧ Forall (λ c, c ∈ Preview.designCategories) (Preview.selectedCategories st).

Definition preview_sample_world : world :=
  fresh_world (SessionStorage.mk true false
                 {[ "capturedPhoto" := "data:image/jpeg;base64,aGVsbG8=" ]}).

Definition compare_sample_world : world :=
  fresh_world (SessionStorage.mk true false {[ "designPhoto" := "hello" ]}).

Definition unavailable : request → fetched :=
  λ _, Resolves (Response 500 (Body "text/plain" "model unavailable")).

Definition sample_photo : string := "data:image/jpeg;base64,aGVsbG8=".

Definition compare_sample_state : Compare.state :=
  Compare.State (Some sample_photo) false None None ["floor"] None true.

Definition delivers : request → fetched :=
  λ _, Resolves (Response 200 (Body "image/png" "PNG")).

(** A media type that the header of a data URL carries as it is: no
    comma, semicolon or line terminator. *)
Definition plainType (t : string) : bool :=
  forallb (λ c, negb (bool_decide (N_of_ascii c ∈ [44; 59; 10; 13]%N)))
    (list_ascii_of_string t).

(** The tests of [handleGenerateDesign] on the photo, together. *)
Definition photoAccepted (P : platform) (photo : string) : bool :=
  JS.startsWith photo "data:image/"
  && JS.includes (default "" (JS.split "," photo !! 0%nat)) ";base64"
  && match JS.split "," photo !! 1%nat with
     | Some base64Data =>
         JS.truthy base64Data && bool_decide (is_Some (atob P base64Data))
     | None => false
     end.

(** What every reachable state of the preview page satisfies, besides
    [preview_inv]: the selection has no duplicates. *)
Definition selection_inv (st : Preview.state) : Prop :=
  NoDup (Preview.selectedCategories st)
  ∧ Preview.selectedCategories st ⊆ Preview.designCategories
  ∧ (JS.truthy_opt (Preview.imageUrl st) = false →
     Preview.selectedCategories st = []).

(** The capture page as long as no picked file is loaded: the live
    streams are the one the page holds, at most one [getUserMedia] or
    [play] is pending and only while the page is busy, and a frame is
    frozen only with the camera released. *)
Definition camera_inv (c : Camera.state * Camera.device) : Prop :=
  Camera.live c.2 = Camera.held c.1
  ∧ (Camera.busy c.1 = false →
     Camera.pendingGetUserMedia c.2 = 0%nat ∧ Camera.pendingPlay c.2 = 0%nat)
  ∧ (Camera.pendingGetUserMedia c.2 + Camera.pendingPlay c.2 ≤ 1)%nat
  ∧ ((0 < Camera.pendingGetUserMedia c.2)%nat → Camera.stream c.1 = None)
  ∧ (Camera.busy c.1 = true →
     JS.truthy_opt (Camera.frozenFrame c.1) = false)
  ∧ (Camera.frozen c → Camera.stream c.1 = None).

(** A device on which [startCamera] gives up before [getUserMedia]. *)
Definition cameraUnusable (d : Camera.device) : Prop :=
  Camera.supportsGetUserMedia d = false ∨ Camera.isSecure d = false.

(** The capture page on such a device: nothing of the camera is in use. *)
Definition unusable_inv (c : Camera.state * Camera.device) : Prop :=
  cameraUnusable c.2
  ∧ Camera.stream c.1 = None ∧ Camera.busy c.1 = false
  ∧ Camera.live c.2 = ∅
  ∧ Camera.pendingGetUserMedia c.2 = 0%nat ∧ Camera.pendingPlay c.2 = 0%nat.


(** * Properties *)

(** ** The reference platform computes *)

Example base64_decode_sample : Base64.decode "aGVsbG8=" = Some "hello".
Proof. vm_compute. reflexivity. Qed.

Example base64_encode_sample : Base64.encode "hello" = "aGVsbG8=".
Proof. vm_compute. reflexivity. Qed.

Example base64_decode_forgiving :
  Base64.decode "a" = None ∧ Base64.decode "ab!d" = None
  ∧ Base64.decode " YWI " = Some "ab".
Proof. vm_compute. auto. Qed.

(** ** Strings and sets *)

Lemma truthy_true (s : string) : JS.truthy s = true ↔ s ≠ "".
Proof. unfold JS.truthy. by rewrite bool_decide_eq_true. Qed.

Lemma truthy_opt_true (o : option string) :
  JS.truthy_opt o = true ↔ ∃ s, o = Some s ∧ s ≠ "".
Proof.
  destruct o as [s|]; simpl.
  - rewrite truthy_true. split; [eauto|]. by intros (? & [= <-] & ?).
  - split; [done|]. by intros (? & ? & ?).
Qed.

Lemma set_has_true (x : string) (s : list string) :
  JS.set_has x s = true ↔ x ∈ s.
Proof. unfold JS.set_has. by rewrite bool_decide_eq_true. Qed.

Lemma set_has_false (x : string) (s : list string) :
  JS.set_has x s = false ↔ x ∉ s.
Proof. unfold JS.set_has. by rewrite bool_decide_eq_false. Qed.

Lemma set_delete_absent (x : string) (s : list string) :
  x ∉ s → JS.set_delete x s = s.
Proof.
  unfold JS.set_delete. induction s as [|y s IH]; intros Hx; [done|].
  apply not_elem_of_cons in Hx as [Hxy Hs].
  rewrite filter_cons_True by congruence. by rewrite IH.
Qed.

Lemma set_delete_elem (x y : string) (s : list string) :
  y ∈ JS.set_delete x s ↔ y ∈ s ∧ y ≠ x.
Proof. unfold JS.set_delete. rewrite list_elem_of_filter. tauto. Qed.

Lemma set_delete_NoDup (x : string) (s : list string) :
  NoDup s → NoDup (JS.set_delete x s).
Proof. apply NoDup_filter. Qed.

Lemma set_delete_add_perm (x : string) (s : list string) :
  NoDup s → x ∈ s → JS.set_delete x s ++ [x] ≡ₚ s.
Proof.
  unfold JS.set_delete. induction s as [|y s IH]; intros Hnd Hx.
  - by apply elem_of_nil in Hx.
  - apply NoDup_cons in Hnd as [Hy Hnd].
    destruct (decide (y = x)) as [->|Hne].
    + rewrite filter_cons_False by (intros ?; congruence).
      fold (JS.set_delete x s). rewrite set_delete_absent by done.
      by rewrite Permutation_app_comm.
    + rewrite filter_cons_True by done. simpl.
      apply Permutation_skip, IH; [done|].
      apply elem_of_cons in Hx as [?|?]; [congruence|done].
Qed.

Lemma toggle_present (c : string) (s : list string) :
  c ∈ s → Preview.toggleCategory c s = JS.set_delete c s.
Proof.
  intros Hc. unfold Preview.toggleCategory.
  by rewrite (proj2 (set_has_true c s) Hc).
Qed.

Lemma toggle_absent (c : string) (s : list string) :
  c ∉ s → Preview.toggleCategory c s = s ++ [c].
Proof.
  intros Hc. unfold Preview.toggleCategory, JS.set_add.
  by rewrite (proj2 (set_has_false c s) Hc).
Qed.

Lemma toggle_flips (c : string) (s : list string) :
  c ∈ Preview.toggleCategory c s ↔ c ∉ s.
Proof.
  destruct (decide (c ∈ s)) as [Hc|Hc].
  - rewrite toggle_present, set_delete_elem by done. tauto.
  - rewrite toggle_absent, elem_of_app, list_elem_of_singleton by done. tauto.
Qed.

Lemma toggle_others (c x : string) (s : list string) :
  x ≠ c → x ∈ Preview.toggleCategory c s ↔ x ∈ s.
Proof.
  intros Hx. destruct (decide (c ∈ s)) as [Hc|Hc].
  - rewrite toggle_present, set_delete_elem by done. tauto.
  - rewrite toggle_absent, elem_of_app, list_elem_of_singleton by done. tauto.
Qed.

Lemma toggle_NoDup (c : string) (s : list string) :
  NoDup s → NoDup (Preview.toggleCategory c s).
Proof.
  intros Hnd. destruct (decide (c ∈ s)) as [Hc|Hc].
  - rewrite toggle_present by done. by apply set_delete_NoDup.
  - rewrite toggle_absent by done. apply NoDup_app. split_and!; [done| |apply NoDup_singleton].
    intros x Hx ->%list_elem_of_singleton. done.
Qed.

Lemma toggle_twice_perm (c : string) (s : list string) :
  NoDup s → Preview.toggleCategory c (Preview.toggleCategory c s) ≡ₚ s.
Proof.
  intros Hnd. destruct (decide (c ∈ s)) as [Hc|Hc].
  - rewrite (toggle_present c s) by done.
    rewrite toggle_absent by (rewrite set_delete_elem; tauto).
    by apply set_delete_add_perm.
  - rewrite (toggle_absent c s) by done.
    rewrite toggle_present by (rewrite elem_of_app, list_elem_of_singleton; tauto).
    unfold JS.set_delete. rewrite filter_app.
    fold (JS.set_delete c s). rewrite set_delete_absent by done.
    rewrite filter_cons_False by (intros ?; congruence). simpl. by rewrite app_nil_r.
Qed.

(** C9: toggling a category twice gives back the same selection set, and
    one toggle flips the membership of that category only, keeping the
    members distinct. *)
Theorem C9_toggle_involution (S : list string) (c : string) :
  NoDup S →
  let T := Preview.toggleCategory c S in
  let S' := Preview.toggleCategory c T in
  list_to_set S' =@{gset string} list_to_set S
  ∧ S' ≡ₚ S
  ∧ (c ∈ T ↔ c ∉ S)
  ∧ (∀ x, x ≠ c → x ∈ T ↔ x ∈ S)
  ∧ NoDup T ∧ NoDup S'.
Proof.
  intros Hnd T S'.
  pose proof (toggle_twice_perm c S Hnd) as Hp.
  split_and!.
  - apply set_eq. intros x. rewrite !elem_of_list_to_set.
    subst S' T. by rewrite Hp.
  - done.
  - apply toggle_flips.
  - intros x Hx. by apply toggle_others.
  - by apply toggle_NoDup.
  - by do 2 apply toggle_NoDup.
Qed.

Lemma C9_toggle_involution_witness :
  let S := ["floor"; "decor"] in
  NoDup S
  ∧ Preview.toggleCategory "floor" S = ["decor"]
  ∧ Preview.toggleCategory "floor" (Preview.toggleCategory "floor" S)
    ≡ₚ S.
Proof.
  assert (H : NoDup ["floor"; "decor"]).
  { repeat (apply NoDup_cons; split); [|by intros ?%elem_of_nil |apply NoDup_nil_2].
    by intros [=]%list_elem_of_singleton. }
  split; [exact H|]. split; [reflexivity|].
  exact (proj1 (proj2 (C9_toggle_involution ["floor"; "decor"] "floor" H))).
Defined.

(** ** Serialising the selection *)

Lemma split_nonempty (sep : ascii) (s : string) : JS.split sep s ≠ [].
Proof. destruct s as [|c r]; simpl; [done|]. case_bool_decide; [done|]. by destruct (JS.split sep r). Qed.

Lemma split_commaFree (x : string) :
  Spec.commaFree x = true → JS.split "," x = [x].
Proof.
  induction x as [|c x IH]; simpl; [done|].
  intros [Hc Hx]%andb_true_iff. apply negb_true_iff in Hc. rewrite Hc.
  by rewrite IH.
Qed.

Lemma split_append_comma (x rest : string) :
  Spec.commaFree x = true →
  JS.split "," (x +:+ "," +:+ rest) = x :: JS.split "," rest.
Proof.
  induction x as [|c x IH].
  - intros _. reflexivity.
  - intros [Hc Hx]%andb_true_iff. apply negb_true_iff in Hc.
    change (JS.split "," (String c x +:+ "," +:+ rest))
      with (if bool_decide (c = ","%char) then "" :: JS.split "," (x +:+ "," +:+ rest)
            else match JS.split "," (x +:+ "," +:+ rest) with
                 | h :: t => String c h :: t
                 | [] => [String c ""]
                 end).
    by rewrite Hc, IH.
Qed.

Lemma split_join (l : list string) :
  l ≠ [] → Forall (λ x, Spec.commaFree x = true) l →
  JS.split "," (JS.join "," l) = l.
Proof.
  induction l as [|x l IH]; [done|]. intros _ Hall.
  apply Forall_cons in Hall as [Hx Hl]. destruct l as [|y l].
  - simpl. by apply split_commaFree.
  - change (JS.join "," (x :: y :: l)) with (x +:+ "," +:+ JS.join "," (y :: l)).
    rewrite split_append_comma by done. by rewrite IH.
Qed.

Lemma join_nonempty (l : list string) :
  l ≠ [] → Forall (λ x, x ≠ "") l → JS.join "," l ≠ "".
Proof.
  destruct l as [|x l]; [done|]. intros _ [Hx _]%Forall_cons.
  destruct l; [done|]. destruct x; [done|].
  change (JS.join "," (String a x :: s :: l))
    with (String a (x +:+ "," +:+ JS.join "," (s :: l))). done.
Qed.

Lemma designCategories_wellformed (c : string) :
  c ∈ Preview.designCategories → Spec.commaFree c = true ∧ c ≠ "".
Proof.
  unfold Preview.designCategories. intros H.
  repeat (apply elem_of_cons in H as [->|H]; [by split|]).
  by apply elem_of_nil in H.
Qed.

(** ** The category selector *)

Lemma toggle_Forall (Q : string → Prop) (c : string) (s : list string) :
  Q c → Forall Q s → Forall Q (Preview.toggleCategory c s).
Proof.
  intros Hc Hs. apply Forall_forall. intros x Hx.
  destruct (decide (x = c)) as [->|Hne]; [done|].
  apply toggle_others in Hx; [|done]. by eapply Forall_forall in Hs.
Qed.

Lemma preview_inv_step (P : platform) (e : Preview.event)
  (c c' : Preview.state * world) :
  preview_inv c.1 → Preview.step P e c = Some c' → preview_inv c'.1.
Proof.
  destruct c as [[url sel m] w]. unfold Preview.step. simpl.
  intros [Hurl Hsel] Hstep.
  destruct (Preview.enabled e _) eqn:Hen; [|done].
  injection Hstep as <-. destruct e; simpl in *.
  - done.
  - unfold Preview.loadPhoto. simpl. destruct m; [|done].
    destruct (SessionStorage.getItem _ _) as [photo|]; [|done].
    destruct (JS.truthy_opt photo) eqn:Hphoto; [|done].
    destruct (SessionStorage.removeItem _ _); simpl;
      (split; [intros Hf; simpl in Hf; congruence|done]).
  - apply andb_true_iff in Hen as [Hshown Hin].
    apply bool_decide_eq_true in Hin. unfold Preview.categoryButtonsShown in Hshown.
    simpl in Hshown. split; [intros Hf; simpl in Hf; congruence|].
    by apply toggle_Forall.
  - done.
  - done.
Qed.

Lemma preview_inv_run (P : platform) (es : list Preview.event)
  (c c' : Preview.state * world) :
  preview_inv c.1 → Preview.run P es c = Some c' → preview_inv c'.1.
Proof.
  revert c. induction es as [|e es IH]; simpl; intros c Hinv Hrun.
  - by injection Hrun as <-.
  - destruct (Preview.step P e c) as [c1|] eqn:Hstep; [|done].
    eauto using preview_inv_step.
Qed.

Lemma preview_inv_reachable (P : platform) (c : Preview.state * world) :
  Preview.reachable P c → preview_inv c.1.
Proof.
  intros (es & w0 & Hrun). eapply preview_inv_run; [|exact Hrun].
  by split; [|apply Forall_nil].
Qed.

(** The parts [imageUrl.split(',')] gives [handleGenerateDesign] are the
    header and the examined data of the payload. *)
Lemma split_parts (url : string) :
  JS.split "," url !! 0%nat = Some (Spec.header url)
  ∧ JS.split "," url !! 1%nat = Spec.examinedData url.
Proof.
  unfold Spec.examinedData.
  induction url as [|c rest [IH0 IH1]]; simpl; [done|].
  case_bool_decide; simpl.
  - split; [done|]. by rewrite IH0.
  - destruct (JS.split "," rest) as [|h t]; [done|].
    simpl in *. by injection IH0 as ->.
Qed.

Lemma header_commaFree (s : string) :
  Spec.commaFree s = true → Spec.header s = s.
Proof.
  induction s as [|c rest IH]; simpl; [done|].
  case_bool_decide; simpl; [done|]. intros Hrest. by rewrite IH.
Qed.

(** A data part without a comma is examined whole. *)
Lemma examinedData_whole (url data : string) :
  Spec.dataPart url = Some data → Spec.commaFree data = true →
  Spec.examinedData url = Some data.
Proof.
  unfold Spec.examinedData. intros -> Hfree. simpl.
  by rewrite header_commaFree.
Qed.

Lemma photoAccepted_checks (P : platform) (url : string) :
  photoAccepted P url
  = Spec.hasImagePrefix url && Spec.hasBase64Marker url
    && Spec.examinedDataDecodes P url.
Proof.
  unfold photoAccepted, Spec.hasImagePrefix, Spec.hasBase64Marker,
    Spec.examinedDataDecodes.
  destruct (split_parts url) as [-> ->]. done.
Qed.

Lemma prepareDesign_target (P : platform) (url : string) (sel : list string)
  (s s' : SessionStorage.t) (n : navigation) :
  Preview.prepareDesign P url sel s = inr (s', n) →
  n = RouterPush "/compare" [("categories", JS.join "," sel)]
  ∧ SessionStorage.setItem "designPhoto" url s = Returns s'
  ∧ photoAccepted P url = true.
Proof.
  unfold Preview.prepareDesign, photoAccepted.
  destruct (JS.startsWith url _); simpl; [|done].
  destruct (JS.includes _ _); simpl; [|done].
  destruct (JS.split "," url !! 1%nat) as [data|]; simpl; [|done].
  destruct (JS.truthy data); simpl; [|done].
  destruct (atob P data) eqn:Hdec; [|done].
  destruct (SessionStorage.setItem _ _ _); [|done].
  intros [= <- <-]. split_and!; [done..|].
  apply bool_decide_eq_true. eauto.
Qed.

(** What [handleGenerateDesign] does with a payload by the first check
    that fails. *)
Lemma prepareDesign_refusals (P : platform) (url : string)
  (sel : list string) (s : SessionStorage.t) :
  (Spec.hasImagePrefix url = false →
   Preview.prepareDesign P url sel s = inl "Invalid image format")
  ∧ (Spec.hasImagePrefix url = true →
     Spec.hasBase64Marker url = false
     ∨ JS.truthy_opt (Spec.examinedData url) = false →
     Preview.prepareDesign P url sel s = inl "Invalid image data format")
  ∧ (Spec.hasImagePrefix url = true →
     Spec.hasBase64Marker url = true →
     ∀ data, Spec.examinedData url = Some data → data ≠ "" →
             atob P data = None →
             Preview.prepareDesign P url sel s
             = inl "Invalid base64 image data").
Proof.
  unfold Preview.prepareDesign, Spec.hasImagePrefix, Spec.hasBase64Marker.
  destruct (split_parts url) as [-> ->]. simpl.
  split_and!.
  - by intros ->.
  - intros -> [-> | ->]; simpl; [done|].
    by rewrite orb_true_r.
  - intros -> -> data -> Hne Hdec. simpl.
    rewrite (proj2 (truthy_true data) Hne). simpl. by rewrite Hdec.
Qed.

Lemma compare_init_categories (categories : option string)
  (st : Compare.state) (w : world) :
  Compare.originalPhoto st = None →
  Compare.originalPhoto (Compare.init categories st w).1 ≠ None →
  JS.truthy_opt categories = true
  ∧ Compare.selectedCategories (Compare.init categories st w).1
    = JS.split "," (default "" categories).
Proof.
  intros Hnone. unfold Compare.init.
  destruct (Compare.isMounted st); simpl; [|done].
  destruct (JS.truthy_opt categories); simpl; [|done].
  destruct (SessionStorage.getItem _ _) as [photo|]; simpl; [|done].
  destruct (JS.truthy_opt photo); simpl; [|done].
  destruct (JS.startsWith _ _); simpl; [|done].
  by destruct (SessionStorage.removeItem _ _).
Qed.

(** C7: in every reachable state of the category selector the generate
    button is offered exactly when the selection is non-empty; and when
    the action navigates to the compare page, the selection it transfers
    is non-empty and is the selection the compare page works with. *)
Theorem C7_generate_iff_selection_nonempty (P : platform)
  (c : Preview.state * world) :
  Preview.reachable P c →
  (Preview.enabled Preview.Generate c.1 = true
   ↔ Preview.selectedCategories c.1 ≠ [])
  ∧ ∀ c' n,
      Preview.step P Preview.Generate c = Some c' →
      history c'.2 = history c.2 ++ [n] →
      ∃ p, n = RouterPush "/compare" [("categories", p)]
           ∧ JS.truthy p = true
           ∧ JS.split "," p = Preview.selectedCategories c.1
           ∧ Preview.selectedCategories c.1 ≠ []
           ∧ ∀ st w,
               Compare.originalPhoto st = None →
               Compare.originalPhoto (Compare.init (Some p) st w).1 ≠ None →
               Compare.selectedCategories (Compare.init (Some p) st w).1
               = Preview.selectedCategories c.1.
Proof.
  intros Hreach. destruct (preview_inv_reachable P c Hreach) as [Hurl Hsel].
  destruct c as [[url sel m] w]. simpl in *.
  assert (Hen : Preview.generateButtonShown (Preview.State url sel m) = true
                ↔ sel ≠ []).
  { unfold Preview.generateButtonShown, JS.set_size. simpl.
    rewrite andb_true_iff, bool_decide_eq_true. split.
    - intros [_ Hlen] ->. simpl in Hlen. lia.
    - intros Hne. split.
      + destruct (JS.truthy_opt url); [done|]. by specialize (Hurl eq_refl).
      + destruct sel; [done|simpl; lia]. }
  split; [exact Hen|].
  intros c' n Hstep Hhist. unfold Preview.step in Hstep. simpl in Hstep.
  destruct (Preview.generateButtonShown _) eqn:Hshown; [|done].
  injection Hstep as <-. simpl in Hhist.
  pose proof (proj1 Hen eq_refl) as Hne.
  unfold Preview.handleGenerateDesign in Hhist. simpl in Hhist.
  destruct (JS.truthy_opt url); simpl in Hhist.
  2:{ apply (f_equal length) in Hhist. rewrite length_app in Hhist. simpl in Hhist. lia. }
  destruct (Preview.prepareDesign P _ sel _) as [msg|[s' target]] eqn:Hprep;
    simpl in Hhist.
  { apply (f_equal length) in Hhist. rewrite length_app in Hhist. simpl in Hhist. lia. }
  apply app_inv_head in Hhist. injection Hhist as ->.
  apply prepareDesign_target in Hprep as (-> & _ & _).
  assert (Hfree : Forall (λ x, Spec.commaFree x = true) sel).
  { eapply Forall_impl; [exact Hsel|]. intros x Hx. by apply designCategories_wellformed. }
  assert (Hnonempty : Forall (λ x, x ≠ "") sel).
  { eapply Forall_impl; [exact Hsel|]. intros x Hx. by apply designCategories_wellformed. }
  exists (JS.join "," sel). split_and!; [done| | |done|].
  - apply truthy_true. by apply join_nonempty.
  - by apply split_join.
  - intros st w0 Hnone Hsome.
    destruct (compare_init_categories _ st w0 Hnone Hsome) as [_ ->].
    simpl. by apply split_join.
Qed.

Lemma C7_generate_iff_selection_nonempty_witness :
  ∃ c, Preview.run Base64.browser
         [Preview.Mount; Preview.LoadPhoto; Preview.Toggle "floor"]
         (Preview.initial, preview_sample_world) = Some c
       ∧ Preview.selectedCategories c.1 = ["floor"]
       ∧ (Preview.enabled Preview.Generate c.1 = true
          ↔ Preview.selectedCategories c.1 ≠ []).
Proof.
  eexists. split; [vm_compute; reflexivity|]. split; [reflexivity|].
  refine (proj1 (C7_generate_iff_selection_nonempty Base64.browser _ _)).
  exists [Preview.Mount; Preview.LoadPhoto; Preview.Toggle "floor"],
    preview_sample_world.
  vm_compute. reflexivity.
Defined.

(** C8, as the sources have it: the generate action navigates (and
    writes the photo to session storage) only for a payload that has the
    image data-scheme prefix, a base64 marker in its header, and, between
    its first comma and the next one (or its end), a non-empty text that
    decodes as base64.  A payload failing one of these checks is refused:
    nothing is written, no navigation happens, and the line logged names
    the first check that failed ([No image URL available] when there is
    no payload); a payload whose data part has no comma is refused
    whenever it fails one of the three checks of the specification.  The
    page state is left as it was. *)
Theorem C8_validation_gate (P : platform) (st : Preview.state) (w : world) :
  let w' := Preview.handleGenerateDesign P st w in
  (history w' ≠ history w ∨ storage w' ≠ storage w →
   ∃ url, Preview.imageUrl st = Some url
          ∧ Spec.hasImagePrefix url = true
          ∧ Spec.hasBase64Marker url = true
          ∧ Spec.examinedDataDecodes P url = true)
  ∧ (JS.truthy_opt (Preview.imageUrl st) = false →
     Spec.aborted "No image URL available" w w')
  ∧ (∀ url,
       Preview.imageUrl st = Some url → url ≠ "" →
       (Spec.hasImagePrefix url = false →
        Spec.aborted "Error preparing image: Invalid image format" w w')
       ∧ (Spec.hasImagePrefix url = true →
          Spec.hasBase64Marker url = false
          ∨ JS.truthy_opt (Spec.examinedData url) = false →
          Spec.aborted "Error preparing image: Invalid image data format"
            w w')
       ∧ (Spec.hasImagePrefix url = true →
          Spec.hasBase64Marker url = true →
          ∀ data, Spec.examinedData url = Some data → data ≠ "" →
                  atob P data = None →
                  Spec.aborted
                    "Error preparing image: Invalid base64 image data" w w')
       ∧ (Spec.hasImagePrefix url && Spec.hasBase64Marker url
          && Spec.examinedDataDecodes P url = false →
          ∃ line, Spec.aborted line w w'
                  ∧ line ∈ ["Error preparing image: Invalid image format";
                            "Error preparing image: Invalid image data format";
                            "Error preparing image: Invalid base64 image data"])
       ∧ (∀ data, Spec.dataPart url = Some data →
                  Spec.commaFree data = true →
                  Spec.payloadValid P (Some url) = false →
                  ∃ line, Spec.aborted line w w'))
  ∧ (Preview.fire P Preview.Generate (st, w)).1 = st.
Proof.
  intros w'. split_and!; [| | |done].
  - intros Hchanged. subst w'. unfold Preview.handleGenerateDesign in Hchanged.
    destruct (Preview.imageUrl st) as [url|]; simpl in Hchanged.
    2:{ by destruct Hchanged. }
    destruct (JS.truthy url); simpl in Hchanged.
    2:{ by destruct Hchanged. }
    destruct (Preview.prepareDesign P url _ _) as [msg|[s' n]] eqn:Hprep.
    { by destruct Hchanged. }
    apply prepareDesign_target in Hprep as (_ & _ & Hok).
    rewrite photoAccepted_checks in Hok.
    apply andb_true_iff in Hok as [[? ?]%andb_true_iff ?].
    by exists url.
  - subst w'. unfold Preview.handleGenerateDesign. by intros ->.
  - intros url Hurl Hne.
    assert (Hrefused : ∀ message,
              Preview.prepareDesign P url (Preview.selectedCategories st)
                (storage w) = inl message →
              Spec.aborted ("Error preparing image: " +:+ message) w w').
    { intros message Hprep. subst w'. unfold Preview.handleGenerateDesign.
      rewrite Hurl. simpl. rewrite (proj2 (truthy_true url) Hne). simpl.
      by rewrite Hprep. }
    destruct (prepareDesign_refusals P url (Preview.selectedCategories st)
                (storage w)) as (Hformat & Hdata & Hdecode).
    assert (Hany : Spec.hasImagePrefix url && Spec.hasBase64Marker url
                   && Spec.examinedDataDecodes P url = false →
                   ∃ line, Spec.aborted line w w'
                  ∧ line ∈ ["Error preparing image: Invalid image format";
                            "Error preparing image: Invalid image data format";
                            "Error preparing image: Invalid base64 image data"]).
    { intros Hfails.
      destruct (Spec.hasImagePrefix url) eqn:Hprefix.
      2:{ eexists. split; [exact (Hrefused _ (Hformat eq_refl))|].
          apply elem_of_cons. by left. }
      destruct (Spec.hasBase64Marker url) eqn:Hmarker.
      2:{ eexists. split; [exact (Hrefused _ (Hdata eq_refl (or_introl eq_refl)))|].
          apply elem_of_cons. right. apply elem_of_cons. by left. }
      simpl in Hfails. unfold Spec.examinedDataDecodes in Hfails.
      destruct (Spec.examinedData url) as [data|] eqn:Hex.
      2:{ eexists. split; [exact (Hrefused _ (Hdata eq_refl (or_intror eq_refl)))|].
          apply elem_of_cons. right. apply elem_of_cons. by left. }
      destruct (JS.truthy data) eqn:Htruthy.
      2:{ eexists.
          split; [exact (Hrefused _ (Hdata eq_refl (or_intror Htruthy)))|].
          apply elem_of_cons. right. apply elem_of_cons. by left. }
      simpl in Hfails. apply bool_decide_eq_false in Hfails.
      destruct (atob P data) as [decoded|] eqn:Hdec.
      { exfalso. apply Hfails. by eexists. }
      apply truthy_true in Htruthy.
      eexists. split; [exact (Hrefused _ (Hdecode eq_refl eq_refl data eq_refl
                                            Htruthy Hdec))|].
      apply elem_of_cons. right. apply elem_of_cons. right.
      apply elem_of_cons. by left. }
    split_and!.
    + intros Hprefix. exact (Hrefused _ (Hformat Hprefix)).
    + intros Hprefix Hbad. exact (Hrefused _ (Hdata Hprefix Hbad)).
    + intros Hprefix Hmarker data Hex Hdata' Hdec.
      exact (Hrefused _ (Hdecode Hprefix Hmarker data Hex Hdata' Hdec)).
    + exact Hany.
    + intros data Hpart Hfree Hinvalid.
      destruct (Spec.hasImagePrefix url && Spec.hasBase64Marker url
                && Spec.examinedDataDecodes P url) eqn:Hchecks.
      2:{ destruct (Hany eq_refl) as (line & Hline & _). by exists line. }
      exfalso. simpl in Hinvalid.
      apply andb_true_iff in Hchecks as [Hfirst Hdecodes].
      rewrite Hfirst in Hinvalid. simpl in Hinvalid.
      unfold Spec.decodesAsBase64 in Hinvalid.
      unfold Spec.examinedDataDecodes in Hdecodes.
      rewrite (examinedData_whole url data Hpart Hfree) in Hdecodes.
      rewrite Hpart in Hinvalid.
      apply andb_true_iff in Hdecodes as [_ Hdecodes]. congruence.
Qed.

(** C8 as stated fails for a payload with text after a second comma:
    its data part, which is all the text after the first comma, does not
    decode as base64, yet the payload is stored and the page navigates. *)
Lemma C8_trailing_text_counterexample :
  let url := "data:image/png;base64,aGVsbG8=,@@@" in
  let st := Preview.State (Some url) ["floor"] true in
  let w' := Preview.handleGenerateDesign Base64.browser st
              (fresh_world SessionStorage.empty) in
  Spec.dataPart url = Some "aGVsbG8=,@@@"
  ∧ atob Base64.browser "aGVsbG8=,@@@" = None
  ∧ Spec.payloadValid Base64.browser (Preview.imageUrl st) = false
  ∧ history w' = [RouterPush "/compare" [("categories", "floor")]]
  ∧ SessionStorage.items (storage w') !! "designPhoto" = Some url
  ∧ console w' = [].
Proof. vm_compute. done. Qed.

(** ** Session transfer *)

Lemma takeOnce_after_put (k v : string) (s s1 : SessionStorage.t) :
  SessionTransfer.put k v s = Returns s1 →
  SessionStorage.available s1 = true
  ∧ SessionStorage.items s1 !! k = Some v.
Proof.
  unfold SessionTransfer.put, SessionStorage.setItem.
  destruct (SessionStorage.available s); simpl; [|done].
  destruct (SessionStorage.full s); [done|].
  intros [= <-]. simpl. by rewrite lookup_insert_eq.
Qed.

Lemma loadPhoto_takeOnce (st : Preview.state) (w : world) :
  Preview.isMounted st = true →
  let r := SessionTransfer.takeOnce "capturedPhoto" (storage w) in
  let c := Preview.loadPhoto st w in
  storage c.2 = r.2
  ∧ match r.1 with
    | Some v => Preview.imageUrl c.1 = Some v ∧ history c.2 = history w
    | None => c.1 = st ∧ history c.2 = history w ++ [RouterReplace "/"]
    end.
Proof.
  intros Hm. unfold Preview.loadPhoto, SessionTransfer.takeOnce. rewrite Hm.
  unfold SessionStorage.getItem, SessionStorage.removeItem.
  destruct (SessionStorage.available (storage w)); simpl; [|done].
  destruct (SessionStorage.items (storage w) !! "capturedPhoto") as [v|];
    simpl; [|done].
  by destruct (JS.truthy v).
Qed.

Lemma compareInit_takeOnceImage (categories : option string)
  (st : Compare.state) (w : world) :
  Compare.isMounted st = true → JS.truthy_opt categories = true →
  let r := SessionTransfer.takeOnceImage "designPhoto" (storage w) in
  let c := Compare.init categories st w in
  storage c.2 = r.2
  ∧ match r.1 with
    | Some v => Compare.originalPhoto c.1 = Some v ∧ history c.2 = history w
    | None => Compare.originalPhoto c.1 = Compare.originalPhoto st
              ∧ history c.2 = history w ++ [RouterReplace "/"]
    end.
Proof.
  intros Hm Hc. unfold Compare.init, SessionTransfer.takeOnceImage.
  rewrite Hm, Hc. simpl.
  unfold SessionStorage.getItem, SessionStorage.removeItem.
  destruct (SessionStorage.available (storage w)); simpl; [|done].
  destruct (SessionStorage.items (storage w) !! "designPhoto") as [v|];
    simpl; [|done].
  destruct (JS.truthy v); simpl; [|done].
  by destruct (JS.startsWith v _).
Qed.

(** The two hand-overs of the flow: what a page puts, the next page
    takes once. *)
Lemma handover_capture_to_preview (st : Camera.state) (w : world)
  (pst : Preview.state) :
  let c := Camera.handleNext st w in
  history c.2 = history w ++ [RouterPush "/preview" []] →
  Preview.isMounted pst = true →
  let p := Preview.loadPhoto pst c.2 in
  Preview.imageUrl p.1 = Camera.frozenFrame st
  ∧ SessionStorage.items (storage p.2) !! "capturedPhoto" = None
  ∧ history p.2 = history c.2
  ∧ history (Preview.loadPhoto p.1 p.2).2
    = history p.2 ++ [RouterReplace "/"].
Proof.
  intros c Hnav Hm p. subst c p. unfold Camera.handleNext in *.
  destruct (Camera.frozenFrame st) as [frame|] eqn:Hframe; simpl in *.
  2:{ apply (f_equal length) in Hnav. rewrite length_app in Hnav. simpl in Hnav. lia. }
  destruct (JS.truthy frame) eqn:Ht; simpl in *.
  2:{ apply (f_equal length) in Hnav. rewrite length_app in Hnav. simpl in Hnav. lia. }
  unfold SessionStorage.setItem in *.
  destruct (SessionStorage.available (storage w)); simpl in *.
  2:{ apply (f_equal length) in Hnav. rewrite length_app in Hnav. simpl in Hnav. lia. }
  destruct (SessionStorage.full (storage w)); simpl in *.
  { apply (f_equal length) in Hnav. rewrite length_app in Hnav. simpl in Hnav. lia. }
  unfold Preview.loadPhoto, SessionStorage.getItem, SessionStorage.removeItem.
  rewrite Hm. simpl. rewrite lookup_insert_eq. simpl. rewrite Ht. simpl.
  rewrite lookup_delete_eq. done.
Qed.

Lemma handover_preview_to_compare (P : platform) (st : Preview.state)
  (w : world) (n : navigation) (cst : Compare.state) :
  let w' := Preview.handleGenerateDesign P st w in
  history w' = history w ++ [n] →
  Compare.isMounted cst = true →
  Preview.selectedCategories st ≠ [] →
  Forall (λ c, c ≠ "") (Preview.selectedCategories st) →
  let c := Compare.init (Some (JS.join "," (Preview.selectedCategories st)))
             cst w' in
  Compare.originalPhoto c.1 = Preview.imageUrl st
  ∧ SessionStorage.items (storage c.2) !! "designPhoto" = None
  ∧ history c.2 = history w'.
Proof.
  intros w' Hnav Hm Hsel Hne c. subst w' c.
  unfold Preview.handleGenerateDesign in *.
  destruct (Preview.imageUrl st) as [url|]; simpl in *.
  2:{ apply (f_equal length) in Hnav. rewrite length_app in Hnav. simpl in Hnav. lia. }
  destruct (JS.truthy url) eqn:Ht; simpl in *.
  2:{ apply (f_equal length) in Hnav. rewrite length_app in Hnav. simpl in Hnav. lia. }
  destruct (Preview.prepareDesign P url _ _) as [msg|[s' target]] eqn:Hprep;
    simpl in *.
  { apply (f_equal length) in Hnav. rewrite length_app in Hnav. simpl in Hnav. lia. }
  apply prepareDesign_target in Hprep as (_ & Hset & Hvalid).
  rewrite photoAccepted_checks in Hvalid.
  apply andb_true_iff in Hvalid as [[Hprefix _]%andb_true_iff _].
  unfold SessionStorage.setItem in Hset.
  destruct (SessionStorage.available (storage w)); simpl in Hset; [|done].
  destruct (SessionStorage.full (storage w)); [done|].
  injection Hset as <-.
  unfold Compare.init, SessionStorage.getItem, SessionStorage.removeItem.
  rewrite Hm. simpl.
  rewrite (proj2 (truthy_true _) (join_nonempty _ Hsel Hne)). simpl.
  rewrite lookup_insert_eq. simpl. rewrite Ht. simpl.
  unfold Spec.hasImagePrefix in Hprefix. rewrite Hprefix. simpl.
  rewrite lookup_delete_eq. done.
Qed.

(** C5, as the sources have it: a non-empty value that was put under a
    key is returned by the next read-and-clear and the key is deleted, so
    an immediate second one finds nothing (on the compare page for values
    with the image data-scheme prefix); and a page whose read-and-clear
    finds nothing, also because the storage throws, redirects to the entry
    point and keeps its state. *)
Theorem C5_put_then_takeOnce (k v : string) (s s1 : SessionStorage.t) :
  v ≠ "" →
  SessionTransfer.put k v s = Returns s1 →
  (let r1 := SessionTransfer.takeOnce k s1 in
   let r2 := SessionTransfer.takeOnce k r1.2 in
   r1.1 = Some v ∧ SessionStorage.items r1.2 !! k = None
   ∧ r2 = (None, r1.2))
  ∧ (JS.startsWith v "data:image/" = true →
     let r1 := SessionTransfer.takeOnceImage k s1 in
     let r2 := SessionTransfer.takeOnceImage k r1.2 in
     r1.1 = Some v ∧ SessionStorage.items r1.2 !! k = None
     ∧ r2 = (None, r1.2))
  ∧ (∀ st w,
       Preview.isMounted st = true →
       (SessionTransfer.takeOnce "capturedPhoto" (storage w)).1 = None →
       (Preview.loadPhoto st w).1 = st
       ∧ history (Preview.loadPhoto st w).2
         = history w ++ [RouterReplace "/"])
  ∧ (∀ categories st w,
       Compare.isMounted st = true → JS.truthy_opt categories = true →
       (SessionTransfer.takeOnceImage "designPhoto" (storage w)).1 = None →
       Compare.originalPhoto (Compare.init categories st w).1
       = Compare.originalPhoto st
       ∧ history (Compare.init categories st w).2
         = history w ++ [RouterReplace "/"]).
Proof.
  intros Hv Hput. apply takeOnce_after_put in Hput as [Hav Hk].
  assert (Ht : JS.truthy v = true) by by apply truthy_true.
  split_and!.
  - unfold SessionTransfer.takeOnce, SessionStorage.getItem,
      SessionStorage.removeItem.
    rewrite Hav, Hk. simpl. rewrite Ht. simpl.
    rewrite lookup_delete_eq. done.
  - intros Hprefix.
    unfold SessionTransfer.takeOnceImage, SessionStorage.getItem,
      SessionStorage.removeItem.
    rewrite Hav, Hk. simpl. rewrite Ht, Hprefix. simpl.
    rewrite lookup_delete_eq. done.
  - intros st w Hm Hnone.
    pose proof (loadPhoto_takeOnce st w Hm) as [_ H]. simpl in H.
    by rewrite Hnone in H.
  - intros categories st w Hm Hc Hnone.
    pose proof (compareInit_takeOnceImage categories st w Hm Hc) as [_ H].
    simpl in H. by rewrite Hnone in H.
Qed.

Lemma C5_put_then_takeOnce_witness :
  SessionTransfer.put "k" "v" SessionStorage.empty
  = Returns (SessionStorage.mk true false {[ "k" := "v" ]})
  ∧ (SessionTransfer.takeOnce "k"
       (SessionStorage.mk true false {[ "k" := "v" ]})).1 = Some "v".
Proof.
  assert (Hput : SessionTransfer.put "k" "v" SessionStorage.empty
                 = Returns (SessionStorage.mk true false {[ "k" := "v" ]})).
  { unfold SessionTransfer.put, SessionStorage.setItem. simpl.
    by rewrite insert_empty. }
  split; [exact Hput|].
  assert (Hv : "v" ≠ "") by discriminate.
  exact (proj1 (proj1 (C5_put_then_takeOnce "k" "v" _ _ Hv Hput))).
Defined.

(** C5 as stated fails for the empty string: it is stored, but the
    read-and-clear treats it as absent and leaves the key in place. *)
Lemma C5_empty_value_counterexample :
  ∃ s1, SessionTransfer.put "k" "" SessionStorage.empty = Returns s1
        ∧ (SessionTransfer.takeOnce "k" s1).1 = None
        ∧ SessionStorage.items (SessionTransfer.takeOnce "k" s1).2 !! "k"
          = Some "".
Proof.
  eexists. split; [reflexivity|].
  unfold SessionTransfer.takeOnce, SessionStorage.getItem. simpl.
  rewrite lookup_insert_eq. simpl. split; [done|]. by rewrite lookup_insert_eq.
Qed.

(** C10: when the compare page finds a stored photo without the image
    data-scheme prefix it redirects to the entry point and records an
    error, but it does not remove the key: the storage is unchanged and
    a later read finds the same value again. *)
Theorem C10_malformed_photo_not_cleared (categories : option string)
  (photo : string) (st : Compare.state) (w : world) :
  Compare.isMounted st = true →
  JS.truthy_opt categories = true →
  SessionStorage.getItem "designPhoto" (storage w) = Returns (Some photo) →
  JS.startsWith photo "data:image/" = false →
  let c := Compare.init categories st w in
  history c.2 = history w ++ [RouterReplace "/"]
  ∧ storage c.2 = storage w
  ∧ SessionStorage.getItem "designPhoto" (storage c.2) = Returns (Some photo)
  ∧ Compare.originalPhoto c.1 = Compare.originalPhoto st
  ∧ Compare.error c.1 = Some "Failed to process photo data".
Proof.
  intros Hm Hc Hget Hprefix. unfold Compare.init.
  rewrite Hm, Hc, Hget. simpl. rewrite Hprefix. simpl.
  destruct (JS.truthy photo); simpl; by rewrite ?Hget.
Qed.

Lemma C10_malformed_photo_not_cleared_witness :
  let c := Compare.init (Some "floor") (Compare.mount Compare.initial)
             compare_sample_world in
  history c.2 = [RouterReplace "/"]
  ∧ storage c.2 = storage compare_sample_world.
Proof.
  pose proof (C10_malformed_photo_not_cleared (Some "floor") "hello"
                (Compare.mount Compare.initial) compare_sample_world
                eq_refl eq_refl eq_refl eq_refl) as H.
  exact (conj (proj1 H) (proj1 (proj2 H))).
Defined.

(** ** The design generation client *)

Example dataURLtoFile_sample :
  DesignService.dataURLtoFile Base64.browser
    "data:image/PNG;base64,aGVsbG8=" "original.jpg"
  = inr (File "hello" "original.jpg" "image/png").
Proof. vm_compute. reflexivity. Qed.

Example generate_random_sample :
  DesignService.generateDesigns Base64.browser
    (λ _, Resolves (Response 500 (Body "text/plain" "model unavailable")))
    "data:image/jpeg;base64,aGVsbG8=" None
  = ([Request "POST" "http://localhost:8000/tiles/generate-random/"
        [("files", File "hello" "original.jpg" "image/jpeg")]],
     inl (ErrorObject "Failed to generate design: 500 model unavailable")).
Proof. vm_compute. reflexivity. Qed.

Lemma buildRequest_shape (P : platform) (originalImage : string)
  (tileImage : option string) (req : request) :
  DesignService.buildRequest P originalImage tileImage = inr req →
  method req = "POST"
  ∧ ∃ f, DesignService.dataURLtoFile P originalImage "original.jpg" = inr f
    ∧ ((JS.truthy_opt tileImage = true
        ∧ url req = "http://localhost:8000/tiles/generate/"
        ∧ ∃ t, DesignService.dataURLtoFile P (default "" tileImage) "tile.jpg"
               = inr t
               ∧ form req = [("files", f); ("files", t)])
       ∨ (JS.truthy_opt tileImage = false
          ∧ url req = "http://localhost:8000/tiles/generate-random/"
          ∧ form req = [("files", f)])).
Proof.
  unfold DesignService.buildRequest.
  destruct (DesignService.dataURLtoFile P originalImage _) as [e|f]; [done|].
  destruct (JS.truthy_opt tileImage).
  - destruct (DesignService.dataURLtoFile P _ "tile.jpg") as [e|t]; [done|].
    intros [= <-]. split; [done|]. exists f. split; [done|]. left.
    split_and!; [done..|]. by exists t.
  - intros [= <-]. split; [done|]. exists f. split; [done|]. by right.
Qed.

(** C6, as the sources have it: when the source image (and the style
    tile, if one is supplied) can be converted to a file, exactly one
    POST is sent: to the generate endpoint with the two files when a
    non-empty tile is supplied and to the generate-random endpoint with
    the one file otherwise.  A response outside 200..299 whose text can be
    read makes the call fail with the status and that text in the
    message, and a 2xx response whose body can be read yields its payload;
    when the request fails, or the body of the response cannot be read,
    the call fails with the reason of that failure. *)
Theorem C6_generate_request_and_response (P : platform)
  (net : request → fetched) (originalImage : string)
  (tileImage : option string) (req : request) :
  DesignService.buildRequest P originalImage tileImage = inr req →
  let g := DesignService.generateDesigns P net originalImage tileImage in
  g.1 = [req]
  ∧ method req = "POST"
  ∧ (∃ f, DesignService.dataURLtoFile P originalImage "original.jpg" = inr f
     ∧ ((JS.truthy_opt tileImage = true
         ∧ url req = "http://localhost:8000/tiles/generate/"
         ∧ ∃ t, DesignService.dataURLtoFile P (default "" tileImage)
                  "tile.jpg" = inr t
                ∧ form req = [("files", f); ("files", t)])
        ∨ (JS.truthy_opt tileImage = false
           ∧ url req = "http://localhost:8000/tiles/generate-random/"
           ∧ form req = [("files", f)])))
  ∧ (∀ r content_type payload,
       net req = Resolves r → response_body r = Body content_type payload →
       ((status r < 200 ∨ 299 < status r)%N →
        g.2 = inl (ErrorObject ("Failed to generate design: "
                                +:+ pretty (status r) +:+ " " +:+ payload)))
       ∧ ((200 ≤ status r ≤ 299)%N → g.2 = inr (Blob content_type payload)))
  ∧ (∀ r reason,
       net req = Resolves r → response_body r = BodyFails reason →
       g.2 = inl reason)
  ∧ ∀ reason, net req = Rejects reason → g.2 = inl reason.
Proof.
  intros Hreq g. subst g. unfold DesignService.generateDesigns.
  rewrite Hreq. simpl.
  destruct (buildRequest_shape P originalImage tileImage req Hreq) as [Hm Hf].
  split_and!; [done..| | |].
  - intros r ct payload -> Hbody. unfold DesignService.readResponse, ok.
    rewrite Hbody. split.
    + intros Hs. rewrite bool_decide_eq_false_2 by lia. done.
    + intros Hs. rewrite bool_decide_eq_true_2 by lia. done.
  - intros r reason -> Hbody. unfold DesignService.readResponse.
    rewrite Hbody. by destruct (ok r).
  - by intros reason ->.
Qed.

Lemma generateDesigns_sends_at_most_once (P : platform)
  (net : request → fetched) (originalImage : string)
  (tileImage : option string) :
  let g := DesignService.generateDesigns P net originalImage tileImage in
  (length g.1 ≤ 1)%nat
  ∧ (g.1 = [] ↔ ∃ e, DesignService.buildRequest P originalImage tileImage
                      = inl e).
Proof.
  unfold DesignService.generateDesigns.
  destruct (DesignService.buildRequest P originalImage tileImage) as [e|req];
    simpl.
  - split; [lia|]. split; [by eauto|done].
  - split; [lia|]. split; [done|]. by intros [e He].
Qed.

Lemma C6_generate_request_and_response_witness :
  (DesignService.generateDesigns Base64.browser
     (λ _, Resolves (Response 200 (Body "image/png" "PNG")))
     "data:image/jpeg;base64,aGVsbG8=" None).2
  = inr (Blob "image/png" "PNG").
Proof.
  pose (req := Request "POST" "http://localhost:8000/tiles/generate-random/"
                 [("files", File "hello" "original.jpg" "image/jpeg")]).
  assert (Hreq : DesignService.buildRequest Base64.browser
                   "data:image/jpeg;base64,aGVsbG8=" None = inr req)
    by (vm_compute; reflexivity).
  refine (proj2 (proj1 (proj2 (proj2 (proj2
    (C6_generate_request_and_response Base64.browser
       (λ _, Resolves (Response 200 (Body "image/png" "PNG")))
       _ None req Hreq)))) _ "image/png" "PNG" eq_refl eq_refl) _).
  simpl. lia.
Defined.

(** C6 as stated fails in four ways.  For a source image whose data URL
    is not base64 encoded the call is rejected before anything is sent.
    A style tile that is supplied but empty is not sent: the one file
    goes to the generate-random endpoint.  When the body of a response
    cannot be read the call fails with the reason of that failure: after
    a 503 the error carries neither the status nor a body text, and after
    a 200 no payload is returned. *)
Lemma C6_generate_counterexample :
  let broken status : request → fetched :=
    λ _, Resolves (Response status (BodyFails (ErrorObject "network error"))) in
  DesignService.generateDesigns Base64.browser delivers
    "data:image/svg+xml,<svg/>" None
  = ([], inl (ErrorObject "Data URL is not base64 encoded"))
  ∧ DesignService.generateDesigns Base64.browser delivers
      "data:image/jpeg;base64,aGVsbG8=" (Some "")
    = ([Request "POST" "http://localhost:8000/tiles/generate-random/"
          [("files", File "hello" "original.jpg" "image/jpeg")]],
       inr (Blob "image/png" "PNG"))
  ∧ (DesignService.generateDesigns Base64.browser (broken 503%N)
       "data:image/jpeg;base64,aGVsbG8=" None).2
    = inl (ErrorObject "network error")
  ∧ (DesignService.generateDesigns Base64.browser (broken 200%N)
       "data:image/jpeg;base64,aGVsbG8=" None).2
    = inl (ErrorObject "network error").
Proof. vm_compute. done. Qed.

(** ** The compare controller *)

Lemma dataURLtoFile_named (P : platform) (dataUrl filename : string)
  (e : thrown) :
  DesignService.dataURLtoFile P dataUrl filename = inl e → Spec.named e.
Proof.
  unfold DesignService.dataURLtoFile.
  repeat (case_match; try done); by intros [= <-].
Qed.

Lemma buildRequest_named (P : platform) (image : string)
  (tile : option string) (e : thrown) :
  DesignService.buildRequest P image tile = inl e → Spec.named e.
Proof.
  unfold DesignService.buildRequest.
  destruct (DesignService.dataURLtoFile P image _) as [e0|f] eqn:H0.
  { intros [= <-]. by eapply dataURLtoFile_named. }
  destruct (JS.truthy_opt tile); [|done].
  destruct (DesignService.dataURLtoFile P _ "tile.jpg") as [e1|t] eqn:H1;
    [|done].
  intros [= <-]. by eapply dataURLtoFile_named.
Qed.

Lemma readResponse_named (net : request → fetched) (req : request)
  (e : thrown) :
  Spec.namesItsErrors net →
  DesignService.readResponse (net req) = inl e → Spec.named e.
Proof.
  intros Hnet. specialize (Hnet req). unfold DesignService.readResponse.
  destruct (net req) as [r|reason]; [|by intros [= <-]].
  destruct (ok r), (response_body r) as [ct payload|reason]; simpl;
    intros [= <-]; done.
Qed.

Lemma errorMessage_named (e : thrown) :
  Spec.named e → JS.truthy (Controller.errorMessage e) = true.
Proof. destruct e; simpl; intros H; by apply truthy_true. Qed.

Lemma applyAll_originalPhoto (es : list Controller.effect)
  (st : Compare.state) :
  Compare.originalPhoto (Controller.applyAll es st) = Compare.originalPhoto st.
Proof.
  unfold Controller.applyAll. revert st.
  induction es as [|e es IH]; intros st; simpl; [done|].
  rewrite IH. by destruct e.
Qed.

Lemma initial_calls (P : platform) (env : Controller.schedule)
  (photo : string) :
  photo ≠ "" →
  Spec.calls (Controller.generateInitialDesignsEffects P env (Some photo))
  = [(0%nat, photo, None); (1%nat, photo, None)].
Proof.
  intros Hne. unfold Controller.generateInitialDesignsEffects,
    DesignService.generateDesigns, Controller.settlements.
  simpl. rewrite (proj2 (truthy_true photo) Hne). simpl.
  destruct (DesignService.buildRequest P photo None) as [e|req]; simpl.
  - done.
  - destruct (DesignService.readResponse (Controller.net0 env req)) as [e0|b0],
      (DesignService.readResponse (Controller.net1 env req)) as [e1|b1];
      simpl; repeat case_bool_decide; simpl; try done;
      repeat (case_match; simpl; try done).
Qed.

Lemma initial_sends (P : platform) (env : Controller.schedule)
  (photo : string) (req : request) :
  photo ≠ "" →
  DesignService.buildRequest P photo None = inr req →
  Spec.sends (Controller.generateInitialDesignsEffects P env (Some photo))
  = [(0%nat, req); (1%nat, req)]
  ∧ url req = "http://localhost:8000/tiles/generate-random/"
  ∧ length (form req) = 1%nat.
Proof.
  intros Hne Hbuild.
  destruct (buildRequest_shape P photo None req Hbuild)
    as (_ & f & _ & [(Htile & _)|(_ & Hurl & Hform)]); [done|].
  split; [|by rewrite Hurl, Hform].
  unfold Controller.generateInitialDesignsEffects,
    DesignService.generateDesigns, Controller.settlements.
  simpl. rewrite (proj2 (truthy_true photo) Hne). simpl.
  rewrite Hbuild. simpl.
  destruct (DesignService.readResponse (Controller.net0 env req)) as [e0|b0],
    (DesignService.readResponse (Controller.net1 env req)) as [e1|b1];
    simpl; repeat case_bool_decide; simpl; try done;
    repeat (case_match; simpl; try done).
Qed.

(** What the first run records when a call is rejected. *)
Lemma initial_failure (P : platform) (env : Controller.schedule)
  (photo : string) (st : Compare.state) :
  Compare.originalPhoto st = Some photo →
  photo ≠ "" →
  let es := Controller.generateInitialDesignsEffects P env (Some photo) in
  let st' := Controller.generateInitialDesigns P env st in
  let r0 := (DesignService.generateDesigns P (Controller.net0 env) photo None).2 in
  let r1 := (DesignService.generateDesigns P (Controller.net1 env) photo None).2 in
  Controller.fulfilled r0 && Controller.fulfilled r1 = false →
  ∃ reason,
    (r0 = inl reason ∨ r1 = inl reason)
    ∧ Spec.commits es = []
    ∧ Compare.designs st' = Compare.designs st
    ∧ Compare.error st' = Some (Controller.errorMessage reason)
    ∧ Compare.isLoading st' = false.
Proof.
  intros Hphoto Hne es st' r0 r1. subst es st' r0 r1.
  unfold Controller.generateInitialDesigns. rewrite Hphoto.
  unfold Controller.generateInitialDesignsEffects,
    DesignService.generateDesigns, Controller.settlements.
  simpl. rewrite (proj2 (truthy_true photo) Hne). simpl.
  destruct (DesignService.buildRequest P photo None) as [e|req]; simpl.
  { intros _. exists e. split_and!; by eauto. }
  destruct (DesignService.readResponse (Controller.net0 env req)) as [e0|b0],
    (DesignService.readResponse (Controller.net1 env req)) as [e1|b1];
    simpl; [| | |done]; intros _.
  - case_bool_decide; simpl.
    + exists e0. split_and!; by eauto.
    + exists e1. split_and!; by eauto.
  - exists e0. case_bool_decide; simpl; split_and!; by eauto.
  - exists e1. case_bool_decide; simpl; split_and!; by eauto.
Qed.

Lemma generateDesigns_named (P : platform) (net : request → fetched)
  (image : string) (tile : option string) (e : thrown) :
  Spec.namesItsErrors net →
  (DesignService.generateDesigns P net image tile).2 = inl e →
  Controller.errorMessage e ≠ "".
Proof.
  intros Hnet. unfold DesignService.generateDesigns.
  destruct (DesignService.buildRequest P image tile) as [e'|req] eqn:Hbuild;
    simpl.
  - intros [= <-]. by eapply truthy_true, errorMessage_named, buildRequest_named.
  - intros Hread. by eapply truthy_true, errorMessage_named, readResponse_named.
Qed.

(** C4, as the sources have it: for every source image the initial
    generation issues exactly two generation calls, both without a style
    tile (two POSTs of the one file to the generate-random endpoint, when
    the image can be converted); the pair is committed only after both
    were seen to be fulfilled, slot 0 from the first call and slot 1 from
    the second whichever settles first; when a call is rejected nothing
    is committed and the message of a rejection is recorded as the error;
    when that message is not empty and the pair is empty, the retry
    control is shown, whose click issues the two calls again.  The message
    is not empty when the errors the browser rejects with carry one, as
    the client's own errors do. *)
Theorem C4_initial_generation (P : platform) (env : Controller.schedule)
  (photo : string) (st : Compare.state) :
  Compare.originalPhoto st = Some photo →
  photo ≠ "" →
  let es := Controller.generateInitialDesignsEffects P env (Some photo) in
  let st' := Controller.generateInitialDesigns P env st in
  let r0 := (DesignService.generateDesigns P (Controller.net0 env) photo None).2 in
  let r1 := (DesignService.generateDesigns P (Controller.net1 env) photo None).2 in
  Spec.calls es = [(0%nat, photo, None); (1%nat, photo, None)]
  ∧ (∀ req, DesignService.buildRequest P photo None = inr req →
            Spec.sends es = [(0%nat, req); (1%nat, req)]
            ∧ url req = "http://localhost:8000/tiles/generate-random/"
            ∧ length (form req) = 1%nat)
  ∧ Spec.commitsAfterBoth false false es = true
  ∧ Compare.isLoading st' = false
  ∧ (∀ b0 b1 u0 u1,
       r0 = inr b0 → r1 = inr b1 →
       DesignService.blobToDataURL P b0 = inr u0 →
       DesignService.blobToDataURL P b1 = inr u1 →
       Compare.designs st' = Some (Design "1" u0, Design "2" u1))
  ∧ (Controller.fulfilled r0 && Controller.fulfilled r1 = false →
     Spec.commits es = []
     ∧ Compare.designs st' = Compare.designs st
     ∧ ∃ reason,
         (r0 = inl reason ∨ r1 = inl reason)
         ∧ Compare.error st' = Some (Controller.errorMessage reason)
         ∧ (Compare.designs st = None →
            Controller.errorMessage reason ≠ "" →
            Controller.render st'
            = Controller.RetryControl (Controller.errorMessage reason))
         ∧ (Spec.namesItsErrors (Controller.net0 env) →
            Spec.namesItsErrors (Controller.net1 env) →
            Controller.errorMessage reason ≠ ""))
  ∧ ∀ env',
      Controller.retry P env' st'
      = Controller.applyAll
          (Controller.generateInitialDesignsEffects P env' (Some photo))
          (Compare.setError None st')
      ∧ Spec.calls (Controller.generateInitialDesignsEffects P env' (Some photo))
        = [(0%nat, photo, None); (1%nat, photo, None)].
Proof.
  intros Hphoto Hne es st' r0 r1.
  assert (Hphoto' : Compare.originalPhoto st' = Some photo).
  { subst st'. unfold Controller.generateInitialDesigns.
    by rewrite applyAll_originalPhoto. }
  split; [by apply initial_calls|].
  split; [intros req Hreq; by apply initial_sends|].
  assert (Hlast : ∀ env', Controller.retry P env' st'
      = Controller.applyAll
          (Controller.generateInitialDesignsEffects P env' (Some photo))
          (Compare.setError None st')
      ∧ Spec.calls (Controller.generateInitialDesignsEffects P env' (Some photo))
        = [(0%nat, photo, None); (1%nat, photo, None)]).
  { intros env'. split; [|by apply initial_calls].
    unfold Controller.retry, Controller.generateInitialDesigns. simpl.
    by rewrite Hphoto'. }
  assert (Hfailure : Controller.fulfilled r0 && Controller.fulfilled r1 = false →
     Spec.commits es = []
     ∧ Compare.designs st' = Compare.designs st
     ∧ ∃ reason,
         (r0 = inl reason ∨ r1 = inl reason)
         ∧ Compare.error st' = Some (Controller.errorMessage reason)
         ∧ (Compare.designs st = None →
            Controller.errorMessage reason ≠ "" →
            Controller.render st'
            = Controller.RetryControl (Controller.errorMessage reason))
         ∧ (Spec.namesItsErrors (Controller.net0 env) →
            Spec.namesItsErrors (Controller.net1 env) →
            Controller.errorMessage reason ≠ "")).
  { intros Hrejected.
    destruct (initial_failure P env photo st Hphoto Hne Hrejected)
      as (reason & Hreason & Hcommits & Hdesigns & Herror & Hloading).
    split_and!; [done..|]. exists reason. split_and!; [done..| |].
    - intros Hnone Hmessage. unfold Controller.render.
      subst st'. rewrite Hloading, Hdesigns, Hnone, Herror. simpl.
      by rewrite (proj2 (truthy_true _) Hmessage).
    - intros Hn0 Hn1.
      destruct Hreason as [Hr|Hr];
        [exact (generateDesigns_named _ _ _ _ _ Hn0 Hr)
        |exact (generateDesigns_named _ _ _ _ _ Hn1 Hr)]. }
  split_and!; [| | |exact Hfailure|exact Hlast]; clear Hlast Hfailure Hphoto';
    subst st' es r0 r1;
    unfold Controller.generateInitialDesigns; rewrite ?Hphoto;
    unfold Controller.generateInitialDesignsEffects,
      DesignService.generateDesigns, Controller.settlements;
    simpl; rewrite (proj2 (truthy_true photo) Hne); simpl;
    (destruct (DesignService.buildRequest P photo None) as [e|req] eqn:Hbuild;
     simpl;
     [|destruct (DesignService.readResponse (Controller.net0 env req))
        as [e0|b0];
      destruct (DesignService.readResponse (Controller.net1 env req))
        as [e1|b1];
      simpl; repeat case_bool_decide; simpl;
      repeat (case_match; simpl)]).
  all: try done.
  all: try (intros; simplify_eq; done).
  all: intros ? ? ? ? [= <-] [= <-] Hu0 Hu1;
    match goal with
    | H : Controller.promiseAll _ _ _ = _ |- _ =>
        rewrite Hu0, Hu1 in H; simpl in H; by simplify_eq
    end.
Qed.

(** Which promise settles first does not change the designs. *)
Lemma initial_designs_order_irrelevant (P : platform)
  (n0 n1 : request → fetched) (k k' : nat) (st : Compare.state) :
  Compare.designs
    (Controller.generateInitialDesigns P (Controller.Schedule n0 n1 k) st)
  = Compare.designs
      (Controller.generateInitialDesigns P (Controller.Schedule n0 n1 k') st).
Proof.
  unfold Controller.generateInitialDesigns,
    Controller.generateInitialDesignsEffects, DesignService.generateDesigns,
    Controller.settlements.
  destruct (JS.truthy_opt (Compare.originalPhoto st)); simpl; [|done].
  destruct (DesignService.buildRequest P _ None) as [e|req]; simpl; [done|].
  destruct (DesignService.readResponse (n0 req)) as [e0|b0],
    (DesignService.readResponse (n1 req)) as [e1|b1];
    simpl; repeat case_bool_decide; simpl; try done;
    repeat (case_match; simpl; try done).
Qed.

Example initial_generation_sample :
  Compare.designs
    (Controller.generateInitialDesigns Base64.browser
       (Controller.Schedule delivers delivers 1) compare_sample_state)
  = Some (Design "1" "data:image/png;base64,UE5H",
          Design "2" "data:image/png;base64,UE5H").
Proof. vm_compute. reflexivity. Qed.

Lemma C4_initial_generation_witness :
  let env := Controller.Schedule unavailable unavailable 1 in
  let st' := Controller.generateInitialDesigns Base64.browser env
               compare_sample_state in
  Compare.designs st' = None
  ∧ ∃ message, Controller.render st' = Controller.RetryControl message.
Proof.
  intros env st'.
  assert (Hnames : Spec.namesItsErrors unavailable) by (intros req; exact I).
  assert (Hne : sample_photo ≠ "") by discriminate.
  destruct (C4_initial_generation Base64.browser env sample_photo
              compare_sample_state eq_refl Hne)
    as (_ & _ & _ & _ & _ & Hfail & _).
  destruct (Hfail eq_refl) as (_ & Hdesigns & reason & _ & _ & Hretry & Hnamed).
  split; [exact Hdesigns|]. eexists.
  exact (Hretry eq_refl (Hnamed Hnames Hnames)).
Defined.

(** C4 as stated fails when a request is rejected with an [Error] whose
    message is empty: nothing is committed, and the page shows its
    loading text without a retry control. *)
Lemma C4_unnamed_rejection_counterexample :
  let silent : request → fetched := λ _, Rejects (ErrorObject "") in
  let env := Controller.Schedule silent silent 0 in
  let st' := Controller.generateInitialDesigns Base64.browser env
               compare_sample_state in
  (DesignService.generateDesigns Base64.browser silent sample_photo None).2
  = inl (ErrorObject "")
  ∧ Compare.designs st' = None
  ∧ Compare.error st' = Some ""
  ∧ Compare.isLoading st' = false
  ∧ Controller.render st' = Controller.LoadingText.
Proof. vm_compute. done. Qed.

Lemma choice_calls (P : platform) (net : request → fetched) (now : Z)
  (photo : string) (chosenIndex : nat) :
  Spec.calls (Controller.handleDesignChoiceStart P net photo chosenIndex
              ++ Controller.handleDesignChoiceFinish P net now photo
                   chosenIndex)
  = [(0%nat, photo, None)].
Proof.
  unfold Controller.handleDesignChoiceStart,
    Controller.handleDesignChoiceFinish, DesignService.generateDesigns.
  destruct (DesignService.buildRequest P photo None) as [e|req]; simpl;
    [done|].
  destruct (DesignService.readResponse (net req)) as [e|b]; simpl; [done|].
  by destruct (DesignService.blobToDataURL P b).
Qed.

(** C3, as the sources have it: choosing slot i keeps slot i's identifier
    and image, issues one generation call, and on success replaces only
    the other slot, with the new image under the decimal rendering of the
    clock reading; that identifier differs from the replaced one whenever
    the replaced one renders a different reading.  When the call or the
    conversion of its result fails both slots stay as they were. *)
Theorem C3_choice_regenerates_other (P : platform) (net : request → fetched)
  (now : Z) (photo : string) (chosenIndex : nat) (st : Compare.state)
  (d0 d1 : GeneratedDesign) :
  (chosenIndex = 0 ∨ chosenIndex = 1)%nat →
  Compare.designs st = Some (d0, d1) →
  let other := Controller.otherIndexOf chosenIndex in
  let st' := Controller.applyAll
               (Controller.handleDesignChoiceFinish P net now photo
                  chosenIndex) st in
  let r := (DesignService.generateDesigns P net photo None).2 in
  Spec.calls (Controller.handleDesignChoiceStart P net photo chosenIndex
              ++ Controller.handleDesignChoiceFinish P net now photo
                   chosenIndex)
  = [(0%nat, photo, None)]
  ∧ Compare.loadingDesignIndex st' = None
  ∧ ∃ designs',
      Compare.designs st' = Some designs'
      ∧ Controller.slot chosenIndex designs'
        = Controller.slot chosenIndex (d0, d1)
      ∧ (∀ b u,
           r = inr b → DesignService.blobToDataURL P b = inr u →
           Controller.slot other designs' = Design (pretty now) u
           ∧ ∀ t, id (Controller.slot other (d0, d1)) = pretty t → t ≠ now →
                  id (Controller.slot other designs')
                  ≠ id (Controller.slot other (d0, d1)))
      ∧ ((∀ b, r = inr b → ∃ e, DesignService.blobToDataURL P b = inl e) →
         designs' = (d0, d1)
         ∧ Compare.error st'
           = Some "Failed to generate new design. Please try again.").
Proof.
  intros Hindex Hdesigns other st' r.
  split; [apply choice_calls|].
  subst other st' r. unfold Controller.handleDesignChoiceFinish.
  destruct (DesignService.generateDesigns P net photo None) as [sent [e|b]];
    simpl.
  - rewrite Hdesigns. split; [done|]. exists (d0, d1).
    split_and!; [done|done| |done]. by intros ? ? [=].
  - destruct (DesignService.blobToDataURL P b) as [e|u] eqn:Hconv; simpl.
    + rewrite Hdesigns. split; [done|]. exists (d0, d1).
      split_and!; [done|done| |done].
      intros ? ? [= <-]. by rewrite Hconv.
    + rewrite Hdesigns. simpl. split; [done|].
      eexists. split; [done|].
      split_and!.
      * by destruct Hindex as [-> | ->].
      * intros ? ? [= <-]. rewrite Hconv. intros [= <-].
        destruct Hindex as [-> | ->]; simpl; (split; [done|]);
          intros t -> Hne Heq; by apply (inj pretty) in Heq.
      * intros Hfail. destruct (Hfail b eq_refl) as [e He]. by rewrite Hconv in He.
Qed.

Lemma C3_choice_regenerates_other_witness :
  let st := Compare.setDesigns (Some (Design "1" "a", Design "2" "b"))
              compare_sample_state in
  let st' := Controller.applyAll
               (Controller.handleDesignChoiceFinish Base64.browser delivers
                  1760000000000 sample_photo 0) st in
  ∃ designs', Compare.designs st' = Some designs'
              ∧ Controller.slot 0 designs' = Design "1" "a".
Proof.
  intros st st'.
  destruct (C3_choice_regenerates_other Base64.browser delivers 1760000000000
              sample_photo 0 st (Design "1" "a") (Design "2" "b")
              (or_introl eq_refl) eq_refl)
    as (_ & _ & designs' & H1 & H2 & _).
  exists designs'. exact (conj H1 H2).
Defined.

(** C3 as stated fails when the clock reads what it read when the
    replaced design was stored: the new identifier is the old one. *)
Lemma C3_same_reading_counterexample :
  let st := Compare.setDesigns
              (Some (Design "1" "a", Design "1760000000000" "b"))
              compare_sample_state in
  let st' := Controller.handleDesignChoice Base64.browser delivers
               1760000000000 0 st in
  ∃ d0' d1', Compare.designs st' = Some (d0', d1')
             ∧ d1' = Design "1760000000000" "data:image/png;base64,UE5H"
             ∧ id d1' = id (Design "1760000000000" "b").
Proof. vm_compute. eauto. Qed.

(** ** The capture page *)

Lemma capture_releases_camera (x : Camera.shot) (c c' : Camera.state * Camera.device) :
  Camera.step (Camera.ClickCapture x) c = Some c' →
  Camera.contextAvailable x = true →
  Camera.frozenFrame c'.1 = Some (Camera.encoded x)
  ∧ Camera.stream c'.1 = None
  ∧ ∀ s, Camera.stream c.1 = Some s → s ∉ Camera.live c'.2.
Proof.
  unfold Camera.step. destruct (Camera.enabled _ c) eqn:Hen; [|done].
  intros [= <-] Hctx. simpl in Hen.
  apply andb_true_iff in Hen as [[Hfrozen _]%andb_true_iff _].
  simpl. unfold Camera.capture, Camera.videoMounted. rewrite Hfrozen, Hctx.
  simpl. split_and!; [done..|].
  intros s ->. simpl. rewrite elem_of_difference, elem_of_singleton. tauto.
Qed.

(** The reader callback of [handleFileUpload], had it been attached to the
    file input, clears the stream and stops the tracks of the stream the
    page held when the file was chosen. *)
Lemma handleFileUpload_releases_camera (closedOver : option nat)
  (dataUrl : string) (c : Camera.state * Camera.device) :
  let c' := Camera.handleFileUploadLoaded closedOver dataUrl c in
  Camera.frozenFrame c'.1 = Some dataUrl
  ∧ Camera.stream c'.1 = None
  ∧ ∀ s, closedOver = Some s → s ∉ Camera.live c'.2.
Proof.
  simpl. split_and!; [done..|].
  intros s ->. simpl. rewrite elem_of_difference, elem_of_singleton. tauto.
Qed.

(** The reader callback of [onFileChange], which is attached, leaves the
    stream and its tracks as they are. *)
Lemma onFileChange_keeps_camera (dataUrl : string)
  (c : Camera.state * Camera.device) :
  let c' := Camera.readerLoaded dataUrl c in
  Camera.frozenFrame c'.1 = Some dataUrl
  ∧ Camera.stream c'.1 = Camera.stream c.1
  ∧ Camera.live c'.2 = Camera.live c.2.
Proof. done. Qed.

(** Every step other than the load of a picked file keeps the camera
    released while a frame is frozen. *)
Lemma released_while_frozen_step (e : Camera.event)
  (c c' : Camera.state * Camera.device) :
  Camera.step e c = Some c' →
  (∀ dataUrl, e ≠ Camera.ReaderLoads dataUrl) →
  (Camera.frozen c → Camera.stream c.1 = None) →
  Camera.frozen c' → Camera.stream c'.1 = None.
Proof.
  unfold Camera.step, Camera.frozen.
  destruct (Camera.enabled e c) eqn:Hen; [|done].
  intros [= <-] Hnot Hinv. destruct c as [st d].
  destruct e; simpl in *; try done.
  - unfold Camera.startCamera. simpl.
    destruct (Camera.supportsGetUserMedia d); simpl; [|done].
    by destruct (Camera.isSecure d).
  - unfold Camera.getUserMediaResolved, Camera.videoMounted. simpl.
    destruct (JS.truthy_opt (Camera.frozenFrame st)) eqn:Hf; simpl.
    + done.
    + rewrite Hf. done.
  - by specialize (Hnot dataUrl).
  - unfold Camera.capture, Camera.videoMounted. simpl.
    destruct (JS.truthy_opt (Camera.frozenFrame st)) eqn:Hf; simpl.
    + done.
    + destruct (Camera.contextAvailable x); simpl; [done|].
      rewrite Hf. done.
  - unfold Camera.handleRetry, Camera.startCamera. simpl.
    destruct (Camera.supportsGetUserMedia d); simpl; [|done].
    by destruct (Camera.isSecure d).
Qed.

(** C2 fails on the capture page: a file chosen while the camera is being
    started is frozen without the stream being stopped. *)
Theorem C2_upload_while_camera_starts :
  ∃ c, Camera.run
         [Camera.ClickTakePhoto; Camera.ClickUpload;
          Camera.GetUserMediaResolves; Camera.PlaySettles;
          Camera.FileChosen "room.jpg";
          Camera.ReaderLoads "data:image/jpeg;base64,aGVsbG8="]
         (Camera.initial, Camera.idle_device) = Some c
       ∧ Camera.frozenFrame c.1 = Some "data:image/jpeg;base64,aGVsbG8="
       ∧ Camera.stream c.1 = Some 0%nat
       ∧ 0%nat ∈ Camera.live c.2.
Proof.
  eexists. split; [reflexivity|]. simpl. split_and!; [done..|].
  apply elem_of_union_r, elem_of_singleton. reflexivity.
Qed.

(** ** Binary64 arithmetic of the capture page *)

Module Binary64Facts.

Import Capture Binary64.
Local Open Scope Z_scope.

Lemma digits2_pos_bounds (p : positive) :
  2 ^ (Zpos (digits2_pos p) - 1) <= Zpos p < 2 ^ Zpos (digits2_pos p).
Proof.
  induction p as [p IH|p IH|]; cbn [digits2_pos].
  - rewrite Pos2Z.inj_succ, Pos2Z.inj_xI.
    replace (Z.succ (Zpos (digits2_pos p)) - 1) with (Z.succ (Zpos (digits2_pos p) - 1)) by lia.
    rewrite !Z.pow_succ_r by lia. lia.
  - rewrite Pos2Z.inj_succ. change (Z.pos p~0) with (2 * Z.pos p).
    replace (Z.succ (Zpos (digits2_pos p)) - 1) with (Z.succ (Zpos (digits2_pos p) - 1)) by lia.
    rewrite !Z.pow_succ_r by lia. lia.
  - simpl. lia.
Qed.

Lemma digits2_pos_unique (p : positive) (k : Z) :
  2 ^ (k - 1) <= Zpos p < 2 ^ k -> Zpos (digits2_pos p) = k.
Proof.
  intros [Hlo Hhi]. pose proof (digits2_pos_bounds p) as [Hlo' Hhi'].
  set (d := Zpos (digits2_pos p)) in *.
  assert (0 < k). { destruct (Z.lt_trichotomy 0 k) as [|[<-|Hneg]]; [assumption|simpl in Hhi; lia|]. rewrite Z.pow_neg_r in Hhi by assumption. lia. }
  destruct (Z.lt_trichotomy d k) as [Hlt|[Heq|Hgt]]; [|assumption|].
  - assert (2 ^ d <= 2 ^ (k - 1)) by (apply Z.pow_le_mono_r; lia). lia.
  - assert (2 ^ k <= 2 ^ (d - 1)) by (apply Z.pow_le_mono_r; lia). lia.
Qed.

Lemma shr_1_locates (N D : Z) (x : shr_record) :
  locates N D x -> locates N (2 * D) (shr_1 x) /\ shr_m (shr_1 x) = shr_m x / 2.
Proof.
  destruct x as [m r s]. unfold locates. simpl.
  intros (HD & Hm & HN & Hr & Hs).
  destruct m as [|p|p]; [| |lia].
  - simpl. split; [|reflexivity]. destruct r, s; simpl; intuition (try lia; try discriminate).
  - destruct p as [p|p|].
    + assert (Hdiv : Z.pos p~1 / 2 = Z.pos p).
      { change (Z.pos p~1) with (2 * Z.pos p + 1). rewrite Z.add_comm, Z.mul_comm, Z.div_add by lia. reflexivity. }
      rewrite Hdiv. change (Z.pos p~1) with (2 * Z.pos p + 1) in *. set (P := Z.pos p) in *.
      simpl. split; [|reflexivity].
      destruct r, s; simpl; intuition (try lia; try discriminate).
    + assert (Hdiv : Z.pos p~0 / 2 = Z.pos p).
      { change (Z.pos p~0) with (2 * Z.pos p). rewrite Z.mul_comm, Z.div_mul by lia. reflexivity. }
      rewrite Hdiv. change (Z.pos p~0) with (2 * Z.pos p) in *. set (P := Z.pos p) in *.
      simpl. split; [|reflexivity].
      destruct r, s; simpl; intuition (try lia; try discriminate).
    + simpl. split; [|reflexivity].
      destruct r, s; simpl; intuition (try lia; try discriminate).
Qed.

Lemma iter_shr_1_locates (p : positive) :
  forall (N D : Z) (x : shr_record),
    locates N D x ->
    locates N (2 ^ Zpos p * D) (SpecFloat.iter_pos shr_1 p x)
    /\ shr_m (SpecFloat.iter_pos shr_1 p x) = shr_m x / 2 ^ Zpos p.
Proof.
  induction p as [p IH|p IH|]; intros N D x Hx; cbn [SpecFloat.iter_pos].
  - destruct (shr_1_locates N D x Hx) as [H1 E1].
    destruct (IH _ _ _ H1) as [H2 E2]. destruct (IH _ _ _ H2) as [H3 E3].
    assert (Hpow : 2 ^ Z.pos p~1 = 2 ^ Z.pos p * (2 ^ Z.pos p * 2)).
    { change (Z.pos p~1) with (2 * Z.pos p + 1).
      rewrite Z.pow_add_r, Z.pow_1_r by lia.
      replace (2 * Z.pos p) with (Z.pos p + Z.pos p) by lia.
      rewrite Z.pow_add_r by lia. ring. }
    split.
    + replace (2 ^ Z.pos p~1 * D) with (2 ^ Z.pos p * (2 ^ Z.pos p * (2 * D))); [exact H3|].
      rewrite Hpow. ring.
    + rewrite E3, E2, E1, Hpow.
      rewrite !Z.div_div by (try apply Z.pow_pos_nonneg; lia).
      f_equal. ring.
  - destruct (IH _ _ _ Hx) as [H2 E2]. destruct (IH _ _ _ H2) as [H3 E3].
    assert (Hpow : 2 ^ Z.pos p~0 = 2 ^ Z.pos p * 2 ^ Z.pos p).
    { change (Z.pos p~0) with (2 * Z.pos p).
      replace (2 * Z.pos p) with (Z.pos p + Z.pos p) by lia.
      rewrite Z.pow_add_r by lia. ring. }
    split.
    + replace (2 ^ Z.pos p~0 * D) with (2 ^ Z.pos p * (2 ^ Z.pos p * D)); [exact H3|].
      rewrite Hpow. ring.
    + rewrite E3, E2, Hpow.
      rewrite !Z.div_div by (try apply Z.pow_pos_nonneg; lia).
      reflexivity.
  - change (2 ^ 1) with 2. apply shr_1_locates, Hx.
Qed.

(** Shifting right by [n] places. *)
Lemma shr_locates (N D : Z) (x : shr_record) (e n : Z) :
  0 <= n -> locates N D x ->
  locates N (2 ^ n * D) (fst (shr x e n))
  /\ shr_m (fst (shr x e n)) = shr_m x / 2 ^ n
  /\ snd (shr x e n) = e + n.
Proof.
  intros Hn Hx. destruct n as [|p|p]; [| |lia].
  - simpl. rewrite Z.div_1_r, Z.add_0_r.
    replace (1 * D) with D by ring.
    destruct D; tauto.
  - cbn [shr fst snd]. destruct (iter_shr_1_locates p N D x Hx). tauto.
Qed.

Lemma locates_of_loc_exact (m : Z) :
  0 <= m -> locates m 1 (shr_record_of_loc m loc_Exact).
Proof. intros Hm. unfold locates. simpl. intuition (try lia; try discriminate). Qed.

(** Rounding to nearest: the result is within one half of the fraction. *)
Lemma round_nearest_even_locates (N D : Z) (x : shr_record) :
  locates N D x ->
  let m := round_nearest_even (shr_m x) (loc_of_shr_record x) in
  (m = shr_m x \/ m = shr_m x + 1) /\ 2 * Z.abs (m * D - N) <= D.
Proof.
  destruct x as [m r s]. unfold locates. simpl.
  intros (HD & Hm & HN & Hr & Hs).
  destruct r, s; simpl.
  - split; [right; reflexivity|]. lia.
  - destruct (Z.even m); [split; [left; reflexivity|]|split; [right; reflexivity|]]; intuition lia.
  - split; [left; reflexivity|]. intuition (try discriminate; lia).
  - split; [left; reflexivity|]. intuition (try discriminate; lia).
Qed.

Lemma shr_m_of_loc (m : Z) (l : location) : shr_m (shr_record_of_loc m l) = m.
Proof. destruct l as [|[]]; reflexivity. Qed.

Lemma Zdigits2_unique (m k : Z) :
  2 ^ (k - 1) <= m < 2 ^ k -> 0 < m -> Zdigits2 m = k.
Proof.
  intros H Hm. destruct m as [|p|p]; [lia| |lia].
  simpl. apply digits2_pos_unique, H.
Qed.

Lemma fexp_normal (e : Z) : -1074 <= e - 53 -> fexp 53 1024 e = e - 53.
Proof. intros H. unfold fexp, emin. lia. Qed.

(** Rounding a located fraction whose integer part has [53 + n] bits, in
    the range of normal numbers. *)
Lemma binary_round_aux_normal (mx ex : Z) (lx : location) (N D n : Z) :
  0 <= n ->
  2 ^ (52 + n) <= mx < 2 ^ (53 + n) ->
  locates N D (shr_record_of_loc mx lx) ->
  -1074 <= ex + n -> ex + n + 1 <= 971 ->
  exists m e,
    binary_round_aux 53 1024 false mx ex lx = S754_finite false m e
    /\ 2 ^ 52 <= Zpos m < 2 ^ 53
    /\ (e = ex + n \/ e = ex + n + 1)
    /\ 2 * Z.abs (Zpos m * 2 ^ (e - ex) * D - N) <= 2 ^ n * D.
Proof.
  intros Hn Hmx Hloc Hlo Hhi.
  assert (H2n : 0 < 2 ^ n) by (apply Z.pow_pos_nonneg; lia).
  assert (Hmx0 : 0 < mx) by (assert (0 < 2 ^ (52 + n)) by (apply Z.pow_pos_nonneg; lia); lia).
  assert (Hdig : Zdigits2 mx = 53 + n).
  { apply Zdigits2_unique; [|assumption]. replace (53 + n - 1) with (52 + n) by lia. assumption. }
  unfold binary_round_aux, shr_fexp.
  rewrite Hdig, fexp_normal by lia.
  replace (53 + n + ex - 53 - ex) with n by lia.
  destruct (shr_locates N D _ ex n Hn Hloc) as (Hloc1 & Hm1 & He1).
  rewrite shr_m_of_loc in Hm1.
  destruct (shr (shr_record_of_loc mx lx) ex n) as [x1 e1]. cbn [fst snd] in *.
  subst e1.
  assert (Hb1 : 2 ^ 52 <= shr_m x1 < 2 ^ 53).
  { rewrite Hm1. rewrite !Z.pow_add_r in Hmx by lia. split.
    - apply Z.div_le_lower_bound; lia.
    - apply Z.div_lt_upper_bound; lia. }
  destruct (round_nearest_even_locates _ _ _ Hloc1) as [Hcases Hnear].
  set (m2 := round_nearest_even (shr_m x1) (loc_of_shr_record x1)) in *.
  destruct (Z_lt_le_dec m2 (2 ^ 53)) as [Hsmall|Hbig].
  - assert (Hd2 : Zdigits2 m2 = 53) by (apply Zdigits2_unique; simpl; lia).
    rewrite Hd2, fexp_normal by lia.
    replace (53 + (ex + n) - 53 - (ex + n)) with 0 by lia.
    cbn [shr]. rewrite shr_m_of_loc.
    destruct m2 as [|m|m] eqn:Em2; [lia| |lia].
    exists m, (ex + n). replace (ex + n <=? 1024 - 53) with true by (symmetry; apply Z.leb_le; lia).
    split; [reflexivity|]. split; [lia|]. split; [left; reflexivity|].
    replace (ex + n - ex) with n by lia.
    replace (Z.pos m * 2 ^ n * D) with (Z.pos m * (2 ^ n * D)) by ring. exact Hnear.
  - assert (Em2 : m2 = 9007199254740992) by (change (2 ^ 53) with 9007199254740992 in *; lia).
    rewrite Em2 in *.
    assert (Hd2 : Zdigits2 9007199254740992 = 54) by reflexivity.
    rewrite Hd2, fexp_normal by lia.
    replace (54 + (ex + n) - 53 - (ex + n)) with 1 by lia.
    cbn. replace (ex + n + 1 <=? 1024 - 53) with true by (symmetry; apply Z.leb_le; lia).
    eexists _, _. split; [reflexivity|]. split; [simpl; lia|]. split; [right; reflexivity|].
    replace (ex + n + 1 - ex) with (n + 1) by lia.
    rewrite Z.pow_add_r, Z.pow_1_r by lia.
    replace (4503599627370496 * (2 ^ n * 2) * D) with (9007199254740992 * (2 ^ n * D)) by ring.
    exact Hnear.
Qed.

(** The same, with the error relative to the fraction: at most 2^-53. *)
Lemma binary_round_aux_relative (mx ex : Z) (lx : location) (N D n : Z) :
  0 <= n ->
  2 ^ (52 + n) <= mx < 2 ^ (53 + n) ->
  locates N D (shr_record_of_loc mx lx) ->
  -1074 <= ex + n -> ex + n + 1 <= 971 ->
  exists m e,
    binary_round_aux 53 1024 false mx ex lx = S754_finite false m e
    /\ 2 ^ 52 <= Zpos m < 2 ^ 53
    /\ n <= e - ex <= n + 1
    /\ 2 ^ 53 * Z.abs (Zpos m * 2 ^ (e - ex) * D - N) <= N.
Proof.
  intros Hn Hmx Hloc Hlo Hhi.
  destruct (binary_round_aux_normal mx ex lx N D n Hn Hmx Hloc Hlo Hhi)
    as (m & e & Heq & Hm & He & Hnear).
  exists m, e. split; [exact Heq|]. split; [exact Hm|]. split; [lia|].
  destruct Hloc as (HD & _ & [HN _] & _). rewrite shr_m_of_loc in HN.
  rewrite Z.pow_add_r in Hmx by lia.
  assert (H2n : 0 < 2 ^ n) by (apply Z.pow_pos_nonneg; lia).
  set (A := Z.abs _) in *. set (T := 2 ^ n) in *.
  change (2 ^ 53) with (2 ^ 52 * 2). change (2 ^ 52) with 4503599627370496 in *.
  assert (4503599627370496 * T * D <= mx * D) by (apply Z.mul_le_mono_nonneg_r; lia).
  lia.
Qed.

Lemma new_location_locates (nb q k : Z) :
  0 <= q -> 0 <= k < nb ->
  locates (nb * q + k) nb (shr_record_of_loc q (new_location nb k)).
Proof.
  intros Hq Hk. unfold new_location.
  destruct (Z.even nb) eqn:Hparity.
  - unfold new_location_even. destruct (Z.eqb_spec k 0) as [->|Hk0].
    + unfold locates. simpl. intuition (try lia; try discriminate).
    + destruct (Z.compare_spec (2 * k) nb); unfold locates; simpl;
        intuition (try lia; try discriminate).
  - assert (Hodd : exists t, nb = 2 * t + 1).
    { apply Z.odd_spec. rewrite <- Z.negb_even, Hparity. reflexivity. }
    destruct Hodd as [t Ht].
    unfold new_location_odd. destruct (Z.eqb_spec k 0) as [->|Hk0].
    + unfold locates. simpl. intuition (try lia; try discriminate).
    + destruct (Z.compare_spec (2 * k + 1) nb); unfold locates; simpl;
        intuition (try lia; try discriminate).
Qed.

(** Division of two positive normal numbers. *)
Lemma SFdiv_normal (m1 m2 : positive) (e1 e2 : Z) :
  2 ^ 52 <= Zpos m1 < 2 ^ 53 -> 2 ^ 52 <= Zpos m2 < 2 ^ 53 ->
  -1021 <= e1 - e2 <= 1021 ->
  exists m e,
    SFdiv 53 1024 (S754_finite false m1 e1) (S754_finite false m2 e2)
    = S754_finite false m e
    /\ 2 ^ 52 <= Zpos m < 2 ^ 53
    /\ 0 <= e - (e1 - e2 - 53) <= 2
    /\ 2 ^ 53 * Z.abs (Zpos m * 2 ^ (e - (e1 - e2 - 53)) * Zpos m2
                       - Zpos m1 * 2 ^ 53) <= Zpos m1 * 2 ^ 53.
Proof.
  intros H1 H2 He.
  unfold SFdiv, SFdiv_core_binary. cbn [xorb].
  rewrite (Zdigits2_unique (Zpos m1) 53), (Zdigits2_unique (Zpos m2) 53)
    by (simpl; lia).
  replace (53 + e1 - (53 + e2)) with (e1 - e2) by lia.
  unfold fexp, emin.
  replace (Z.min (Z.max (e1 - e2 - 53) (3 - 1024 - 53)) (e1 - e2))
    with (e1 - e2 - 53) by lia.
  replace (e1 - e2 - (e1 - e2 - 53)) with 53 by lia.
  rewrite Z.shiftl_mul_pow2 by lia.
  pose proof (Z_div_mod (Zpos m1 * 2 ^ 53) (Zpos m2) eq_refl) as Hdiv.
  destruct (Z.div_eucl (Zpos m1 * 2 ^ 53) (Zpos m2)) as [q r].
  destruct Hdiv as [Hqr Hr].
  change (2 ^ 52) with 4503599627370496 in *.
  change (2 ^ 53) with 9007199254740992 in *.
  assert (Hq : 4503599627370496 <= q < 2 * 9007199254740992) by nia.
  assert (Hloc : locates (Zpos m1 * 9007199254740992) (Zpos m2)
                   (shr_record_of_loc q (new_location (Zpos m2) r))).
  { rewrite Hqr. apply new_location_locates; lia. }
  destruct (Z_lt_le_dec q 9007199254740992) as [Hsmall|Hbig].
  - destruct (binary_round_aux_relative q (e1 - e2 - 53) _ _ _ 0 ltac:(lia)
                ltac:(simpl; lia) Hloc ltac:(lia) ltac:(lia))
      as (m & e & Heq & Hm & Hen & Hrel).
    exists m, e. split; [exact Heq|]. split; [exact Hm|]. split; [lia|].
    exact Hrel.
  - destruct (binary_round_aux_relative q (e1 - e2 - 53) _ _ _ 1 ltac:(lia)
                ltac:(simpl; lia) Hloc ltac:(lia) ltac:(lia))
      as (m & e & Heq & Hm & Hen & Hrel).
    exists m, e. split; [exact Heq|]. split; [exact Hm|]. split; [lia|].
    exact Hrel.
Qed.

(** Multiplication of two positive normal numbers. *)
Lemma SFmul_normal (m1 m2 : positive) (e1 e2 : Z) :
  2 ^ 52 <= Zpos m1 < 2 ^ 53 -> 2 ^ 52 <= Zpos m2 < 2 ^ 53 ->
  -1126 <= e1 + e2 <= 917 ->
  exists m e,
    SFmul 53 1024 (S754_finite false m1 e1) (S754_finite false m2 e2)
    = S754_finite false m e
    /\ 2 ^ 52 <= Zpos m < 2 ^ 53
    /\ 52 <= e - (e1 + e2) <= 54
    /\ 2 ^ 53 * Z.abs (Zpos m * 2 ^ (e - (e1 + e2)) - Zpos m1 * Zpos m2)
       <= Zpos m1 * Zpos m2.
Proof.
  intros H1 H2 He. unfold SFmul. cbn [xorb].
  change (2 ^ 52) with 4503599627370496 in *.
  change (2 ^ 53) with 9007199254740992 in *.
  assert (Hp : 4503599627370496 * 4503599627370496 <= Zpos (m1 * m2)
               < 9007199254740992 * 9007199254740992).
  { rewrite Pos2Z.inj_mul. nia. }
  assert (Hloc : locates (Zpos (m1 * m2)) 1
                   (shr_record_of_loc (Zpos (m1 * m2)) loc_Exact))
    by (apply locates_of_loc_exact; lia).
  destruct (Z_lt_le_dec (Zpos (m1 * m2)) (2 ^ 105)) as [Hsmall|Hbig].
  - assert (Hb : 2 ^ (52 + 52) <= Zpos (m1 * m2) < 2 ^ (53 + 52)).
    { change (2 ^ (52 + 52)) with (4503599627370496 * 4503599627370496).
      change (2 ^ (53 + 52)) with (2 ^ 105). lia. }
    destruct (binary_round_aux_relative _ (e1 + e2) _ _ _ 52 ltac:(lia)
                Hb Hloc ltac:(lia) ltac:(lia))
      as (m & e & Heq & Hm & Hen & Hrel).
    exists m, e. split; [exact Heq|]. split; [exact Hm|]. split; [lia|].
    rewrite Z.mul_1_r, Pos2Z.inj_mul in Hrel. exact Hrel.
  - assert (Hb : 2 ^ (52 + 53) <= Zpos (m1 * m2) < 2 ^ (53 + 53)).
    { change (2 ^ (53 + 53)) with (9007199254740992 * 9007199254740992).
      change (2 ^ (52 + 53)) with (2 ^ 105). lia. }
    destruct (binary_round_aux_relative _ (e1 + e2) _ _ _ 53 ltac:(lia)
                Hb Hloc ltac:(lia) ltac:(lia))
      as (m & e & Heq & Hm & Hen & Hrel).
    exists m, e. split; [exact Heq|]. split; [exact Hm|]. split; [lia|].
    rewrite Z.mul_1_r, Pos2Z.inj_mul in Hrel. exact Hrel.
Qed.

Lemma Pos_iter_xO (p k : positive) :
  Zpos (Pos.iter xO p k) = Zpos p * 2 ^ Zpos k.
Proof.
  induction k as [|k IH] using Pos.peano_ind.
  - change (Zpos (Pos.iter xO p 1)) with (2 * Zpos p). change (2 ^ 1) with 2. ring.
  - rewrite Pos.iter_succ, Pos2Z.inj_succ, Z.pow_succ_r by lia.
    change (Zpos (Pos.iter xO p k)~0) with (2 * Zpos (Pos.iter xO p k)).
    rewrite IH. ring.
Qed.

Lemma number_normal (n : Z) :
  0 < n < 2 ^ 53 ->
  exists m e,
    number n = S754_finite false m e
    /\ 2 ^ 52 <= Zpos m < 2 ^ 53
    /\ -52 <= e <= 0
    /\ Zpos m = n * 2 ^ (- e).
Proof.
  intros Hn. destruct n as [|p|p]; [lia| |lia].
  unfold number, binary_normalize, binary_round.
  pose proof (digits2_pos_bounds p) as Hd.
  set (d := Zpos (digits2_pos p)) in *.
  assert (Hd1 : 1 <= d <= 53).
  { split; [unfold d; lia|].
    destruct (Z_le_gt_dec d 53) as [|Hgt]; [assumption|].
    assert (2 ^ 53 <= 2 ^ (d - 1)) by (apply Z.pow_le_mono_r; lia). lia. }
  rewrite Z.add_0_r, fexp_normal by lia.
  assert (Hshift : exists mz, shl_align p 0 (d - 53) = (mz, d - 53)
                              /\ Zpos mz = Zpos p * 2 ^ (53 - d)).
  { unfold shl_align. rewrite Z.sub_0_r.
    destruct (d - 53) as [|k|k] eqn:Hk; [|lia|].
    - exists p. split; [reflexivity|]. replace (53 - d) with 0 by lia. simpl. lia.
    - eexists. split; [reflexivity|]. rewrite Pos_iter_xO.
      replace (53 - d) with (Zpos k) by lia. reflexivity. }
  destruct Hshift as (mz & -> & Hmz).
  assert (Hbz : 2 ^ (52 + 0) <= Zpos mz < 2 ^ (53 + 0)).
  { rewrite Hmz. change (52 + 0) with 52. change (53 + 0) with 53.
    assert (E52 : 2 ^ 52 = 2 ^ (d - 1) * 2 ^ (53 - d))
      by (rewrite <- Z.pow_add_r by lia; f_equal; lia).
    assert (E53 : 2 ^ 53 = 2 ^ d * 2 ^ (53 - d))
      by (rewrite <- Z.pow_add_r by lia; f_equal; lia).
    rewrite E52, E53.
    assert (0 < 2 ^ (53 - d)) by (apply Z.pow_pos_nonneg; lia).
    split; [apply Z.mul_le_mono_nonneg_r|apply Z.mul_lt_mono_pos_r].
    all: lia. }
  destruct (binary_round_aux_normal (Zpos mz) (d - 53) loc_Exact (Zpos mz) 1 0
              ltac:(lia) Hbz (locates_of_loc_exact (Zpos mz) ltac:(lia)) ltac:(lia)
              ltac:(lia)) as (m & e & Heq & Hm & He & Hnear).
  exists m, e. split; [exact Heq|]. split; [exact Hm|].
  change (52 + 0) with 52 in Hbz. change (53 + 0) with 53 in Hbz.
  change (2 ^ 0) with 1 in Hnear.
  destruct He as [-> | ->].
  - replace (d - 53 + 0 - (d - 53)) with 0 in Hnear by lia.
    change (2 ^ 0) with 1 in Hnear.
    assert (Zpos m = Zpos mz) by lia.
    split; [lia|]. replace (- (d - 53 + 0)) with (53 - d) by lia. lia.
  - replace (d - 53 + 0 + 1 - (d - 53)) with 1 in Hnear by lia.
    change (2 ^ 1) with 2 in Hnear. change (2 ^ 52) with 4503599627370496 in *.
    change (2 ^ 53) with 9007199254740992 in *. lia.
Qed.

Local Open Scope R_scope.

Lemma IZR_pow2 (k : Z) : (0 <= k)%Z -> IZR (2 ^ k) = powerRZ 2 k.
Proof.
  intros Hk. destruct k as [|p|p]; [reflexivity| |lia].
  change (2 ^ Zpos p)%Z with (Z.pow_pos 2 p). apply Zpower_pos_powerRZ.
Qed.

Lemma pow2_pos (k : Z) : 0 < powerRZ 2 k.
Proof. apply powerRZ_lt. lra. Qed.

Lemma pow2_add (a b : Z) : powerRZ 2 (a + b) = powerRZ 2 a * powerRZ 2 b.
Proof. apply powerRZ_add. lra. Qed.

(** From the integer statement of a relative error to the real one. *)
Lemma relative_bridge (A N D : Z) (P : R) :
  (0 < D)%Z -> 0 < P ->
  (2 ^ 53 * Z.abs (A * D - N) <= N)%Z ->
  (1 - u) * (IZR N / IZR D * P) <= IZR A * P <= (1 + u) * (IZR N / IZR D * P).
Proof.
  intros HD HP Hrel.
  change (2 ^ 53)%Z with 9007199254740992%Z in Hrel.
  assert (H1 : (9007199254740992 * (A * D - N) <= N)%Z) by lia.
  assert (H2 : (- N <= 9007199254740992 * (A * D - N))%Z) by lia.
  apply IZR_le in H1, H2.
  rewrite mult_IZR, minus_IZR, mult_IZR in H1.
  rewrite opp_IZR, mult_IZR, minus_IZR, mult_IZR in H2.
  apply IZR_lt in HD.
  set (a := IZR A) in *. set (n := IZR N) in *. set (d := IZR D) in *.
  unfold u.
  assert (Hd : 0 < / d) by (apply Rinv_0_lt_compat; assumption).
  assert (Hq : 0 < P * / d) by (apply Rmult_lt_0_compat; assumption).
  assert (Ea : a * P = (a * d) * (P * / d)) by (field; lra).
  assert (En : n / d * P = n * (P * / d)) by (field; lra).
  rewrite Ea, En. set (Q := P * / d) in *.
  split.
  - replace ((1 - / 9007199254740992) * (n * Q)) with (((1 - / 9007199254740992) * n) * Q) by ring.
    apply Rmult_le_compat_r; lra.
  - replace ((1 + / 9007199254740992) * (n * Q)) with (((1 + / 9007199254740992) * n) * Q) by ring.
    apply Rmult_le_compat_r; lra.
Qed.

Lemma number_B2R (n : Z) :
  (0 < n < 2 ^ 53)%Z ->
  exists m e,
    number n = S754_finite false m e
    /\ (2 ^ 52 <= Zpos m < 2 ^ 53)%Z /\ (-52 <= e <= 0)%Z
    /\ B2R (number n) = IZR n.
Proof.
  intros Hn. destruct (number_normal n Hn) as (m & e & Heq & Hm & He & Hval).
  exists m, e. split; [exact Heq|]. split; [exact Hm|]. split; [exact He|].
  rewrite Heq. simpl. rewrite Hval, mult_IZR, IZR_pow2 by lia.
  rewrite Rmult_assoc, <- pow2_add. replace (- e + e)%Z with 0%Z by lia.
  simpl. ring.
Qed.

Lemma SFdiv_B2R (m1 m2 : positive) (e1 e2 : Z) :
  (2 ^ 52 <= Zpos m1 < 2 ^ 53)%Z -> (2 ^ 52 <= Zpos m2 < 2 ^ 53)%Z ->
  (-1021 <= e1 - e2 <= 1021)%Z ->
  let x := S754_finite false m1 e1 in
  let y := S754_finite false m2 e2 in
  exists m e,
    SFdiv 53 1024 x y = S754_finite false m e
    /\ (2 ^ 52 <= Zpos m < 2 ^ 53)%Z
    /\ (e1 - e2 - 53 <= e <= e1 - e2 - 51)%Z
    /\ (1 - u) * (B2R x / B2R y) <= B2R (SFdiv 53 1024 x y)
       <= (1 + u) * (B2R x / B2R y).
Proof.
  intros H1 H2 He x y.
  destruct (SFdiv_normal m1 m2 e1 e2 H1 H2 He) as (m & e & Heq & Hm & Hj & Hrel).
  exists m, e. split; [exact Heq|]. split; [exact Hm|]. split; [lia|].
  unfold x, y. rewrite Heq. cbn [B2R].
  set (j := (e - (e1 - e2 - 53))%Z) in *.
  pose proof (relative_bridge (Zpos m * 2 ^ j) (Zpos m1 * 2 ^ 53) (Zpos m2)
                (powerRZ 2 (e1 - e2 - 53)) ltac:(lia) (pow2_pos _) Hrel) as Hb.
  rewrite !mult_IZR, !IZR_pow2 in Hb by lia.
  assert (Ee : powerRZ 2 e = powerRZ 2 j * powerRZ 2 (e1 - e2 - 53))
    by (rewrite <- pow2_add; f_equal; unfold j; lia).
  assert (Ee1 : powerRZ 2 e1
                = powerRZ 2 (e1 - e2 - 53) * powerRZ 2 53 * powerRZ 2 e2)
    by (rewrite <- !pow2_add; f_equal; lia).
  rewrite Ee, Ee1.
  replace (IZR (Zpos m) * (powerRZ 2 j * powerRZ 2 (e1 - e2 - 53)))
    with (IZR (Zpos m) * powerRZ 2 j * powerRZ 2 (e1 - e2 - 53)) by ring.
  replace (IZR (Zpos m1)
           * (powerRZ 2 (e1 - e2 - 53) * powerRZ 2 53 * powerRZ 2 e2)
           / (IZR (Zpos m2) * powerRZ 2 e2))
    with (IZR (Zpos m1) * powerRZ 2 53 / IZR (Zpos m2)
          * powerRZ 2 (e1 - e2 - 53)); [exact Hb|].
  assert (0 < IZR (Zpos m2)) by (apply IZR_lt; lia).
  pose proof (pow2_pos e2). field. lra.
Qed.

Lemma SFmul_B2R (m1 m2 : positive) (e1 e2 : Z) :
  (2 ^ 52 <= Zpos m1 < 2 ^ 53)%Z -> (2 ^ 52 <= Zpos m2 < 2 ^ 53)%Z ->
  (-1126 <= e1 + e2 <= 917)%Z ->
  let x := S754_finite false m1 e1 in
  let y := S754_finite false m2 e2 in
  exists m e,
    SFmul 53 1024 x y = S754_finite false m e
    /\ (2 ^ 52 <= Zpos m < 2 ^ 53)%Z
    /\ (e1 + e2 + 52 <= e <= e1 + e2 + 54)%Z
    /\ (1 - u) * (B2R x * B2R y) <= B2R (SFmul 53 1024 x y)
       <= (1 + u) * (B2R x * B2R y).
Proof.
  intros H1 H2 He x y.
  destruct (SFmul_normal m1 m2 e1 e2 H1 H2 He) as (m & e & Heq & Hm & Hj & Hrel).
  exists m, e. split; [exact Heq|]. split; [exact Hm|]. split; [lia|].
  unfold x, y. rewrite Heq. cbn [B2R].
  set (j := (e - (e1 + e2))%Z) in *.
  pose proof (relative_bridge (Zpos m * 2 ^ j) (Zpos m1 * Zpos m2) 1
                (powerRZ 2 (e1 + e2)) ltac:(lia) (pow2_pos _)) as Hb.
  rewrite Z.mul_1_r in Hb. specialize (Hb Hrel).
  rewrite !mult_IZR, !IZR_pow2 in Hb by lia.
  assert (Ee : powerRZ 2 e = powerRZ 2 j * powerRZ 2 (e1 + e2))
    by (rewrite <- pow2_add; f_equal; unfold j; lia).
  rewrite Ee.
  replace (IZR (Zpos m) * (powerRZ 2 j * powerRZ 2 (e1 + e2)))
    with (IZR (Zpos m) * powerRZ 2 j * powerRZ 2 (e1 + e2)) by ring.
  replace (IZR (Zpos m1) * powerRZ 2 e1 * (IZR (Zpos m2) * powerRZ 2 e2))
    with (IZR (Zpos m1) * IZR (Zpos m2) / 1 * powerRZ 2 (e1 + e2));
    [exact Hb|].
  rewrite pow2_add. field.
Qed.

Lemma Math_round_B2R (m : positive) (e : Z) :
  let x := S754_finite false m e in
  IZR (Math_round x) <= B2R x + / 2 < IZR (Math_round x) + 1.
Proof.
  intros x. unfold x. cbn [Math_round B2R].
  destruct (Z.leb_spec 0 e) as [He|He].
  - rewrite mult_IZR, IZR_pow2 by lia. lra.
  - set (a := (2 ^ (- e))%Z).
    assert (Ha : (0 < a)%Z) by (apply Z.pow_pos_nonneg; lia).
    assert (Eg : (2 ^ (1 - e) = 2 * a)%Z).
    { replace (1 - e)%Z with (1 + - e)%Z by lia. rewrite Z.pow_add_r by lia. reflexivity. }
    rewrite Eg.
    pose proof (Z.mul_div_le (2 * Zpos m + a) (2 * a) ltac:(lia)) as Hlo.
    pose proof (Z.mul_succ_div_gt (2 * Zpos m + a) (2 * a) ltac:(lia)) as Hhi.
    set (r := ((2 * Zpos m + a) / (2 * a))%Z) in *.
    apply IZR_le in Hlo. apply IZR_lt in Hhi.
    rewrite !mult_IZR, ?plus_IZR, ?mult_IZR in Hlo.
    rewrite !mult_IZR, ?plus_IZR, ?mult_IZR, ?succ_IZR in Hhi.
    assert (Ea : IZR a = powerRZ 2 (- e)) by (apply IZR_pow2; lia).
    assert (Eb : powerRZ 2 e * IZR a = 1).
    { rewrite Ea, <- pow2_add. replace (e + - e)%Z with 0%Z by lia. reflexivity. }
    apply IZR_lt in Ha.
    set (A := IZR a) in *. set (B := powerRZ 2 e) in *.
    set (mr := IZR (Zpos m)) in *. set (rr := IZR r) in *.
    assert (HB : 0 < B) by apply pow2_pos.
    assert (E1 : (mr * B + / 2) * (2 * A) = 2 * mr + A).
    { replace ((mr * B + / 2) * (2 * A)) with (2 * mr * (B * A) + A) by field.
      rewrite Eb. ring. }
    split.
    + apply Rmult_le_reg_r with (2 * A); [lra|]. rewrite E1. lra.
    + apply Rmult_lt_reg_r with (2 * A); [lra|]. rewrite E1. lra.
Qed.

(** One output dimension of a frame that is scaled down: it is within
    one half of the exact quotient 1920 * x / M. *)
Lemma scaled_dimension (x M : Z) :
  (1920 < M < 2 ^ 32)%Z -> (0 < x <= M)%Z ->
  let scale := SFdiv 53 1024 (number 1920) (number M) in
  let r := Math_round (SFmul 53 1024 (number x) scale) in
  (2 * Z.abs (r * M - 1920 * x) <= M)%Z.
Proof.
  intros HM Hx scale r.
  change (2 ^ 32)%Z with 4294967296%Z in HM.
  destruct (number_B2R 1920 ltac:(simpl; lia)) as (m1 & e1 & E1 & Hm1 & He1 & V1).
  destruct (number_B2R M ltac:(change (2 ^ 53)%Z with 9007199254740992%Z; lia))
    as (m2 & e2 & E2 & Hm2 & He2 & V2).
  destruct (number_B2R x ltac:(change (2 ^ 53)%Z with 9007199254740992%Z; lia))
    as (m3 & e3 & E3 & Hm3 & He3 & V3).
  destruct (SFdiv_B2R m1 m2 e1 e2 Hm1 Hm2 ltac:(lia))
    as (ms & es & Es & Hms & Hes & Vs).
  rewrite <- E1, <- E2 in Es. rewrite <- E1, <- E2, V1, V2 in Vs.
  fold scale in Vs, Es.
  destruct (SFmul_B2R m3 ms e3 es Hm3 Hms ltac:(lia))
    as (my & ey & Ey & Hmy & Hey & Vy).
  rewrite <- E3, <- Es in Ey. rewrite <- E3, <- Es, V3 in Vy.
  pose proof (Math_round_B2R my ey) as Hr. cbv zeta in Hr.
  rewrite <- Ey in Hr. fold r in Hr.
  set (Y := B2R (SFmul 53 1024 (number x) scale)) in *.
  set (S := B2R scale) in *.
  assert (HMr : 1920 < IZR M < 4294967296) by (split; apply IZR_lt; lia).
  assert (Hxr : 0 < IZR x <= IZR M) by (split; [apply IZR_lt|apply IZR_le]; lia).
  set (Mr := IZR M) in *. set (xr := IZR x) in *.
  assert (Hu : 0 < u < / 1000000000000000) by (unfold u; lra).
  (* the scale, times M *)
  assert (HS : (1 - u) * 1920 <= S * Mr <= (1 + u) * 1920).
  { destruct Vs as [Vlo Vhi]. split.
    - replace ((1 - u) * 1920) with ((1 - u) * (1920 / Mr) * Mr) by (field; lra).
      apply Rmult_le_compat_r; lra.
    - replace ((1 + u) * 1920) with ((1 + u) * (1920 / Mr) * Mr) by (field; lra).
      apply Rmult_le_compat_r; lra. }
  (* the product, times M *)
  assert (HY : (1 - u) * (1 - u) * 1920 * xr <= Y * Mr
               <= (1 + u) * (1 + u) * 1920 * xr).
  { destruct Vy as [Vlo Vhi]. destruct HS as [Slo Shi]. split.
    - apply Rle_trans with ((1 - u) * (xr * S) * Mr).
      + replace ((1 - u) * (1 - u) * 1920 * xr) with ((1 - u) * xr * ((1 - u) * 1920)) by ring.
        replace ((1 - u) * (xr * S) * Mr) with ((1 - u) * xr * (S * Mr)) by ring.
        apply Rmult_le_compat_l; [|assumption].
        apply Rmult_le_pos; lra.
      + apply Rmult_le_compat_r; lra.
    - apply Rle_trans with ((1 + u) * (xr * S) * Mr).
      + apply Rmult_le_compat_r; lra.
      + replace ((1 + u) * (1 + u) * 1920 * xr) with ((1 + u) * xr * ((1 + u) * 1920)) by ring.
        replace ((1 + u) * (xr * S) * Mr) with ((1 + u) * xr * (S * Mr)) by ring.
        apply Rmult_le_compat_l; [|assumption].
        apply Rmult_le_pos; lra. }
  (* the rounded value, times M *)
  destruct Hr as [Hrlo Hrhi].
  assert (Hr1 : IZR r * Mr <= Y * Mr + Mr / 2).
  { replace (Y * Mr + Mr / 2) with ((Y + / 2) * Mr) by field.
    apply Rmult_le_compat_r; lra. }
  assert (Hr2 : Y * Mr + Mr / 2 < (IZR r + 1) * Mr).
  { replace (Y * Mr + Mr / 2) with ((Y + / 2) * Mr) by field.
    apply Rmult_lt_compat_r; lra. }
  (* the error of the two roundings is far below one half of 1 / M *)
  assert (Hux : u * xr <= u * Mr) by (apply Rmult_le_compat_l; lra).
  assert (Huux : u * u * xr <= u * xr).
  { assert (H0 : 0 <= u * xr) by (apply Rmult_le_pos; lra).
    assert (H1 : u * (u * xr) <= 1 * (u * xr))
      by (apply Rmult_le_compat_r; lra).
    lra. }
  assert (HuM : u * Mr < / 2000000).
  { apply Rlt_trans with (u * 4294967296).
    - apply Rmult_lt_compat_l; lra.
    - unfold u. lra. }
  destruct HY as [HYlo HYhi].
  destruct (Z_le_gt_dec (2 * Z.abs (r * M - 1920 * x)) M) as [Hok|Hbad];
    [exact Hok|exfalso].
  assert (Hcases : (M + 1 <= 2 * (r * M - 1920 * x)
                    \/ M + 1 <= 2 * (1920 * x - r * M))%Z) by lia.
  replace ((1 + u) * (1 + u) * 1920 * xr)
    with (1920 * xr + 3840 * (u * xr) + 1920 * (u * u * xr)) in HYhi by ring.
  replace ((1 - u) * (1 - u) * 1920 * xr)
    with (1920 * xr - 3840 * (u * xr) + 1920 * (u * u * xr)) in HYlo by ring.
  replace ((IZR r + 1) * Mr) with (IZR r * Mr + Mr) in Hr2 by ring.
  assert (H0 : 0 <= u * u * xr).
  { apply Rmult_le_pos; [apply Rmult_le_pos|]; lra. }
  destruct Hcases as [Hc|Hc]; apply IZR_le in Hc;
    rewrite plus_IZR, mult_IZR, minus_IZR, !mult_IZR in Hc;
    fold Mr xr in Hc;
    replace (IZR 2) with 2 in Hc by reflexivity;
    replace (IZR 1920) with 1920 in Hc by reflexivity;
    replace (IZR 1) with 1 in Hc by reflexivity;
    generalize dependent (IZR r * Mr); generalize dependent (u * u * xr);
    generalize dependent (u * xr); generalize dependent (u * Mr);
    generalize dependent (Y * Mr); intros; lra.
Qed.

End Binary64Facts.

(** ** The size of the captured image *)

Example capture_3000_2000 : Capture.canvasSize 3000 2000 = (1920, 1280)%Z.
Proof. vm_compute. reflexivity. Qed.

Example capture_portrait : Capture.canvasSize 2160 3840 = (1080, 1920)%Z.
Proof. vm_compute. reflexivity. Qed.

Example capture_near_tie : Capture.canvasSize 2304 3 = (1920, 3)%Z.
Proof. vm_compute. reflexivity. Qed.

Example capture_thin : Capture.canvasSize 4294967295 1 = (1920, 0)%Z.
Proof. vm_compute. reflexivity. Qed.

Example capture_fallback :
  Capture.capturedSize (Capture.Frame None None 0 0) = (1280, 720)%Z.
Proof. vm_compute. reflexivity. Qed.

Example capture_without_track :
  Capture.capturedSize (Capture.Frame None None 4000 3000) = (1920, 1440)%Z.
Proof. vm_compute. reflexivity. Qed.

Lemma sourceSize_range (f : Capture.frame) :
  Capture.wellTyped f →
  (0 < Capture.sourceWidth f < 2 ^ 32)%Z
  ∧ (0 < Capture.sourceHeight f < 2 ^ 32)%Z.
Proof.
  unfold Capture.wellTyped, Capture.unsignedLong, Capture.sourceWidth,
    Capture.sourceHeight, Capture.orElse.
  change (2 ^ 32)%Z with 4294967296%Z.
  intros (Hsw & Hsh & Hvw & Hvh).
  repeat match goal with
         | |- context [(?a =? 0)%Z] => destruct (Z.eqb_spec a 0)
         end; lia.
Qed.

Lemma rounded_dimension_bounds (r x M : Z) :
  (1920 < M)%Z → (0 < x ≤ M)%Z →
  (2 * Z.abs (r * M - 1920 * x) ≤ M)%Z →
  (0 ≤ r ≤ 1920)%Z ∧ (x = M → r = 1920%Z).
Proof.
  intros HM Hx Hr.
  assert (Hlo : (0 ≤ r)%Z).
  { destruct (Z_lt_le_dec r 0) as [Hneg|]; [|done].
    assert (r * M ≤ -1 * M)%Z by (apply Z.mul_le_mono_nonneg_r; lia). lia. }
  assert (Hhi : (r ≤ 1920)%Z).
  { destruct (Z_le_gt_dec r 1920) as [|Hgt]; [done|].
    assert (1921 * M ≤ r * M)%Z by (apply Z.mul_le_mono_nonneg_r; lia). lia. }
  split; [done|]. intros ->.
  destruct (Z_le_gt_dec 1920 r) as [|Hlt]; [lia|].
  assert (r * M ≤ 1919 * M)%Z by (apply Z.mul_le_mono_nonneg_r; lia). lia.
Qed.

Lemma canvasSize_fits (w h : Z) :
  (0 < w < 2 ^ 32)%Z → (0 < h < 2 ^ 32)%Z →
  let out := Capture.canvasSize w h in
  let M := Z.max w h in
  (0 ≤ out.1 ∧ 0 ≤ out.2 ∧ Z.max out.1 out.2 ≤ 1920)%Z
  ∧ ((M ≤ 1920)%Z → out = (w, h))
  ∧ ((1920 < M)%Z →
     (Z.max out.1 out.2 = 1920
      ∧ 2 * Z.abs (out.1 * M - 1920 * w) ≤ M
      ∧ 2 * Z.abs (out.2 * M - 1920 * h) ≤ M)%Z).
Proof.
  intros Hw Hh out M. subst out. unfold Capture.canvasSize, Capture.maxDim.
  fold M. destruct (Z.ltb_spec 1920 M) as [Hbig|Hsmall]; simpl.
  - assert (HM : (1920 < M < 2 ^ 32)%Z) by (unfold M; lia).
    pose proof (Binary64Facts.scaled_dimension w M HM ltac:(unfold M; lia))
      as Hrw.
    pose proof (Binary64Facts.scaled_dimension h M HM ltac:(unfold M; lia))
      as Hrh.
    cbv zeta in Hrw, Hrh.
    set (rw := Capture.Math_round (SFmul 53 1024 (Capture.number w) _)) in *.
    set (rh := Capture.Math_round (SFmul 53 1024 (Capture.number h) _)) in *.
    assert (Hcase : w = M ∨ h = M) by (unfold M; lia).
    assert (Hle : (w ≤ M ∧ h ≤ M)%Z) by (unfold M; lia).
    destruct (rounded_dimension_bounds rw w M ltac:(lia) ltac:(lia) Hrw)
      as [Hbw Hew].
    destruct (rounded_dimension_bounds rh h M ltac:(lia) ltac:(lia) Hrh)
      as [Hbh Heh].
    split; [lia|]. split; [lia|].
    intros _. split; [|done]. destruct Hcase as [Hc|Hc]; [specialize (Hew Hc)|specialize (Heh Hc)]; lia.
  - split; [lia|]. split; [done|lia].
Qed.

(** C1: for every frame the capture operation can see (sizes as the
    browser reports them, or the fallback 1280 x 720) the encoded image is
    at most 1920 on its longer side; a frame that fits is not resized, and
    a larger one is scaled to exactly 1920 on its longer side with each
    side within half a pixel of the proportional size, so that the aspect
    ratio is kept up to rounding. *)
Theorem C1_capture_size (f : Capture.frame) :
  Capture.wellTyped f →
  let w := Capture.sourceWidth f in
  let h := Capture.sourceHeight f in
  let out := Capture.capturedSize f in
  let M := Z.max w h in
  (0 < w ∧ 0 < h)%Z
  ∧ (0 ≤ out.1 ∧ 0 ≤ out.2 ∧ Z.max out.1 out.2 ≤ 1920)%Z
  ∧ ((M ≤ 1920)%Z → out = (w, h))
  ∧ ((1920 < M)%Z →
     (Z.max out.1 out.2 = 1920
      ∧ 2 * Z.abs (out.1 * M - 1920 * w) ≤ M
      ∧ 2 * Z.abs (out.2 * M - 1920 * h) ≤ M)%Z).
Proof.
  intros Hf w h out M.
  destruct (sourceSize_range f Hf) as [Hw Hh].
  split; [unfold w, h; lia|].
  exact (canvasSize_fits _ _ Hw Hh).
Qed.

Lemma C1_capture_size_witness :
  let f := Capture.Frame (Some 3000%Z) (Some 2000%Z) 1280 720 in
  Capture.wellTyped f
  ∧ Capture.capturedSize f = (1920, 1280)%Z
  ∧ (Z.max (Capture.capturedSize f).1 (Capture.capturedSize f).2 ≤ 1920)%Z.
Proof.
  intros f.
  assert (Hf : Capture.wellTyped f).
  { unfold Capture.wellTyped, Capture.unsignedLong, f. simpl.
    change (2 ^ 32)%Z with 4294967296%Z. lia. }
  split; [exact Hf|]. split; [vm_compute; reflexivity|].
  exact (proj2 (proj2 (proj1 (proj2 (C1_capture_size f Hf))))).
Defined.

(** * Further properties of the sources *)

(** ** Data URLs and the generation client (src/unnamed/part_004) *)

Lemma string_append_cons (c : ascii) (a b : string) :
  String c a +:+ b = String c (a +:+ b).
Proof. reflexivity. Qed.

Lemma string_append_nil (b : string) : "" +:+ b = b.
Proof. reflexivity. Qed.

Lemma string_append_assoc (a b c : string) : (a +:+ b) +:+ c = a +:+ b +:+ c.
Proof.
  induction a as [|x a IH]; [done|]. rewrite !string_append_cons. by rewrite IH.
Qed.

Lemma string_prefix_refl (p : string) : String.prefix p p = true.
Proof.
  induction p as [|c p IH]; [done|]. simpl.
  destruct (ascii_dec c c); [done|congruence].
Qed.

Lemma string_prefix_app (p b : string) : String.prefix p (p +:+ b) = true.
Proof.
  induction p as [|c p IH]; [by destruct b|].
  rewrite string_append_cons. simpl. destruct (ascii_dec c c); [done|congruence].
Qed.

Lemma string_prefix_inv (p s : string) :
  String.prefix p s = true → ∃ rest, s = p +:+ rest.
Proof.
  revert s. induction p as [|c p IH]; intros s.
  - intros _. by exists s.
  - destruct s as [|d s]; [done|]. simpl.
    destruct (ascii_dec c d) as [->|]; [|done].
    intros (rest & ->)%IH. by exists rest.
Qed.

(** A comma-free pattern matches at the start of [h,x] as it does at the
    start of [h,y]. *)
Lemma prefix_before_comma (p h x y : string) :
  Spec.commaFree p = true →
  String.prefix p (h +:+ "," +:+ x) = String.prefix p (h +:+ "," +:+ y).
Proof.
  revert h. induction p as [|a p IH]; intros h Hp.
  - by destruct (h +:+ "," +:+ x), (h +:+ "," +:+ y).
  - simpl in Hp. apply andb_true_iff in Hp as [Ha Hp].
    apply negb_true_iff, bool_decide_eq_false in Ha.
    destruct h as [|b h].
    + rewrite !string_append_nil. change ("," +:+ x) with (String "," x).
      change ("," +:+ y) with (String "," y). simpl.
      by destruct (ascii_dec a ",").
    + rewrite !string_append_cons. simpl. destruct (ascii_dec a b); [|done].
      by apply IH.
Qed.

Lemma includes_suffix (a p : string) : JS.includes (a +:+ p) p = true.
Proof.
  induction a as [|c a IH].
  - rewrite string_append_nil. destruct p; simpl; [done|].
    destruct (ascii_dec a a); [|congruence]. by rewrite string_prefix_refl.
  - rewrite string_append_cons. simpl. rewrite IH. by rewrite orb_true_r.
Qed.

Lemma commaFree_app (a b : string) :
  Spec.commaFree a = true → Spec.commaFree b = true →
  Spec.commaFree (a +:+ b) = true.
Proof.
  induction a as [|c a IH]; [done|]. simpl.
  intros [Hc Ha]%andb_true_iff Hb. rewrite ?string_append_cons. simpl.
  rewrite Hc. by apply IH.
Qed.

Lemma split_two (header data : string) :
  Spec.commaFree header = true → Spec.commaFree data = true →
  JS.split "," (header +:+ "," +:+ data) = [header; data].
Proof.
  intros Hh Hd. rewrite split_append_comma by done.
  by rewrite split_commaFree.
Qed.

Lemma split_three (header data rest : string) :
  Spec.commaFree header = true → Spec.commaFree data = true →
  JS.split "," (header +:+ "," +:+ data +:+ "," +:+ rest)
  = header :: data :: JS.split "," rest.
Proof.
  intros Hh Hd. rewrite split_append_comma by done.
  by rewrite split_append_comma.
Qed.

Lemma split_head_cons (c : ascii) (rest : string) :
  c ≠ ","%char →
  ∃ h t, JS.split "," (String c rest) = String c h :: t.
Proof.
  intros Hc. simpl. rewrite bool_decide_eq_false_2 by done.
  destruct (JS.split "," rest) as [|h t]; eauto.
Qed.

Lemma split_header_truthy (dataUrl : string) :
  JS.startsWith dataUrl "data:" = true →
  ∃ header rest, JS.split "," dataUrl = header :: rest
                 ∧ JS.truthy header = true.
Proof.
  intros [tail ->]%string_prefix_inv.
  destruct (split_head_cons "d" ("ata:" +:+ tail) ltac:(done))
    as (h & t & Hsplit).
  exists (String "d" h), t. split; [exact Hsplit|done].
Qed.

(** [dataURLtoFile] in terms of the first two parts of the split. *)
Lemma dataURLtoFile_parts (P : platform) (u header data filename : string)
  (rest : list string) :
  JS.split "," u = header :: data :: rest →
  DesignService.dataURLtoFile P u filename
  = if negb (JS.startsWith u "data:") then
      inl (ErrorObject "Invalid data URL format")
    else if negb (JS.truthy header) || negb (JS.truthy data) then
      inl (ErrorObject "Invalid data URL format: missing header or data")
    else if negb (JS.includes header ";base64") then
      inl (ErrorObject "Data URL is not base64 encoded")
    else
      match atob P data with
      | Some bstr =>
          inr (File bstr filename
                 (DesignService.fileType
                    match DesignService.matchMime header with
                    | Some g => if JS.truthy g then g else "image/jpeg"
                    | None => "image/jpeg"
                    end))
      | None => inl (ErrorObject "Failed to decode image data")
      end.
Proof. intros Hs. unfold DesignService.dataURLtoFile. rewrite Hs. done. Qed.

(** X1: the outcomes of [dataURLtoFile], by cause.  Without the [data:]
    prefix the URL is refused as not a data URL; with it, a missing or
    empty part after the first comma is refused as missing header or data
    (the header itself is never empty once the prefix is there); then a
    header without [;base64] is refused as not base64 encoded; then a
    part that [atob] does not decode is refused as undecodable; and in
    the remaining case, and only then, a file results, with the decoded
    bytes and the given name. *)
Theorem dataURLtoFile_errors (P : platform) (dataUrl filename : string) :
  let header := default "" (JS.split "," dataUrl !! 0%nat) in
  let base64Data := JS.split "," dataUrl !! 1%nat in
  let result := DesignService.dataURLtoFile P dataUrl filename in
  (result = inl (ErrorObject "Invalid data URL format")
   ↔ JS.startsWith dataUrl "data:" = false)
  ∧ (result = inl (ErrorObject
                     "Invalid data URL format: missing header or data")
     ↔ JS.startsWith dataUrl "data:" = true
       ∧ JS.truthy_opt base64Data = false)
  ∧ (result = inl (ErrorObject "Data URL is not base64 encoded")
     ↔ JS.startsWith dataUrl "data:" = true
       ∧ JS.truthy_opt base64Data = true
       ∧ JS.includes header ";base64" = false)
  ∧ (result = inl (ErrorObject "Failed to decode image data")
     ↔ JS.startsWith dataUrl "data:" = true
       ∧ JS.truthy_opt base64Data = true
       ∧ JS.includes header ";base64" = true
       ∧ atob P (default "" base64Data) = None)
  ∧ ((∃ f, result = inr f)
     ↔ JS.startsWith dataUrl "data:" = true
       ∧ JS.truthy_opt base64Data = true
       ∧ JS.includes header ";base64" = true
       ∧ is_Some (atob P (default "" base64Data)))
  ∧ (∀ f, result = inr f →
          atob P (default "" base64Data) = Some (file_bytes f)
          ∧ file_name f = filename).
Proof.
  intros header base64Data result. subst result.
  unfold DesignService.dataURLtoFile. fold header. fold base64Data.
  destruct (JS.startsWith dataUrl "data:") eqn:Hstart; simpl.
  2:{ split_and!;
        first [ split; intros; destruct_and?; simplify_eq; done
              | split; [intros [f ?]|intros; destruct_and?]; simplify_eq; done
              | intros; simplify_eq; done ]. }
  destruct (split_header_truthy dataUrl Hstart) as (h & rest & Hsplit & Hh).
  assert (Hheader : header = h) by (subst header; by rewrite Hsplit).
  rewrite Hheader in *. rewrite Hh. simpl.
  destruct (JS.truthy_opt base64Data) eqn:Hdata; simpl.
  2:{ split_and!;
        first [ split; intros; destruct_and?; simplify_eq; done
              | split; [intros [f ?]|intros; destruct_and?]; simplify_eq; done
              | intros; simplify_eq; done ]. }
  destruct (JS.includes h ";base64") eqn:Hinc; simpl.
  2:{ split_and!;
        first [ split; intros; destruct_and?; simplify_eq; done
              | split; [intros [f ?]|intros; destruct_and?]; simplify_eq; done
              | intros; simplify_eq; done ]. }
  destruct (atob P (default "" base64Data)) as [bstr|] eqn:Hatob.
  - split_and!;
      first [ split; intros; destruct_and?; simplify_eq; done
            | split; [intros _; split_and!; eauto|eauto]
            | intros f [= <-]; done ].
  - split_and!;
      first [ split; intros; destruct_and?; simplify_eq; done
            | split; [intros [f ?]; simplify_eq|
                      intros (_ & _ & _ & [? ?]); simplify_eq]
            | intros; simplify_eq; done ].
Qed.

(** X2: [dataURLtoFile] destructures only the first two parts of
    [dataUrl.split(',')]: whatever follows a second comma is dropped, so a
    data URL and the same URL with a comma and any text appended are
    converted alike (to the same file, or with the same error). *)
Theorem dataURLtoFile_drops_after_second_comma (P : platform)
  (header data rest filename : string) :
  Spec.commaFree header = true → Spec.commaFree data = true →
  DesignService.dataURLtoFile P
    (header +:+ "," +:+ data +:+ "," +:+ rest) filename
  = DesignService.dataURLtoFile P (header +:+ "," +:+ data) filename.
Proof.
  intros Hh Hd.
  rewrite (dataURLtoFile_parts P _ header data filename (JS.split "," rest))
    by by apply split_three.
  rewrite (dataURLtoFile_parts P _ header data filename [])
    by by apply split_two.
  unfold JS.startsWith.
  by rewrite (prefix_before_comma "data:" header (data +:+ "," +:+ rest) data).
Qed.

Lemma dataURLtoFile_drops_after_second_comma_witness :
  DesignService.dataURLtoFile Base64.browser
    "data:image/png;base64,aGVsbG8=,ignored" "original.jpg"
  = inr (File "hello" "original.jpg" "image/png").
Proof.
  refine (eq_trans (dataURLtoFile_drops_after_second_comma Base64.browser
                      "data:image/png;base64" "aGVsbG8=" "ignored"
                      "original.jpg" eq_refl eq_refl) _).
  vm_compute. reflexivity.
Defined.

Lemma plainType_cons (c : ascii) (t : string) :
  plainType (String c t) = true →
  c ≠ ","%char ∧ c ≠ ";"%char ∧ (N_of_ascii c ∉ [10; 13]%N)
  ∧ plainType t = true.
Proof.
  unfold plainType. simpl. intros [Hc Ht]%andb_true_iff.
  apply negb_true_iff, bool_decide_eq_false in Hc.
  split_and!; [..|done].
  - intros ->. apply Hc. cbn. rewrite !elem_of_cons. tauto.
  - intros ->. apply Hc. cbn. rewrite !elem_of_cons. tauto.
  - intros Hin. apply Hc. rewrite !elem_of_cons in *. tauto.
Qed.

Lemma plainType_commaFree (t : string) :
  plainType t = true → Spec.commaFree t = true.
Proof.
  induction t as [|c t IH]; [done|].
  intros (Hc & _ & _ & Ht)%plainType_cons. simpl.
  rewrite bool_decide_eq_false_2 by done. by apply IH.
Qed.

Lemma upToSemicolon_plain (t rest : string) :
  plainType t = true →
  DesignService.upToSemicolon (t +:+ ";" +:+ rest) = Some t.
Proof.
  induction t as [|c t IH].
  - intros _. reflexivity.
  - intros (_ & Hc & Hnl & Ht)%plainType_cons.
    rewrite string_append_cons. simpl.
    rewrite bool_decide_eq_false_2 by done.
    rewrite bool_decide_eq_false_2 by done.
    by rewrite IH.
Qed.

(** The header [data:<type>;base64] and what [dataURLtoFile] reads in
    it. *)
Lemma reader_header (t : string) :
  plainType t = true →
  let header := "data:" +:+ t +:+ ";base64" in
  Spec.commaFree header = true
  ∧ JS.truthy header = true
  ∧ JS.includes header ";base64" = true
  ∧ DesignService.matchMime header = Some t.
Proof.
  intros Ht header. split_and!.
  - apply commaFree_app; [done|].
    apply commaFree_app; [by apply plainType_commaFree|done].
  - done.
  - subst header.
    replace ("data:" +:+ t +:+ ";base64") with (("data:" +:+ t) +:+ ";base64")
      by apply string_append_assoc.
    apply includes_suffix.
  - subst header. change ("data:" +:+ t +:+ ";base64")
      with (String "d" (String "a" (String "t" (String "a" (String ":"
              (t +:+ ";" +:+ "base64")))))).
    simpl. by rewrite upToSemicolon_plain.
Qed.

Lemma reader_url_parts (t enc : string) :
  plainType t = true → Spec.commaFree enc = true →
  let u := "data:" +:+ t +:+ ";base64," +:+ enc in
  JS.split "," u = ["data:" +:+ t +:+ ";base64"; enc]
  ∧ JS.startsWith u "data:" = true.
Proof.
  intros Ht Henc u. split.
  - subst u.
    replace ("data:" +:+ t +:+ ";base64," +:+ enc)
      with (("data:" +:+ t +:+ ";base64") +:+ "," +:+ enc).
    + apply split_two; [|done]. by apply reader_header.
    + rewrite string_append_assoc. f_equal. by rewrite string_append_assoc.
  - apply string_prefix_app.
Qed.

Lemma dataURLtoFile_reader_url (P : platform) (t enc filename : string) :
  plainType t = true → Spec.commaFree enc = true →
  DesignService.dataURLtoFile P ("data:" +:+ t +:+ ";base64," +:+ enc)
    filename
  = if JS.truthy enc then
      match atob P enc with
      | Some bstr =>
          inr (File bstr filename
                 (DesignService.fileType
                    (if JS.truthy t then t else "image/jpeg")))
      | None => inl (ErrorObject "Failed to decode image data")
      end
    else inl (ErrorObject "Invalid data URL format: missing header or data").
Proof.
  intros Ht Henc.
  destruct (reader_url_parts t enc Ht Henc) as [Hsplit Hstart].
  destruct (reader_header t Ht) as (_ & Hh & Hinc & Hmime).
  rewrite (dataURLtoFile_parts P _ _ _ filename [] Hsplit).
  rewrite Hstart, Hh, Hinc, Hmime. simpl. by destruct (JS.truthy enc).
Qed.

(** X3: what [blobToDataURL] produces, [dataURLtoFile] reads back.  When
    the reader gives the blob as [data:<type>;base64,<payload>] (a type
    without comma, semicolon or line break, a payload without comma) and
    [atob] decodes the payload to the bytes of the blob, the file has
    those bytes, the given name and the type in lower case ([image/jpeg]
    for an empty type); but a blob whose payload is empty is refused as
    missing its data. *)
Theorem dataURLtoFile_reads_reader_output (P : platform) (b : blob)
  (t enc filename : string) :
  readAsDataURL P b = Some ("data:" +:+ t +:+ ";base64," +:+ enc) →
  plainType t = true → Spec.commaFree enc = true →
  ∃ u, DesignService.blobToDataURL P b = inr u
       ∧ (enc ≠ "" → atob P enc = Some (blob_bytes b) →
          DesignService.dataURLtoFile P u filename
          = inr (File (blob_bytes b) filename
                   (DesignService.fileType
                      (if JS.truthy t then t else "image/jpeg"))))
       ∧ (enc = "" →
          DesignService.dataURLtoFile P u filename
          = inl (ErrorObject
                   "Invalid data URL format: missing header or data")).
Proof.
  intros Hread Ht Henc. eexists. split.
  { unfold DesignService.blobToDataURL. by rewrite Hread. }
  rewrite dataURLtoFile_reader_url by done. split.
  - intros Hne Hatob. rewrite (proj2 (truthy_true enc) Hne). by rewrite Hatob.
  - by intros ->.
Qed.

Lemma dataURLtoFile_reads_reader_output_witness :
  ∃ u, DesignService.blobToDataURL Base64.browser (Blob "image/PNG" "hello")
       = inr u
       ∧ DesignService.dataURLtoFile Base64.browser u "tile.jpg"
         = inr (File "hello" "tile.jpg" "image/png").
Proof.
  destruct (dataURLtoFile_reads_reader_output Base64.browser
              (Blob "image/PNG" "hello") "image/PNG" "aGVsbG8=" "tile.jpg"
              eq_refl eq_refl eq_refl) as (u & Hu & Hok & _).
  exists u. split; [exact Hu|].
  exact (Hok ltac:(discriminate) eq_refl).
Defined.

(** X4: the failures of [generateDesigns] before anything is sent.  The
    source image is converted first: when that fails the call is rejected
    with its error whatever the tile; a non-empty tile is converted next,
    and when that fails the call is rejected with the tile's error;
    nothing is sent in either case, and these are the only cases in which
    nothing is sent.  An empty string as the tile is the same as no tile. *)
Theorem generateDesigns_conversion_failures (P : platform)
  (net : request → fetched) (originalImage : string)
  (tileImage : option string) :
  let convert := DesignService.dataURLtoFile P in
  let g := DesignService.generateDesigns P net originalImage tileImage in
  (∀ e, convert originalImage "original.jpg" = inl e → g = ([], inl e))
  ∧ (∀ fo tile e,
       convert originalImage "original.jpg" = inr fo →
       tileImage = Some tile → tile ≠ "" →
       convert tile "tile.jpg" = inl e → g = ([], inl e))
  ∧ (g.1 = [] →
     ∃ e, g.2 = inl e
          ∧ (convert originalImage "original.jpg" = inl e
             ∨ ∃ tile, tileImage = Some tile ∧ tile ≠ ""
                       ∧ convert tile "tile.jpg" = inl e))
  ∧ (tileImage = Some "" →
     g = DesignService.generateDesigns P net originalImage None).
Proof.
  intros convert g. subst convert g.
  unfold DesignService.generateDesigns, DesignService.buildRequest.
  split_and!.
  - by intros e ->.
  - intros fo tile e -> -> Hne He. simpl.
    by rewrite (proj2 (truthy_true tile) Hne), He.
  - destruct (DesignService.dataURLtoFile P originalImage _) as [e|fo];
      [by eauto|].
    destruct tileImage as [tile|]; simpl; [|done].
    destruct (JS.truthy tile) eqn:Ht; [|done].
    destruct (DesignService.dataURLtoFile P tile _) as [e|ft] eqn:He; [|done].
    intros _. exists e. split; [done|]. right. exists tile.
    split_and!; [done| |done]. by apply truthy_true.
  - by intros ->.
Qed.

(** X5: [getRandomTile] sends one GET to [/tiles] whatever happens.  It
    resolves only when the answer is in 200..299, its body can be read and
    the reader converts it, and then with the reader's data URL; an answer
    outside 200..299 is rejected with the status and the text of the body
    in the message, a network failure with its own reason, and a failed
    conversion with the reader's error event. *)
Theorem getRandomTile_outcomes (P : platform) (net : request → fetched) :
  let g := DesignService.getRandomTile P net in
  g.1 = [Request "GET" "http://localhost:8000/tiles" []]
  ∧ (∀ tile, g.2 = inr tile →
       ∃ r content_type payload,
         net DesignService.tilesRequest = Resolves r
         ∧ (200 ≤ status r ≤ 299)%N
         ∧ response_body r = Body content_type payload
         ∧ readAsDataURL P (Blob content_type payload) = Some tile)
  ∧ (∀ r content_type errorText,
       net DesignService.tilesRequest = Resolves r →
       (status r < 200 ∨ 299 < status r)%N →
       response_body r = Body content_type errorText →
       g.2 = inl (ErrorObject ("Failed to get random tile: "
                               +:+ pretty (status r) +:+ " " +:+ errorText)))
  ∧ (∀ reason, net DesignService.tilesRequest = Rejects reason →
               g.2 = inl reason)
  ∧ ∀ r content_type payload,
      net DesignService.tilesRequest = Resolves r →
      (200 ≤ status r ≤ 299)%N →
      response_body r = Body content_type payload →
      readAsDataURL P (Blob content_type payload) = None →
      g.2 = inl NotAnError.
Proof.
  intros g. subst g. unfold DesignService.getRandomTile. simpl.
  split_and!; [done| | | |].
  - intros tile.
    destruct (net DesignService.tilesRequest) as [r|reason];
      [|intros; discriminate].
    unfold ok. destruct (bool_decide _) eqn:Hok; simpl.
    + apply bool_decide_eq_true in Hok.
      destruct (response_body r) as [ct payload|reason] eqn:Hbody; [|done].
      unfold DesignService.blobToDataURL.
      destruct (readAsDataURL P (Blob ct payload)) as [u|] eqn:Hread; [|done].
      intros [= <-]. by exists r, ct, payload.
    + destruct (response_body r); intros; discriminate.
  - intros r ct errorText -> Hstatus ->. unfold ok.
    by rewrite bool_decide_eq_false_2 by lia.
  - by intros reason ->.
  - intros r ct payload -> Hstatus -> Hread. unfold ok.
    rewrite bool_decide_eq_true_2 by lia. simpl.
    unfold DesignService.blobToDataURL. by rewrite Hread.
Qed.

Lemma buildRequest_with_tile (P : platform) (original tile : string)
  (fo ft : file) :
  DesignService.dataURLtoFile P original "original.jpg" = inr fo →
  tile ≠ "" →
  DesignService.dataURLtoFile P tile "tile.jpg" = inr ft →
  DesignService.buildRequest P original (Some tile)
  = inr (Request "POST" "http://localhost:8000/tiles/generate/"
           [("files", fo); ("files", ft)]).
Proof.
  intros Hfo Hne Hft. unfold DesignService.buildRequest.
  rewrite Hfo. simpl. rewrite (proj2 (truthy_true tile) Hne).
  by rewrite Hft.
Qed.

(** X6: a tile fetched by [getRandomTile] and passed to [generateDesigns]
    is sent back to the service: one POST to the [generate] endpoint with
    two files, the second named [tile.jpg] with the bytes and the type
    the service had answered with (for a non-empty payload that the
    reader encodes and [atob] decodes). *)
Theorem random_tile_is_sent_back (P : platform) (netT net : request → fetched)
  (original : string) (fo : file) (r : response)
  (ct payload t enc : string) :
  netT DesignService.tilesRequest = Resolves r →
  ok r = true → response_body r = Body ct payload →
  readAsDataURL P (Blob ct payload)
  = Some ("data:" +:+ t +:+ ";base64," +:+ enc) →
  plainType t = true → Spec.commaFree enc = true → enc ≠ "" →
  atob P enc = Some payload →
  DesignService.dataURLtoFile P original "original.jpg" = inr fo →
  ∃ tile,
    DesignService.getRandomTile P netT
    = ([Request "GET" "http://localhost:8000/tiles" []], inr tile)
    ∧ (DesignService.generateDesigns P net original (Some tile)).1
      = [Request "POST" "http://localhost:8000/tiles/generate/"
           [("files", fo);
            ("files", File payload "tile.jpg"
                        (DesignService.fileType
                           (if JS.truthy t then t else "image/jpeg")))]].
Proof.
  intros Hnet Hok Hbody Hread Ht Henc Hne Hatob Hfo.
  exists ("data:" +:+ t +:+ ";base64," +:+ enc). split.
  - unfold DesignService.getRandomTile, DesignService.blobToDataURL.
    by rewrite Hnet, Hok, Hbody, Hread.
  - unfold DesignService.generateDesigns.
    erewrite buildRequest_with_tile; [done|exact Hfo|done|].
    rewrite dataURLtoFile_reader_url by done.
    by rewrite (proj2 (truthy_true enc) Hne), Hatob.
Qed.

Lemma random_tile_is_sent_back_witness :
  ∃ tile,
    (DesignService.getRandomTile Base64.browser delivers).2 = inr tile
    ∧ (DesignService.generateDesigns Base64.browser unavailable sample_photo
         (Some tile)).1
      = [Request "POST" "http://localhost:8000/tiles/generate/"
           [("files", File "hello" "original.jpg" "image/jpeg");
            ("files", File "PNG" "tile.jpg" "image/png")]].
Proof.
  destruct (random_tile_is_sent_back Base64.browser delivers unavailable
              sample_photo (File "hello" "original.jpg" "image/jpeg")
              (Response 200 (Body "image/png" "PNG"))
              "image/png" "PNG" "image/png" "UE5H"
              eq_refl eq_refl eq_refl eq_refl eq_refl eq_refl
              ltac:(discriminate) eq_refl eq_refl)
    as (tile & Htile & Hsent).
  exists tile. split; [by rewrite Htile|exact Hsent].
Defined.

(** ** From the preview page to the generation
    (src/app/preview/page.tsx, src/unnamed/part_001, src/unnamed/part_004) *)

(** What the preview page's validation lets through, the generation
    client converts. *)
Lemma prepareDesign_convertible (P : platform) (url : string)
  (sel : list string) (s s' : SessionStorage.t) (n : navigation) :
  Preview.prepareDesign P url sel s = inr (s', n) →
  ∃ data bstr f,
    JS.split "," url !! 1%nat = Some data ∧ atob P data = Some bstr
    ∧ DesignService.dataURLtoFile P url "original.jpg" = inr f
    ∧ file_bytes f = bstr ∧ file_name f = "original.jpg".
Proof.
  unfold Preview.prepareDesign, DesignService.dataURLtoFile.
  destruct (JS.startsWith url "data:image/") eqn:Hprefix; simpl; [|done].
  apply string_prefix_inv in Hprefix as [rest Hurl].
  assert (Hstart : JS.startsWith url "data:" = true) by by subst url.
  destruct (split_head_cons "d" ("ata:image/" +:+ rest) ltac:(done))
    as (h & t & Hsplit).
  change (String "d" ("ata:image/" +:+ rest)) with ("data:image/" +:+ rest)
    in Hsplit.
  rewrite <- Hurl in Hsplit. clear Hurl.
  assert (Hh : JS.truthy (String "d" h) = true) by done.
  revert Hsplit Hh. generalize (String "d" h). intros header Hsplit Hh.
  rewrite Hstart, Hsplit. simpl. rewrite Hh. simpl.
  destruct (JS.includes header ";base64"); simpl; [|done].
  destruct (t !! 0%nat) as [data|] eqn:Hdata; simpl; [|done].
  destruct (JS.truthy data); simpl; [|done].
  destruct (atob P data) as [bstr|] eqn:Hatob; [|intros; discriminate].
  intros _. exists data, bstr. eexists. by rewrite ?Hatob.
Qed.

Lemma buildRequest_random (P : platform) (photo : string) (f : file) :
  DesignService.dataURLtoFile P photo "original.jpg" = inr f →
  DesignService.buildRequest P photo None
  = inr (Request "POST" "http://localhost:8000/tiles/generate-random/"
           [("files", f)]).
Proof. intros Hf. unfold DesignService.buildRequest. by rewrite Hf. Qed.

(** X7: the checks of the preview page are at least those of the
    generation client.  Whenever [handleGenerateDesign] navigates, the
    photo it has stored is one that [dataURLtoFile] converts, to the bytes
    [atob] gives for its data part; so the initial generation of the
    compare page sends its two POSTs of that file, whatever the
    network answers. *)
Theorem preview_photo_is_generated (P : platform) (st : Preview.state)
  (w : world) (n : navigation) :
  let w' := Preview.handleGenerateDesign P st w in
  history w' = history w ++ [n] →
  ∃ url data f,
    Preview.imageUrl st = Some url
    ∧ JS.split "," url !! 1%nat = Some data
    ∧ atob P data = Some (file_bytes f)
    ∧ DesignService.dataURLtoFile P url "original.jpg" = inr f
    ∧ ∀ env,
        let req := Request "POST"
                     "http://localhost:8000/tiles/generate-random/"
                     [("files", f)] in
        Spec.sends (Controller.generateInitialDesignsEffects P env (Some url))
        = [(0%nat, req); (1%nat, req)].
Proof.
  intros w' Hnav. subst w'. unfold Preview.handleGenerateDesign in Hnav.
  destruct (Preview.imageUrl st) as [url|]; simpl in Hnav.
  2:{ apply (f_equal length) in Hnav. rewrite length_app in Hnav.
      simpl in Hnav. lia. }
  destruct (JS.truthy url) eqn:Ht; simpl in Hnav.
  2:{ apply (f_equal length) in Hnav. rewrite length_app in Hnav.
      simpl in Hnav. lia. }
  destruct (Preview.prepareDesign P url _ _) as [msg|[s' target]] eqn:Hprep;
    simpl in Hnav.
  { apply (f_equal length) in Hnav. rewrite length_app in Hnav.
    simpl in Hnav. lia. }
  apply prepareDesign_convertible in Hprep
    as (data & bstr & f & Hdata & Hatob & Hf & Hbytes & _).
  exists url, data, f. rewrite Hbytes. split_and!; [done..|].
  intros env req.
  apply initial_sends; [by apply truthy_true|by apply buildRequest_random].
Qed.

Lemma preview_photo_is_generated_witness :
  ∃ url data f,
    Some sample_photo = Some url
    ∧ JS.split "," url !! 1%nat = Some data
    ∧ atob Base64.browser data = Some (file_bytes f)
    ∧ DesignService.dataURLtoFile Base64.browser url "original.jpg" = inr f.
Proof.
  destruct (preview_photo_is_generated Base64.browser
              (Preview.State (Some sample_photo) ["floor"] true)
              (fresh_world SessionStorage.empty)
              (RouterPush "/compare" [("categories", "floor")]) eq_refl)
    as (url & data & f & H1 & H2 & H3 & H4 & _).
  exists url, data, f. exact (conj H1 (conj H2 (conj H3 H4))).
Defined.

(** X8: the compare page accepts any stored photo with the image prefix,
    but when [dataURLtoFile] refuses it the initial generation sends
    nothing and ends with the client's message as the error; with no
    designs the retry control is shown, and a click on it, whatever the
    network would answer, leaves the page exactly as it was. *)
Theorem unconvertible_photo_retry_is_futile (P : platform) (photo : string)
  (e : thrown) (st : Compare.state) (env : Controller.schedule) :
  Compare.originalPhoto st = Some photo → photo ≠ "" →
  DesignService.dataURLtoFile P photo "original.jpg" = inl e →
  let st' := Controller.generateInitialDesigns P env st in
  Spec.sends (Controller.generateInitialDesignsEffects P env (Some photo)) = []
  ∧ Compare.designs st' = Compare.designs st
  ∧ Compare.isLoading st' = false
  ∧ Compare.error st' = Some (Controller.errorMessage e)
  ∧ (Compare.designs st = None →
     Controller.render st' = Controller.RetryControl (Controller.errorMessage e))
  ∧ ∀ env', Controller.retry P env' st' = st'.
Proof.
  intros Hphoto Hne He st'.
  assert (Hbuild : DesignService.buildRequest P photo None = inl e).
  { unfold DesignService.buildRequest. by rewrite He. }
  pose proof (errorMessage_named e (dataURLtoFile_named _ _ _ _ He)) as Hmsg.
  assert (Heffects : ∀ env0,
    Controller.generateInitialDesignsEffects P env0 (Some photo)
    = [Controller.SetIsLoading true; Controller.SetError None;
       Controller.CallGenerate 0 photo None;
       Controller.CallGenerate 1 photo None;
       Controller.Settled 0 false;
       Controller.ConsoleError "Failed to generate designs:";
       Controller.SetError (Some (Controller.errorMessage e));
       Controller.SetIsLoading false]).
  { intros env0. unfold Controller.generateInitialDesignsEffects,
      DesignService.generateDesigns, Controller.settlements.
    simpl. rewrite (proj2 (truthy_true photo) Hne), Hbuild. done. }
  subst st'. unfold Controller.retry, Controller.generateInitialDesigns.
  simpl. rewrite Hphoto, !Heffects. split_and!; try done.
  - intros Hnone. unfold Controller.render. simpl. by rewrite Hnone, Hmsg.
  - intros env'. rewrite applyAll_originalPhoto, Hphoto, Heffects.
    by destruct st.
Qed.

Lemma unconvertible_photo_retry_is_futile_witness :
  let st := Compare.State (Some "data:image/svg+xml,<svg/>") false None None
              ["floor"] None true in
  let st' := Controller.generateInitialDesigns Base64.browser
               (Controller.Schedule delivers delivers 0) st in
  Controller.render st' = Controller.RetryControl "Data URL is not base64 encoded"
  ∧ Controller.retry Base64.browser (Controller.Schedule delivers delivers 1)
      st' = st'.
Proof.
  intros st st'.
  destruct (unconvertible_photo_retry_is_futile Base64.browser
              "data:image/svg+xml,<svg/>"
              (ErrorObject "Data URL is not base64 encoded") st
              (Controller.Schedule delivers delivers 0)
              eq_refl ltac:(discriminate) eq_refl)
    as (_ & _ & _ & _ & Hrender & Hretry).
  split; [exact (Hrender eq_refl)|apply Hretry].
Defined.

(** ** Choices on the compare page (src/unnamed/part_001) *)

Lemma applyAll_app (es1 es2 : list Controller.effect) (st : Compare.state) :
  Controller.applyAll (es1 ++ es2) st
  = Controller.applyAll es2 (Controller.applyAll es1 st).
Proof. unfold Controller.applyAll. by rewrite foldl_app. Qed.

Lemma applyAll_sends (call : nat) (sent : list request) (st : Compare.state) :
  Controller.applyAll (Controller.Send call <$> sent) st = st.
Proof. induction sent as [|x sent IH]; [done|exact IH]. Qed.

Lemma applyAll_start (P : platform) (net : request → fetched)
  (photo : string) (chosenIndex : nat) (st : Compare.state) :
  Controller.applyAll
    (Controller.handleDesignChoiceStart P net photo chosenIndex) st
  = Compare.setLoadingDesignIndex
      (Some (Controller.otherIndexOf chosenIndex)) st.
Proof.
  unfold Controller.handleDesignChoiceStart.
  rewrite applyAll_app. by rewrite applyAll_sends.
Qed.

(** The state after the second half of [handleDesignChoice]. *)
Lemma applyAll_finish (P : platform) (net : request → fetched) (now : Z)
  (photo : string) (chosenIndex : nat) (st : Compare.state) :
  Controller.applyAll
    (Controller.handleDesignChoiceFinish P net now photo chosenIndex) st
  = match (DesignService.generateDesigns P net photo None).2 with
    | inl _ =>
        Compare.setLoadingDesignIndex None
          (Compare.setError
             (Some "Failed to generate new design. Please try again.") st)
    | inr b =>
        match DesignService.blobToDataURL P b with
        | inl _ =>
            Compare.setLoadingDesignIndex None
              (Compare.setError
                 (Some "Failed to generate new design. Please try again.") st)
        | inr u =>
            Compare.setLoadingDesignIndex None
              (Compare.setDesigns
                 (Controller.replaceSlot (Controller.otherIndexOf chosenIndex)
                    (Design (pretty now) u) (Compare.designs st)) st)
        end
    end.
Proof.
  unfold Controller.handleDesignChoiceFinish.
  destruct (DesignService.generateDesigns P net photo None) as [sent [e|b]];
    simpl; [done|].
  by destruct (DesignService.blobToDataURL P b).
Qed.

Lemma handleDesignChoice_steps (P : platform) (net : request → fetched)
  (now : Z) (chosenIndex : nat) (photo : string) (st : Compare.state) :
  Compare.originalPhoto st = Some photo → photo ≠ "" →
  Controller.handleDesignChoice P net now chosenIndex st
  = Controller.applyAll
      (Controller.handleDesignChoiceFinish P net now photo chosenIndex)
      (Compare.setLoadingDesignIndex
         (Some (Controller.otherIndexOf chosenIndex)) st).
Proof.
  intros Hphoto Hne. unfold Controller.handleDesignChoice.
  rewrite Hphoto. change (JS.truthy_opt (Some photo)) with (JS.truthy photo).
  rewrite (proj2 (truthy_true photo) Hne).
  change (default "" (Some photo)) with photo. cbv beta iota zeta.
  change (negb true) with false. cbv iota.
  by rewrite applyAll_app, applyAll_start.
Qed.

(** X9: after a choice the page shows two designs with no slot marked as
    loading, whatever the outcome.  When the regeneration fails the error
    is set, but it is not rendered (the message and the retry control
    appear only without designs) and the page shows the two designs it
    showed before; and a choice never clears an error that was set. *)
Theorem choice_failure_is_not_shown (P : platform) (net : request → fetched)
  (now : Z) (chosenIndex : nat) (photo : string) (st : Compare.state)
  (d0 d1 : GeneratedDesign) :
  Compare.originalPhoto st = Some photo → photo ≠ "" →
  Compare.designs st = Some (d0, d1) → Compare.isLoading st = false →
  let st' := Controller.handleDesignChoice P net now chosenIndex st in
  (∃ d0' d1', Controller.render st' = Controller.Designs d0' d1' None)
  ∧ (is_Some (Compare.error st) → is_Some (Compare.error st'))
  ∧ ∀ e, (DesignService.generateDesigns P net photo None).2 = inl e →
         Compare.error st'
         = Some "Failed to generate new design. Please try again."
         ∧ Controller.render st' = Controller.Designs d0 d1 None.
Proof.
  intros Hphoto Hne Hdesigns Hloading st'. subst st'.
  rewrite (handleDesignChoice_steps P net now chosenIndex photo st Hphoto Hne).
  rewrite applyAll_finish. unfold Controller.render.
  destruct (DesignService.generateDesigns P net photo None).2 as [e|b]; simpl.
  - rewrite Hloading, Hdesigns. split_and!; [by eauto|by eauto|done].
  - destruct (DesignService.blobToDataURL P b) as [e|u]; simpl;
      rewrite Hloading, Hdesigns; simpl.
    + split_and!; [by eauto|by eauto|by intros e0 [=]].
    + split_and!; [|done|by intros e0 [=]].
      destruct (Controller.otherIndexOf chosenIndex); simpl; by eauto.
Qed.

Lemma choice_failure_is_not_shown_witness :
  let st := Compare.setDesigns (Some (Design "1" "a", Design "2" "b"))
              compare_sample_state in
  let st' := Controller.handleDesignChoice Base64.browser unavailable
               1760000000000 0 st in
  Compare.error st' = Some "Failed to generate new design. Please try again."
  ∧ Controller.render st'
    = Controller.Designs (Design "1" "a") (Design "2" "b") None.
Proof.
  intros st st'.
  destruct (choice_failure_is_not_shown Base64.browser unavailable
              1760000000000 0 sample_photo st (Design "1" "a")
              (Design "2" "b") eq_refl ltac:(discriminate) eq_refl eq_refl)
    as (_ & _ & Hfail).
  exact (Hfail (ErrorObject "Failed to generate design: 500 model unavailable")
           eq_refl).
Defined.

(** X10: while the other slot is being regenerated the button of the
    chosen slot stays rendered, so the same choice can be made again.
    Of two such overlapping choices the first to finish replaces the
    other slot and clears the loading mark although the second is still
    in flight; that slot is then offered for choice, and when the second
    finishes it is replaced once more. *)
Theorem overlapping_choices (P : platform) (netA netB : request → fetched)
  (nowA nowB : Z) (photo : string) (st : Compare.state)
  (d0 d1 : GeneratedDesign) (bA bB : blob) (uA uB : string) :
  Compare.designs st = Some (d0, d1) → Compare.isLoading st = false →
  (DesignService.generateDesigns P netA photo None).2 = inr bA →
  DesignService.blobToDataURL P bA = inr uA →
  (DesignService.generateDesigns P netB photo None).2 = inr bB →
  DesignService.blobToDataURL P bB = inr uB →
  let st1 := Controller.applyAll
               (Controller.handleDesignChoiceStart P netA photo 0) st in
  let st2 := Controller.applyAll
               (Controller.handleDesignChoiceStart P netB photo 0) st1 in
  let st3 := Controller.applyAll
               (Controller.handleDesignChoiceFinish P netA nowA photo 0) st2 in
  let st4 := Controller.applyAll
               (Controller.handleDesignChoiceFinish P netB nowB photo 0) st3 in
  Controller.choiceOffered 0 st1 = true
  ∧ Controller.choiceOffered 1 st1 = false
  ∧ Controller.render st2 = Controller.Designs d0 d1 (Some 1%nat)
  ∧ Controller.render st3
    = Controller.Designs d0 (Design (pretty nowA) uA) None
  ∧ Controller.choiceOffered 1 st3 = true
  ∧ Controller.render st4
    = Controller.Designs d0 (Design (pretty nowB) uB) None.
Proof.
  intros Hdesigns Hloading HgA HuA HgB HuB st1 st2 st3 st4.
  subst st1 st2 st3 st4.
  rewrite !applyAll_finish, !applyAll_start, HgA, HuA, HgB, HuB.
  unfold Controller.choiceOffered, Controller.render. simpl.
  rewrite Hloading, Hdesigns. simpl. done.
Qed.

Lemma overlapping_choices_witness :
  let st := Compare.setDesigns (Some (Design "1" "a", Design "2" "b"))
              compare_sample_state in
  let st2 := Controller.applyAll
               (Controller.handleDesignChoiceStart Base64.browser delivers
                  sample_photo 0
                ++ Controller.handleDesignChoiceStart Base64.browser delivers
                     sample_photo 0) st in
  let st3 := Controller.applyAll
               (Controller.handleDesignChoiceFinish Base64.browser delivers
                  1760000000000 sample_photo 0) st2 in
  Controller.render st3
  = Controller.Designs (Design "1" "a")
      (Design "1760000000000" "data:image/png;base64,UE5H") None
  ∧ Controller.choiceOffered 1 st3 = true.
Proof.
  intros st st2 st3.
  destruct (overlapping_choices Base64.browser delivers delivers
              1760000000000 1760000000001 sample_photo st
              (Design "1" "a") (Design "2" "b")
              (Blob "image/png" "PNG") (Blob "image/png" "PNG")
              "data:image/png;base64,UE5H" "data:image/png;base64,UE5H"
              eq_refl eq_refl eq_refl eq_refl eq_refl eq_refl)
    as (_ & _ & _ & H3 & H4 & _).
  exact (conj H3 H4).
Defined.

Lemma apply_keeps (e : Controller.effect) (st : Compare.state) :
  Compare.originalPhoto (Controller.apply e st) = Compare.originalPhoto st
  ∧ Compare.selectedCategories (Controller.apply e st)
    = Compare.selectedCategories st
  ∧ Compare.isMounted (Controller.apply e st) = Compare.isMounted st
  ∧ (is_Some (Compare.designs st) →
     is_Some (Compare.designs (Controller.apply e st))).
Proof.
  destruct e; simpl; split_and!; try done;
    intros [prev Hprev]; rewrite ?Hprev; simpl; by eauto.
Qed.

(** X11: what no handler of the compare page does.  Whatever
    [generateInitialDesigns], the retry control and [handleDesignChoice]
    do to the state, in any order and however their awaits interleave, is
    a list of the effects above; and no such list changes the photo or
    the categories, or removes designs that are there.  So once two
    designs are shown the page never falls back to the retry control or
    to the loading text. *)
Theorem designs_are_never_removed (es : list Controller.effect)
  (st : Compare.state) :
  let st' := Controller.applyAll es st in
  Compare.originalPhoto st' = Compare.originalPhoto st
  ∧ Compare.selectedCategories st' = Compare.selectedCategories st
  ∧ Compare.isMounted st' = Compare.isMounted st
  ∧ (is_Some (Compare.designs st) → is_Some (Compare.designs st'))
  ∧ (is_Some (Compare.designs st) →
     ∀ message, Controller.render st' ≠ Controller.RetryControl message)
  ∧ (is_Some (Compare.designs st) →
     Controller.render st' ≠ Controller.LoadingText).
Proof.
  intros st'. subst st'. unfold Controller.applyAll.
  assert (H : Compare.originalPhoto (foldl (λ acc e, Controller.apply e acc) st es)
              = Compare.originalPhoto st
              ∧ Compare.selectedCategories
                  (foldl (λ acc e, Controller.apply e acc) st es)
                = Compare.selectedCategories st
              ∧ Compare.isMounted (foldl (λ acc e, Controller.apply e acc) st es)
                = Compare.isMounted st
              ∧ (is_Some (Compare.designs st) →
                 is_Some (Compare.designs
                            (foldl (λ acc e, Controller.apply e acc) st es)))).
  { revert st. induction es as [|e es IH]; intros st; simpl; [done|].
    destruct (IH (Controller.apply e st)) as (H1 & H2 & H3 & H4).
    destruct (apply_keeps e st) as (K1 & K2 & K3 & K4).
    rewrite H1, H2, H3, K1, K2, K3. split_and!; [done..|]. by intros ?%K4%H4. }
  destruct H as (H1 & H2 & H3 & H4). split_and!; [done..| |].
  - intros [d Hd]%H4 message. unfold Controller.render. rewrite Hd.
    destruct (Compare.isLoading _); [done|]. by destruct d.
  - intros [d Hd]%H4. unfold Controller.render. rewrite Hd.
    destruct (Compare.isLoading _); [done|]. by destruct d.
Qed.

(** ** The selection, the session storage and the flow between the pages
    (src/app/preview/page.tsx, src/unnamed/part_001, src/unnamed/part_002) *)

Lemma toggle_subseteq (c : string) (s l : list string) :
  c ∈ l → s ⊆ l → Preview.toggleCategory c s ⊆ l.
Proof.
  intros Hc Hs x Hx. destruct (decide (x = c)) as [->|Hne]; [done|].
  apply Hs. by apply (toggle_others c x s Hne).
Qed.

Lemma selection_inv_step (P : platform) (e : Preview.event)
  (c c' : Preview.state * world) :
  selection_inv c.1 → Preview.step P e c = Some c' → selection_inv c'.1.
Proof.
  destruct c as [[url sel m] w]. unfold Preview.step, selection_inv. simpl.
  intros (Hnd & Hsub & Hurl) Hstep.
  destruct (Preview.enabled e _) eqn:Hen; [|done].
  injection Hstep as <-. destruct e; simpl in *.
  - done.
  - unfold Preview.loadPhoto. simpl. destruct m; [|done].
    destruct (SessionStorage.getItem _ _) as [photo|]; [|done].
    destruct (JS.truthy_opt photo) eqn:Hphoto; [|done].
    destruct (SessionStorage.removeItem _ _); simpl;
      (split_and!; [done|done|intros Hf; congruence]).
  - apply andb_true_iff in Hen as [Hshown Hin].
    apply bool_decide_eq_true in Hin.
    unfold Preview.categoryButtonsShown in Hshown. simpl in Hshown.
    split_and!; [by apply toggle_NoDup|by apply toggle_subseteq|].
    intros Hf. congruence.
  - done.
  - done.
Qed.

Lemma selection_inv_run (P : platform) (es : list Preview.event)
  (c c' : Preview.state * world) :
  selection_inv c.1 → Preview.run P es c = Some c' → selection_inv c'.1.
Proof.
  revert c. induction es as [|e es IH]; simpl; intros c Hinv Hrun.
  - by injection Hrun as <-.
  - destruct (Preview.step P e c) as [c1|] eqn:Hstep; [|done].
    eauto using selection_inv_step.
Qed.

(** X12: in every reachable state of the preview page the selection has
    no duplicates and holds only identifiers of [designCategories], so
    the count the generate button shows is at most 5; and a category can
    only be selected once the photo is shown. *)
Theorem preview_selection_invariant (P : platform)
  (c : Preview.state * world) :
  Preview.reachable P c →
  NoDup (Preview.selectedCategories c.1)
  ∧ Preview.selectedCategories c.1 ⊆ Preview.designCategories
  ∧ (JS.set_size (Preview.selectedCategories c.1) ≤ 5)%nat
  ∧ (Preview.selectedCategories c.1 ≠ [] →
     JS.truthy_opt (Preview.imageUrl c.1) = true).
Proof.
  intros (es & w0 & Hrun).
  assert (Hinv : selection_inv c.1).
  { eapply selection_inv_run; [|exact Hrun].
    split_and!; [apply NoDup_nil_2|by intros x ?%elem_of_nil|done]. }
  destruct Hinv as (Hnd & Hsub & Hurl). split_and!; [done|done| |].
  - unfold JS.set_size.
    change 5%nat with (length Preview.designCategories).
    apply submseteq_length, NoDup_submseteq; [done|]. intros x. apply Hsub.
  - intros Hne. destruct (JS.truthy_opt _); [done|]. by specialize (Hurl eq_refl).
Qed.

Lemma preview_selection_invariant_witness :
  ∃ c, Preview.run Base64.browser
         [Preview.Mount; Preview.LoadPhoto; Preview.Toggle "floor";
          Preview.Toggle "decor"; Preview.Toggle "floor"]
         (Preview.initial, preview_sample_world) = Some c
       ∧ Preview.selectedCategories c.1 = ["decor"]
       ∧ NoDup (Preview.selectedCategories c.1).
Proof.
  eexists. split; [vm_compute; reflexivity|]. split; [reflexivity|].
  refine (proj1 (preview_selection_invariant Base64.browser _ _)).
  exists [Preview.Mount; Preview.LoadPhoto; Preview.Toggle "floor";
          Preview.Toggle "decor"; Preview.Toggle "floor"],
    preview_sample_world.
  vm_compute. reflexivity.
Defined.

Lemma setItem_other (k k' v : string) (s s' : SessionStorage.t) :
  k ≠ k' → SessionStorage.setItem k' v s = Returns s' →
  SessionStorage.items s' !! k = SessionStorage.items s !! k.
Proof.
  intros Hk. unfold SessionStorage.setItem.
  destruct (SessionStorage.available s); simpl; [|done].
  destruct (SessionStorage.full s); [done|].
  intros [= <-]. simpl. by rewrite lookup_insert_ne.
Qed.

Lemma removeItem_other (k k' : string) (s s' : SessionStorage.t) :
  k ≠ k' → SessionStorage.removeItem k' s = Returns s' →
  SessionStorage.items s' !! k = SessionStorage.items s !! k.
Proof.
  intros Hk. unfold SessionStorage.removeItem.
  destruct (SessionStorage.available s); simpl; [|done].
  intros [= <-]. simpl. by rewrite lookup_delete_ne.
Qed.

(** X13: each page touches only the key it hands over or takes.  Under
    any other key than [capturedPhoto] the session storage is the same
    after [handleNext] of the capture page and after the load effect of
    the preview page, and under any other key than [designPhoto] it is the
    same after [handleGenerateDesign] and after the initialisation effect
    of the compare page, on every path through them. *)
Theorem pages_touch_only_their_key (P : platform) (k : string) :
  (k ≠ "capturedPhoto" →
   (∀ st w, SessionStorage.items (storage (Camera.handleNext st w).2) !! k
            = SessionStorage.items (storage w) !! k)
   ∧ (∀ st w, SessionStorage.items (storage (Preview.loadPhoto st w).2) !! k
              = SessionStorage.items (storage w) !! k))
  ∧ (k ≠ "designPhoto" →
     (∀ st w,
        SessionStorage.items (storage (Preview.handleGenerateDesign P st w)) !! k
        = SessionStorage.items (storage w) !! k)
     ∧ (∀ categories st w,
          SessionStorage.items (storage (Compare.init categories st w).2) !! k
          = SessionStorage.items (storage w) !! k)).
Proof.
  split; intros Hk; split.
  - intros st w. unfold Camera.handleNext.
    destruct (JS.truthy_opt (Camera.frozenFrame st)); [|done].
    destruct (SessionStorage.setItem _ _ _) as [s'|] eqn:Hset; [|done].
    simpl. by eapply setItem_other.
  - intros st w. unfold Preview.loadPhoto.
    destruct (Preview.isMounted st); [|done].
    destruct (SessionStorage.getItem _ _) as [photo|]; [|done].
    destruct (JS.truthy_opt photo); [|done].
    destruct (SessionStorage.removeItem _ _) as [s'|] eqn:Hrm; [|done].
    simpl. by eapply removeItem_other.
  - intros st w. unfold Preview.handleGenerateDesign, Preview.prepareDesign.
    destruct (JS.truthy_opt (Preview.imageUrl st)); simpl; [|done].
    destruct (JS.startsWith _ _); simpl; [|done].
    destruct (JS.includes _ _); simpl; [|done].
    destruct (JS.truthy_opt (JS.split _ _ !! _)); simpl; [|done].
    destruct (atob P _); [|done].
    destruct (SessionStorage.setItem _ _ _) as [s'|] eqn:Hset; [|done].
    simpl. by eapply setItem_other.
  - intros categories st w. unfold Compare.init, Compare.initFailed.
    destruct (Compare.isMounted st); simpl; [|done].
    destruct (JS.truthy_opt categories); simpl; [|done].
    destruct (SessionStorage.getItem _ _) as [photo|]; [|done].
    destruct (JS.truthy_opt photo); simpl; [|done].
    destruct (JS.startsWith _ _); simpl; [|done].
    destruct (SessionStorage.removeItem _ _) as [s'|] eqn:Hrm; [|done].
    simpl. by eapply removeItem_other.
Qed.

Lemma photoAccepted_truthy (P : platform) (photo : string) :
  photoAccepted P photo = true → JS.truthy photo = true.
Proof.
  unfold photoAccepted, JS.startsWith.
  intros [[Hp _]%andb_true_iff _]%andb_true_iff. by destruct photo.
Qed.

Lemma prepareDesign_accepted (P : platform) (photo : string)
  (sel : list string) (s : SessionStorage.t) :
  photoAccepted P photo = true →
  SessionStorage.available s = true → SessionStorage.full s = false →
  Preview.prepareDesign P photo sel s
  = inr (SessionStorage.mk true false
           (<["designPhoto" := photo]> (SessionStorage.items s)),
         RouterPush "/compare" [("categories", JS.join "," sel)]).
Proof.
  unfold photoAccepted.
  intros [[Hp Hm]%andb_true_iff Hd]%andb_true_iff Hav Hfull.
  unfold Preview.prepareDesign, SessionStorage.setItem.
  rewrite Hp, Hm, Hav, Hfull. simpl.
  destruct (JS.split "," photo !! 1%nat) as [data|]; [|done]. simpl.
  apply andb_true_iff in Hd as [Ht Hd]. rewrite Ht. simpl.
  apply bool_decide_eq_true in Hd as [bstr Hd]. by rewrite Hd.
Qed.

(** X14: a hand-over the session storage refuses.  When [setItem] throws
    in [handleNext], the capture page does not navigate and leaves the
    storage alone; it shows its error and keeps the frozen frame, so that
    a later Next, once the storage accepts the write, hands that frame
    over.  Without a frame [handleNext] does nothing.  When [setItem]
    throws in [handleGenerateDesign], for a photo that passed its tests,
    the preview page does not navigate either, and all it does is log
    the error: its state is unchanged. *)
Theorem refused_handover_is_contained (P : platform) :
  (∀ st w frame name,
     Camera.frozenFrame st = Some frame → frame ≠ "" →
     SessionStorage.setItem "capturedPhoto" frame (storage w) = Throws name →
     let c := Camera.handleNext st w in
     history c.2 = history w ∧ storage c.2 = storage w
     ∧ Camera.error c.1 = Some "Failed to save the photo. Please try again."
     ∧ Camera.frozenFrame c.1 = Some frame
     ∧ ∀ w', SessionStorage.available (storage w') = true →
             SessionStorage.full (storage w') = false →
             let c' := Camera.handleNext c.1 w' in
             history c'.2 = history w' ++ [RouterPush "/preview" []]
             ∧ SessionStorage.items (storage c'.2) !! "capturedPhoto"
               = Some frame)
  ∧ (∀ st w, JS.truthy_opt (Camera.frozenFrame st) = false →
             Camera.handleNext st w = (st, w))
  ∧ (∀ st w url name,
       Preview.imageUrl st = Some url → photoAccepted P url = true →
       SessionStorage.setItem "designPhoto" url (storage w) = Throws name →
       let w' := Preview.handleGenerateDesign P st w in
       history w' = history w ∧ storage w' = storage w
       ∧ console w' = console w ++ ["Error preparing image: " +:+ name]
       ∧ (Preview.fire P Preview.Generate (st, w)).1 = st).
Proof.
  split_and!.
  - intros st w frame name Hframe Hne Hset c. subst c.
    unfold Camera.handleNext at 1 2 3 4. rewrite Hframe. simpl.
    rewrite (proj2 (truthy_true frame) Hne), Hset. simpl.
    split_and!; [done..|].
    intros w' Hav Hfull. unfold Camera.handleNext. rewrite Hframe. simpl.
    rewrite (proj2 (truthy_true frame) Hne), Hset. simpl. rewrite Hframe.
    simpl. rewrite (proj2 (truthy_true frame) Hne).
    unfold SessionStorage.setItem. rewrite Hav, Hfull. simpl.
    by rewrite lookup_insert_eq.
  - intros st w Hf. unfold Camera.handleNext. by rewrite Hf.
  - intros st w url name Hurl Hacc Hset w'. subst w'.
    unfold Preview.handleGenerateDesign. rewrite Hurl. simpl.
    rewrite (photoAccepted_truthy P url Hacc). simpl.
    unfold photoAccepted in Hacc.
    apply andb_true_iff in Hacc as [[Hp Hm]%andb_true_iff Hd].
    unfold Preview.prepareDesign. rewrite Hp, Hm. simpl.
    destruct (JS.split "," url !! 1%nat) as [data|]; [|done]. simpl.
    apply andb_true_iff in Hd as [Ht Hd]. rewrite Ht. simpl.
    apply bool_decide_eq_true in Hd as [bstr Hd]. rewrite Hd, Hset. done.
Qed.

(** X15: the three pages in sequence.  From a frozen frame that passes
    the tests of [handleGenerateDesign], with a session storage that
    accepts writes: Next on the capture page, then mounting the preview
    page, selecting one category and Generate, then mounting the compare
    page with the query the preview page pushed.  The compare page then
    works with exactly the frozen frame and that category, the two
    navigations are the pushes to [/preview] and [/compare], no redirect
    happens, and neither [capturedPhoto] nor [designPhoto] is left in the
    session storage. *)
Theorem flow_hands_the_frame_over (P : platform) (cam : Camera.state)
  (w : world) (frame c : string) :
  Camera.frozenFrame cam = Some frame →
  photoAccepted P frame = true →
  SessionStorage.available (storage w) = true →
  SessionStorage.full (storage w) = false →
  c ∈ Preview.designCategories →
  let w1 := (Camera.handleNext cam w).2 in
  ∃ p w2,
    Preview.run P
      [Preview.Mount; Preview.LoadPhoto; Preview.Toggle c; Preview.Generate]
      (Preview.initial, w1) = Some (p, w2)
    ∧ history w2
      = history w ++ [RouterPush "/preview" [];
                      RouterPush "/compare" [("categories", c)]]
    ∧ let r := Compare.init (Some c) (Compare.mount Compare.initial) w2 in
      Compare.originalPhoto r.1 = Some frame
      ∧ Compare.selectedCategories r.1 = [c]
      ∧ SessionStorage.items (storage r.2) !! "capturedPhoto" = None
      ∧ SessionStorage.items (storage r.2) !! "designPhoto" = None
      ∧ history r.2 = history w2.
Proof.
  intros Hframe Hacc Hav Hfull Hc w1.
  pose proof (photoAccepted_truthy P frame Hacc) as Ht.
  destruct (designCategories_wellformed c Hc) as [Hfree Hne].
  destruct w as [[av fl items] hist cons]. simpl in Hav, Hfull. subst av fl.
  subst w1. unfold Camera.handleNext. rewrite Hframe. simpl. rewrite Ht.
  unfold SessionStorage.setItem. simpl.
  unfold Preview.step. simpl.
  unfold Preview.loadPhoto, SessionStorage.getItem, SessionStorage.removeItem.
  simpl. rewrite lookup_insert_eq. simpl. rewrite Ht. simpl.
  unfold Preview.categoryButtonsShown. simpl. rewrite Ht. simpl.
  rewrite (bool_decide_eq_true_2 _ Hc). simpl.
  unfold Preview.generateButtonShown. simpl. rewrite Ht. simpl.
  unfold Preview.handleGenerateDesign. simpl. rewrite Ht. simpl.
  rewrite prepareDesign_accepted by done. simpl.
  eexists _, _. split; [reflexivity|]. simpl.
  split; [by rewrite <- !app_assoc|].
  unfold Compare.init, SessionStorage.getItem, SessionStorage.removeItem.
  simpl. rewrite (proj2 (truthy_true c) Hne). simpl.
  rewrite lookup_insert_eq. simpl. rewrite Ht. simpl.
  unfold photoAccepted in Hacc.
  apply andb_true_iff in Hacc as [[Hp _]%andb_true_iff _].
  rewrite Hp. simpl. rewrite split_commaFree by done.
  split_and!; [done|done| |by rewrite lookup_delete_eq|done].
  rewrite lookup_delete_ne by done. rewrite lookup_insert_ne by done.
  by rewrite lookup_delete_eq.
Qed.

Lemma flow_hands_the_frame_over_witness :
  let cam := Camera.State None None false None (Some sample_photo) true in
  let w1 := (Camera.handleNext cam (fresh_world SessionStorage.empty)).2 in
  ∃ p w2,
    Preview.run Base64.browser
      [Preview.Mount; Preview.LoadPhoto; Preview.Toggle "walls";
       Preview.Generate]
      (Preview.initial, w1) = Some (p, w2)
    ∧ history w2 = [RouterPush "/preview" [];
                    RouterPush "/compare" [("categories", "walls")]].
Proof.
  intros cam w1.
  assert (Hc : "walls" ∈ Preview.designCategories).
  { apply elem_of_cons. right. apply elem_of_cons. by left. }
  destruct (flow_hands_the_frame_over Base64.browser cam
              (fresh_world SessionStorage.empty) sample_photo "walls"
              eq_refl eq_refl eq_refl eq_refl Hc)
    as (p & w2 & Hrun & Hhist & _).
  exists p, w2. exact (conj Hrun Hhist).
Defined.

(** ** The camera of the capture page (src/unnamed/part_002) *)

Lemma camera_inv_step (e : Camera.event) (c c' : Camera.state * Camera.device) :
  camera_inv c → Camera.loadsFile e = false →
  Camera.step e c = Some c' → camera_inv c'.
Proof.
  unfold Camera.step. destruct (Camera.enabled e c) eqn:Hen; [|done].
  intros Hinv Hload [= <-].
  destruct c as [[stream blob busy error frozenFrame showToast]
                 [sup sec live next pG pP pR picker]].
  unfold camera_inv, Camera.frozen, Camera.held in *. simpl in *.
  destruct Hinv as (Hlive & Hidle & Hone & Hnone & Hbusy & Hfrozen).
  destruct e; simpl in *; try done.
  - (* ClickTakePhoto *)
    apply andb_true_iff in Hen as [[Hs Hf]%andb_true_iff Hb].
    apply negb_true_iff in Hf, Hb. subst busy.
    destruct (Hidle eq_refl) as [-> ->].
    unfold Camera.startCamera. simpl.
    destruct sup; simpl; [|done]. destruct sec; simpl; [|done].
    split_and!; try done; try lia.
    apply negb_true_iff, bool_decide_eq_false in Hs.
    destruct stream; [|done]. exfalso. apply Hs. by eexists.
  - (* GetUserMediaResolves *)
    apply bool_decide_eq_true in Hen.
    specialize (Hnone Hen). subst stream. simpl in Hlive. subst live.
    destruct busy; [|destruct (Hidle eq_refl); lia].
    specialize (Hbusy eq_refl).
    unfold Camera.getUserMediaResolved, Camera.videoMounted. simpl.
    rewrite Hbusy. simpl.
    split_and!; try done; try lia.
    + by rewrite (left_id_L ∅ (∪)).
    + intros Hf. congruence.
  - (* GetUserMediaRejects *)
    apply bool_decide_eq_true in Hen.
    split_and!; try done; try lia.
  - (* PlaySettles *)
    apply bool_decide_eq_true in Hen.
    split_and!; try done; try lia.
  - (* ClickCapture *)
    apply andb_true_iff in Hen as [[Hf Hs]%andb_true_iff Hb].
    apply negb_true_iff in Hf, Hb. subst busy.
    apply bool_decide_eq_true in Hs as [s ->]. simpl in *. subst live.
    unfold Camera.capture, Camera.videoMounted. simpl. rewrite Hf. simpl.
    destruct (Camera.contextAvailable x); simpl; [|done].
    split_and!; try done. by rewrite difference_diag_L.
  - (* ClickRetry *)
    destruct busy; [by specialize (Hbusy eq_refl); congruence|].
    destruct (Hidle eq_refl) as [-> ->].
    rewrite (Hfrozen Hen) in *. simpl in *.
    unfold Camera.handleRetry, Camera.startCamera. simpl.
    destruct sup; simpl; [|done]. destruct sec; simpl; [|done].
    split_and!; try done; try lia.
Qed.

Lemma camera_inv_run (es : list Camera.event)
  (c c' : Camera.state * Camera.device) :
  camera_inv c → forallb (λ e, negb (Camera.loadsFile e)) es = true →
  Camera.run es c = Some c' → camera_inv c'.
Proof.
  revert c. induction es as [|e es IH]; simpl; intros c Hinv Hes Hrun.
  - by injection Hrun as <-.
  - apply andb_true_iff in Hes as [He Hes]. apply negb_true_iff in He.
    destruct (Camera.step e c) as [c1|] eqn:Hstep; [|done].
    eauto using camera_inv_step.
Qed.

(** X16: as long as no picked file is loaded the camera is never leaked.
    On every run of the capture page without a [FileReader] load, from a
    device with no live stream and nothing pending, the live streams are
    exactly the stream the page holds; while a frame is frozen the page
    holds no stream and none is live; and at most one [getUserMedia] or
    [play] is pending. *)
Theorem camera_released_without_uploads (d0 : Camera.device)
  (es : list Camera.event) (c : Camera.state * Camera.device) :
  Camera.live d0 = ∅ →
  Camera.pendingGetUserMedia d0 = 0%nat → Camera.pendingPlay d0 = 0%nat →
  forallb (λ e, negb (Camera.loadsFile e)) es = true →
  Camera.run es (Camera.initial, d0) = Some c →
  Camera.live c.2 = Camera.held c.1
  ∧ (Camera.frozen c → Camera.stream c.1 = None ∧ Camera.live c.2 = ∅)
  ∧ (Camera.pendingGetUserMedia c.2 + Camera.pendingPlay c.2 ≤ 1)%nat.
Proof.
  intros Hlive HpG HpP Hes Hrun.
  assert (Hinv : camera_inv c).
  { eapply camera_inv_run; [|exact Hes|exact Hrun].
    unfold camera_inv, Camera.frozen. simpl. rewrite HpG, HpP.
    split_and!; try done. lia. }
  destruct Hinv as (Hl & _ & Hone & _ & _ & Hfrozen).
  split_and!; [done| |done].
  intros Hf. specialize (Hfrozen Hf). split; [done|].
  rewrite Hl. unfold Camera.held. by rewrite Hfrozen.
Qed.

Lemma camera_released_without_uploads_witness :
  ∃ c, Camera.run
         [Camera.ClickTakePhoto; Camera.GetUserMediaResolves;
          Camera.PlaySettles;
          Camera.ClickCapture
            (Camera.Shot (Capture.Frame (Some 3000%Z) (Some 2000%Z) 1280 720)
               true "data:image/jpeg;base64,aGVsbG8=")]
         (Camera.initial, Camera.idle_device) = Some c
       ∧ Camera.frozenFrame c.1 = Some "data:image/jpeg;base64,aGVsbG8="
       ∧ Camera.live c.2 = Camera.held c.1.
Proof.
  eexists. split; [reflexivity|]. split; [reflexivity|].
  refine (proj1 (camera_released_without_uploads Camera.idle_device
                   [Camera.ClickTakePhoto; Camera.GetUserMediaResolves;
                    Camera.PlaySettles;
                    Camera.ClickCapture
                      (Camera.Shot
                         (Capture.Frame (Some 3000%Z) (Some 2000%Z) 1280 720)
                         true "data:image/jpeg;base64,aGVsbG8=")]
                   _ eq_refl eq_refl eq_refl eq_refl eq_refl)).
Defined.





(** X18: leaving the page does not stop the camera.  The cleanup of the
    mount effect calls the [stopCamera] of the first render, which closes
    over the initial [stream], null: it stops no track, whatever stream
    the page holds by then, whereas the [stopCamera] of the current
    render would stop it. *)
Theorem unmount_keeps_camera (c : Camera.state * Camera.device) :
  Camera.stopCamera c = Camera.stopCameraOf (Camera.stream c.1) c
  ∧ Camera.live (Camera.unmountCleanup c) = Camera.live c.2
  ∧ ∀ s, Camera.stream c.1 = Some s → s ∈ Camera.live c.2 →
         s ∈ Camera.live (Camera.unmountCleanup c)
         ∧ s ∉ Camera.live (Camera.stopCamera c).2.
Proof.
  split_and!; [done|done|].
  intros s Hs Hlive. split; [done|].
  unfold Camera.stopCamera. rewrite Hs. simpl.
  rewrite elem_of_difference, elem_of_singleton. tauto.
Qed.

Lemma unusable_inv_step (e : Camera.event)
  (c c' : Camera.state * Camera.device) :
  unusable_inv c → Camera.step e c = Some c' →
  unusable_inv c'
  ∧ (Camera.loadsFile e = false → Camera.frozen c' → Camera.frozen c).
Proof.
  unfold Camera.step. destruct (Camera.enabled e c) eqn:Hen; [|done].
  intros Hinv [= <-].
  destruct c as [[stream blob busy error frozenFrame showToast]
                 [sup sec live next pG pP pR picker]].
  unfold unusable_inv, cameraUnusable, Camera.frozen in *. simpl in *.
  destruct Hinv as (Hbad & -> & -> & -> & -> & ->).
  destruct e; simpl in *; try done.
  - unfold Camera.startCamera. simpl.
    destruct sup; simpl; [|done]. destruct sec; simpl; [|done].
    by destruct Hbad.
  - by destruct (JS.truthy_opt frozenFrame).
  - unfold Camera.handleRetry, Camera.startCamera. simpl.
    destruct sup; simpl; [|done]. destruct sec; simpl; [|done].
    by destruct Hbad.
Qed.

Lemma unusable_inv_run (es : list Camera.event)
  (c c' : Camera.state * Camera.device) :
  unusable_inv c → Camera.run es c = Some c' →
  unusable_inv c'
  ∧ (Camera.frozen c' → ¬ Camera.frozen c →
     existsb Camera.loadsFile es = true).
Proof.
  revert c. induction es as [|e es IH]; simpl; intros c Hinv Hrun.
  - injection Hrun as <-. split; [done|]. by intros ? ?.
  - destruct (Camera.step e c) as [c1|] eqn:Hstep; [|done].
    destruct (unusable_inv_step e c c1 Hinv Hstep) as [Hinv1 Hfrozen].
    destruct (IH c1 Hinv1 Hrun) as [Hinv' Hfile]. split; [done|].
    intros Hf' Hf. destruct (Camera.loadsFile e); [done|]. simpl.
    apply Hfile; [done|]. intros Hf1. by apply Hf, Hfrozen.
Qed.

(** X19: without [getUserMedia], or outside a secure context, the page
    never asks for the camera.  On every run from such a device no
    stream is held or live, no [getUserMedia] is pending, the page is
    never busy and the Capture button is never enabled; a frame can only
    be frozen by loading a picked file. *)
Theorem no_camera_request_when_unusable (d0 : Camera.device)
  (es : list Camera.event) (c : Camera.state * Camera.device) :
  cameraUnusable d0 → Camera.live d0 = ∅ →
  Camera.pendingGetUserMedia d0 = 0%nat → Camera.pendingPlay d0 = 0%nat →
  Camera.run es (Camera.initial, d0) = Some c →
  Camera.stream c.1 = None ∧ Camera.live c.2 = ∅
  ∧ Camera.pendingGetUserMedia c.2 = 0%nat ∧ Camera.busy c.1 = false
  ∧ (∀ x, Camera.enabled (Camera.ClickCapture x) c = false)
  ∧ (Camera.frozen c → existsb Camera.loadsFile es = true).
Proof.
  intros Hbad Hlive HpG HpP Hrun.
  destruct (unusable_inv_run es (Camera.initial, d0) c) as [Hinv Hfile];
    [by split_and!|done|].
  destruct Hinv as (_ & Hs & Hb & Hl & Hg & _).
  split_and!; [done..| |].
  - intros x. simpl. rewrite Hs. simpl. by rewrite andb_false_r.
  - intros Hf. apply Hfile; [done|]. by unfold Camera.frozen.
Qed.

Lemma no_camera_request_when_unusable_witness :
  let d0 := Camera.Device false true ∅ 0 0 0 0 false in
  ∃ c, Camera.run
         [Camera.ClickTakePhoto; Camera.FileChosen "room.jpg";
          Camera.ReaderLoads "data:image/jpeg;base64,aGVsbG8="]
         (Camera.initial, d0) = Some c
       ∧ Camera.error c.1 = Some "Camera API not supported by this browser."
       ∧ Camera.frozenFrame c.1 = Some "data:image/jpeg;base64,aGVsbG8="
       ∧ Camera.stream c.1 = None.
Proof.
  intros d0. eexists. split; [reflexivity|]. split; [reflexivity|].
  split; [reflexivity|].
  refine (proj1 (no_camera_request_when_unusable d0
                   [Camera.ClickTakePhoto; Camera.FileChosen "room.jpg";
                    Camera.ReaderLoads "data:image/jpeg;base64,aGVsbG8="]
                   _ (or_introl eq_refl) eq_refl eq_refl eq_refl eq_refl)).
Defined.

(** ** More on the size of the captured image
    (src/unnamed/part_002, src/unnamed/part_003) *)

(** One side of a frame that is scaled down, from the half-pixel bound. *)
Lemma rounded_dimension_shrinks (r x M : Z) :
  (1920 < M)%Z → (0 < x ≤ M)%Z →
  (2 * Z.abs (r * M - 1920 * x) ≤ M)%Z →
  (r ≤ x)%Z ∧ (3840 * x < M → r = 0)%Z ∧ (M < 3840 * x → 1 ≤ r)%Z.
Proof.
  intros HM Hx Hr.
  destruct (rounded_dimension_bounds r x M HM Hx Hr) as [[Hlo Hhi] _].
  split_and!.
  - destruct (Z_le_gt_dec r x) as [|Hgt]; [done|].
    assert ((x + 1) * M ≤ r * M)%Z by (apply Z.mul_le_mono_nonneg_r; lia).
    nia.
  - intros Hthin. destruct (Z.eq_dec r 0%Z) as [|Hne]; [done|].
    assert (1 * M ≤ r * M)%Z by (apply Z.mul_le_mono_nonneg_r; lia). lia.
  - intros Hwide. destruct (Z_le_gt_dec 1%Z r) as [|Hlt]; [done|].
    assert (r = 0)%Z by lia. subst r. lia.
Qed.

(** X20: [capture] never enlarges a side and keeps the orientation: each
    side of the image is at most the side of the frame, the shorter side
    of the frame gives the shorter side of the image, and a square frame
    gives a square image. *)
Theorem capture_never_enlarges (f : Capture.frame) :
  Capture.wellTyped f →
  let w := Capture.sourceWidth f in
  let h := Capture.sourceHeight f in
  let out := Capture.capturedSize f in
  (out.1 ≤ w ∧ out.2 ≤ h)%Z
  ∧ ((w ≤ h)%Z → (out.1 ≤ out.2)%Z)
  ∧ ((h ≤ w)%Z → (out.2 ≤ out.1)%Z)
  ∧ (w = h → out.1 = out.2).
Proof.
  intros Hf w h out.
  destruct (sourceSize_range f Hf) as [Hw Hh]. fold w h in Hw, Hh.
  pose proof (canvasSize_fits w h Hw Hh) as Hfits. cbv zeta in Hfits.
  change (Capture.canvasSize w h) with out in Hfits.
  destruct Hfits as (Hpos & Hsmall & Hbig). clearbody out.
  destruct (Z_le_gt_dec (Z.max w h) 1920%Z) as [Hle|Hgt].
  - rewrite (Hsmall Hle). simpl. lia.
  - destruct (Hbig ltac:(lia)) as (Hmax & Hrw & Hrh).
    destruct (rounded_dimension_shrinks out.1 w (Z.max w h)) as (Hsw & _);
      [lia|lia|done|].
    destruct (rounded_dimension_shrinks out.2 h (Z.max w h)) as (Hsh & _);
      [lia|lia|done|].
    destruct (rounded_dimension_bounds out.1 w (Z.max w h)) as [_ Hew];
      [lia|lia|done|].
    destruct (rounded_dimension_bounds out.2 h (Z.max w h)) as [_ Heh];
      [lia|lia|done|].
    split_and!; [lia|lia| | |].
    + intros Hwh. rewrite (Heh ltac:(lia)). lia.
    + intros Hwh. rewrite (Hew ltac:(lia)). lia.
    + intros Hwh. rewrite (Hew ltac:(lia)), (Heh ltac:(lia)). done.
Qed.

Lemma capture_never_enlarges_witness :
  let f := Capture.Frame (Some 3000%Z) (Some 2000%Z) 1280 720 in
  Capture.wellTyped f
  ∧ ((Capture.capturedSize f).1 ≤ 3000 ∧ (Capture.capturedSize f).2 ≤ 2000)%Z.
Proof.
  intros f.
  assert (Hf : Capture.wellTyped f).
  { unfold Capture.wellTyped, Capture.unsignedLong, f. simpl.
    change (2 ^ 32)%Z with 4294967296%Z. lia. }
  split; [exact Hf|].
  exact (proj1 (capture_never_enlarges f Hf)).
Defined.



(** X22: the older component sizes the capture from the video element
    alone.  Its [stream?.getVideoTracks?.[0]] never yields a track, so
    whatever the stream reports the source size is [videoWidth] by
    [videoHeight], or 1280 by 720 where these are 0; the later component
    takes the non-zero width and height of the first video track instead,
    and agrees with the older one when the stream has no video track. *)
Theorem legacy_capture_ignores_track_settings
  (stream : option (list Capture.trackSettings)) (videoWidth videoHeight : Z) :
  Capture.capturedSize (Capture.readFrame_legacy stream videoWidth videoHeight)
  = Capture.canvasSize (Capture.orElse videoWidth 1280)
      (Capture.orElse videoHeight 720)
  ∧ (∀ tw th rest, tw ≠ 0%Z → th ≠ 0%Z →
       stream = Some (Capture.TrackSettings (Some tw) (Some th) :: rest) →
       Capture.capturedSize (Capture.readFrame stream videoWidth videoHeight)
       = Capture.canvasSize tw th)
  ∧ ((stream = None ∨ stream = Some []) →
     Capture.readFrame stream videoWidth videoHeight
     = Capture.readFrame_legacy stream videoWidth videoHeight).
Proof.
  split_and!.
  - by destruct stream.
  - intros tw th rest Htw Hth ->.
    unfold Capture.capturedSize, Capture.sourceWidth, Capture.sourceHeight,
      Capture.orElse. simpl.
    destruct (Z.eqb_spec tw 0); [done|]. by destruct (Z.eqb_spec th 0).
  - by intros [-> | ->].
Qed.

(** ** The upload route and the upload of the older capture page
    (src/unnamed/part_000, src/unnamed/part_003) *)

(** Numbers in a template literal: plain digits up to 21 of them, with
    zeros for the digits a double does not hold, and the exponent form
    beyond. *)
Example Number_toString_samples :
  Upload.Number_toString 2048 = "2048"
  ∧ Upload.Number_toString (- 9007199254740993) = "-9007199254740992"
  ∧ Upload.Number_toString (2 ^ 60) = "1152921504606847000"
  ∧ Upload.Number_toString (10 ^ 21) = "1e+21"
  ∧ Upload.Number_toString (2 ^ 70) = "1.1805916207174113e+21"
  ∧ Upload.Number_toString (10 ^ 400) = "Infinity".
Proof. vm_compute. done. Qed.

Example upload_numeric_url_sample :
  Upload.upload 0 (Some (Blob "image/jpeg" "hello"))
    (λ _, Upload.Answer 200
            (Some (Upload.JObject
                     [("url", Upload.JArray
                                [Upload.JNumber (10 ^ 21); Upload.JNull;
                                 Upload.JBool true])])))
  = ([Request "POST" "/api/upload"
        [("photo", File "hello" "capture-0.jpg" "image/jpeg")]],
     ["Uploaded ✔" +:+ Upload.newline +:+ "URL: 1e+21,,true"],
     Upload.Returned).
Proof. vm_compute. reflexivity. Qed.

(** X23: the route answers by the first form entry named [photo].  A
    file there gives 200 with its name and its size in bytes, whatever
    follows; a string there, or no such entry, gives 400 with [No file
    received], also when a file named [photo] comes later in the form. *)
Theorem route_accepts_first_photo_file
  (before rest : list (string * Upload.entry)) :
  Forall (λ e, e.1 ≠ "photo") before →
  (∀ f, Upload.POST (before ++ ("photo", Upload.EntryFile f) :: rest)
        = Upload.JsonResponse 200
            (Upload.JObject
               [("ok", Upload.JBool true);
                ("filename", Upload.JString (file_name f));
                ("size", Upload.JNumber
                           (Z.of_nat (String.length (file_bytes f))))]))
  ∧ (∀ s, Upload.POST (before ++ ("photo", Upload.EntryString s) :: rest)
          = Upload.JsonResponse 400
              (Upload.JObject [("ok", Upload.JBool false);
                               ("error", Upload.JString "No file received")]))
  ∧ Upload.POST before
    = Upload.JsonResponse 400
        (Upload.JObject [("ok", Upload.JBool false);
                         ("error", Upload.JString "No file received")]).
Proof.
  intros Hbefore.
  assert (Hget : ∀ tail, Upload.formData_get "photo" (before ++ tail)
                         = Upload.formData_get "photo" tail).
  { intros tail. induction Hbefore as [|[k v] before Hk _ IH]; [done|].
    simpl in *. by rewrite bool_decide_eq_false_2. }
  unfold Upload.POST. split_and!.
  - intros f. by rewrite Hget.
  - intros s. by rewrite Hget.
  - specialize (Hget []). rewrite app_nil_r in Hget. by rewrite Hget.
Qed.

Lemma route_accepts_first_photo_file_witness :
  Upload.json_status
    (Upload.POST [("note", Upload.EntryString "kitchen");
                  ("photo", Upload.EntryString "not a file");
                  ("photo", Upload.EntryFile (File "hello" "a.jpg" "image/jpeg"))])
  = 400%N.
Proof.
  assert (Hbefore : Forall (λ e : string * Upload.entry, e.1 ≠ "photo")
                      [("note", Upload.EntryString "kitchen")]).
  { repeat constructor. discriminate. }
  exact (f_equal Upload.json_status
           (proj1 (proj2 (route_accepts_first_photo_file _
                            [("photo", Upload.EntryFile
                                         (File "hello" "a.jpg" "image/jpeg"))]
                            Hbefore)) "not a file")).
Defined.

(** X24: the upload of the older capture page against the route.  With
    no photo kept, [upload] sends nothing and shows nothing.  With one,
    it sends a single POST whose form has the photo as a file named
    [capture-<now>.jpg]; the route answers 200 with that name and the
    number of bytes of the photo, and since that answer has no [url] the
    page alerts exactly [Uploaded ✔].  Any answer outside 200..299 is
    alerted as [Upload failed]. *)
Theorem upload_answered_by_route (now : Z) (b : blob) :
  let name := "capture-" +:+ pretty now +:+ ".jpg" in
  let req := Request "POST" "/api/upload"
               [("photo", File (blob_bytes b) name (blob_type b))] in
  Upload.upload now (Some b) Upload.answeredByRoute
  = ([req], ["Uploaded ✔"], Upload.Returned)
  ∧ Upload.answeredByRoute req
    = Upload.Answer 200
        (Some (Upload.JObject
                 [("ok", Upload.JBool true);
                  ("filename", Upload.JString name);
                  ("size", Upload.JNumber
                             (Z.of_nat (String.length (blob_bytes b))))]))
  ∧ (∀ net, Upload.upload now None net = ([], [], Upload.Returned))
  ∧ ∀ net status parsed,
      net req = Upload.Answer status parsed →
      (status < 200 ∨ 299 < status)%N →
      Upload.upload now (Some b) net = ([req], ["Upload failed"], Upload.Returned).
Proof.
  intros name req. split_and!; [done|done|done|].
  intros net status parsed Hnet Hstatus. unfold Upload.upload.
  fold name. fold req. rewrite Hnet.
  by rewrite bool_decide_eq_false_2 by lia.
Qed.

(** X25: how [upload] ends on the answers it can get.  It always sends
    the one POST.  A network failure rejects the call without an alert;
    an answer outside 200..299 is alerted as [Upload failed]; an answer
    in 200..299 whose body is not JSON, or is an object without a truthy
    [url], is alerted as [Uploaded ✔]; one whose body is the JSON [null]
    makes the call reject with a TypeError and no alert; and a non-empty
    string under [url] is appended on a second line after [URL: ]. *)
Theorem upload_edge_answers (now : Z) (b : blob) (net : request → Upload.answered) :
  let req := Request "POST" "/api/upload"
               [("photo", File (blob_bytes b)
                            ("capture-" +:+ pretty now +:+ ".jpg")
                            (blob_type b))] in
  let u := Upload.upload now (Some b) net in
  u.1.1 = [req]
  ∧ (∀ reason, net req = Upload.NoAnswer reason →
               u = ([req], [], Upload.Rejected reason))
  ∧ (∀ status parsed, net req = Upload.Answer status parsed →
       ((status < 200 ∨ 299 < status)%N →
        u = ([req], ["Upload failed"], Upload.Returned))
       ∧ ((200 ≤ status ≤ 299)%N →
          (parsed = None → u = ([req], ["Uploaded ✔"], Upload.Returned))
          ∧ (parsed = Some Upload.JNull → u = ([req], [], Upload.TypeError))
          ∧ (∀ fields, parsed = Some (Upload.JObject fields) →
               Upload.truthy (Upload.member "url" fields) = false →
               u = ([req], ["Uploaded ✔"], Upload.Returned))
          ∧ (∀ fields link, parsed = Some (Upload.JObject fields) →
               Upload.member "url" fields = Some (Upload.JString link) →
               link ≠ "" →
               u = ([req],
                    ["Uploaded ✔" +:+ Upload.newline +:+ "URL: " +:+ link],
                    Upload.Returned)))).
Proof.
  intros req u. subst u. unfold Upload.upload. fold req.
  split_and!.
  - destruct (net req) as [status parsed|reason]; [|done].
    destruct (bool_decide _); simpl; [|done].
    by destruct (Upload.urlOf _).
  - by intros reason ->.
  - intros status parsed ->. split.
    + intros Hs. by rewrite bool_decide_eq_false_2 by lia.
    + intros Hs. rewrite bool_decide_eq_true_2 by lia. simpl.
      split_and!.
      * by intros ->.
      * by intros ->.
      * intros fields -> Hfalsy. simpl. by rewrite Hfalsy.
      * intros fields link -> Hurl Hne. simpl. rewrite Hurl. simpl.
        by rewrite (proj2 (truthy_true link) Hne).
Qed.

(** X26: what the older page keeps of a photo is what it uploads.  After
    the [toBlob] callback of [capture] got an image, or [onFileChange] a
    file, the page shows the object URL of that photo, the Upload button
    is enabled, and [upload], answered by the route, sends that photo and
    is told its size in bytes.  The callback also stops the stream that
    was held when [capture] ran, whereas [onFileChange] leaves the camera
    as it is; without an image or a file nothing changes; and while the
    Upload button is disabled [upload] sends nothing. *)
Theorem legacy_photo_is_uploaded (now : Z) (image : Legacy.photo)
  (url : string) (closedOver : option nat) (c : Legacy.state * gset nat) :
  let name := "capture-" +:+ pretty now +:+ ".jpg" in
  let req := Request "POST" "/api/upload"
               [("photo", File (blob_bytes image) name (blob_type image))] in
  let answer := Upload.Answer 200
                  (Some (Upload.JObject
                           [("ok", Upload.JBool true);
                            ("filename", Upload.JString name);
                            ("size", Upload.JNumber
                                       (Z.of_nat (String.length
                                                    (blob_bytes image))))])) in
  let captured := Legacy.toBlobCallback closedOver (Some image) url c in
  let picked := Legacy.onFileChange (Some image) url c in
  (∀ c', c' = captured ∨ c' = picked →
         Legacy.frozenFrame c'.1 = Some url
         ∧ Legacy.uploadEnabled c'.1 = true
         ∧ Upload.upload now (Legacy.blob c'.1) Upload.answeredByRoute
           = ([req], ["Uploaded ✔"], Upload.Returned)
         ∧ Upload.answeredByRoute req = answer)
  ∧ (Legacy.stream captured.1 = None
     ∧ ∀ s, closedOver = Some s → s ∉ captured.2)
  ∧ (Legacy.stream picked.1 = Legacy.stream c.1 ∧ picked.2 = c.2)
  ∧ Legacy.toBlobCallback closedOver None url c = c
  ∧ Legacy.onFileChange None url c = c
  ∧ (Legacy.uploadEnabled c.1 = false →
     ∀ net, Upload.upload now (Legacy.blob c.1) net = ([], [], Upload.Returned)).
Proof.
  intros name req answer captured picked. split_and!.
  - intros c' [-> | ->]; done.
  - done.
  - intros s ->. simpl.
    rewrite elem_of_difference, elem_of_singleton. tauto.
  - done.
  - done.
  - done.
  - done.
  - unfold Legacy.uploadEnabled. intros Hoff net.
    apply bool_decide_eq_false in Hoff.
    destruct (Legacy.blob c.1) as [b|]; [|done].
    exfalso. apply Hoff. by eexists.
Qed.
